(** * ibmethods-demos: the event-driven Markov simulator and the
      finite-difference eigenproblem helpers

    A shallow embedding of the pieces of the notebooks that carry
    algorithmic content:

    - [evolution], the event-driven simulation of a continuous-time Markov
      process, in its two versions (the notebook with the [maxrate] ceiling,
      src/unnamed/part_003, and the earlier notebook, src/unnamed/part_004),
      and the transition functions of its demos;
    - [discretise], [d4dx4_mat] and [myeig], the finite-difference matrices
      and the sorted, rescaled eigendecomposition (src/unnamed/part_000 and
      src/unnamed/part_005), and [augment], the padding of a matrix
      (src/unnamed/part_005);
    - [gradient_descent] and [ddx], the descent loop and the derivative of
      an array (src/unnamed/part_002);
    - [jifreq], the folding of a harmonic into one octave
      (src/unnamed/part_006).

    Numbers.  Python floats are modelled as rationals [Q] with exact
    arithmetic: rounding, overflow and [inf] are outside the model, and
    so is [nan] except among the eigenvalues that the solver returns.
    The properties stated are those that do not depend on rounding:
    control flow, shapes, comparisons, and values written as the
    expression the code evaluates.  Python ints are [Z].  Exceptions are the [Raise] results of [result].
    The while loop of [evolution] need not terminate, so it takes a fuel
    and returns [None] when the fuel runs out. *)

From Stdlib Require Import Bool String.
From Stdlib Require Import QArith Qround Qabs ZArith List Lia Lqa.
From Stdlib Require Import Sorting.Sorted Sorting.Permutation.
Import ListNotations.

Open Scope Q_scope.

(** ** Python values shared by the notebooks *)

(** The exceptions the embedded code can raise. *)
Inductive exn : Type :=
| IndexError
| ValueError
| TypeError.

Inductive result (A : Type) : Type :=
| Ok (a : A)
| Raise (e : exn).

Arguments Ok {A} a.
Arguments Raise {A} e.

Definition bind {A B : Type} (r : result A) (k : A -> result B) : result B :=
  match r with
  | Ok a => k a
  | Raise e => Raise e
  end.

Notation "x <- r ;; k" := (bind r (fun x => k))
  (at level 61, r at next level, right associativity).

(** [mapM f l]: a list comprehension [[f(x) for x in l]] whose body can
    raise; the first exception wins. *)
Fixpoint mapM {A B : Type} (f : A -> result B) (l : list A) : result (list B) :=
  match l with
  | [] => Ok []
  | x :: l' => y <- f x ;; ys <- mapM f l' ;; Ok (y :: ys)
  end.

(** The position a Python int [i] denotes in a sequence of length [n]: a
    negative index counts from the end, an index outside the sequence
    raises [IndexError]. *)
Definition index (n : nat) (i : Z) : result nat :=
  let j := if (i <? 0)%Z then (i + Z.of_nat n)%Z else i in
  if (j <? 0)%Z || (Z.of_nat n <=? j)%Z then Raise IndexError
  else Ok (Z.to_nat j).

(** [l[i]] *)
Definition getitem {A : Type} (l : list A) (i : Z) : result A :=
  j <- index (length l) i ;;
  match nth_error l j with
  | Some x => Ok x
  | None => Raise IndexError
  end.

(** The list [l] with position [j] holding [x]. *)
Fixpoint set_nth {A : Type} (j : nat) (x : A) (l : list A) : list A :=
  match l, j with
  | [], _ => []
  | _ :: l', O => x :: l'
  | y :: l', S j' => y :: set_nth j' x l'
  end.

(** [np.linspace(start, stop, num)]: [num] points, [start + i*step] with
    [step = (stop - start) / (num - 1)], the last one set to [stop]; a
    negative [num] raises [ValueError]. *)
Definition linspace (start stop : Q) (num : Z) : result (list Q) :=
  if (num <? 0)%Z then Raise ValueError
  else
    let step := (stop - start) / inject_Z (num - 1) in
    let y := map (fun i => inject_Z (Z.of_nat i) * step + start)
                 (seq 0 (Z.to_nat num)) in
    Ok (if (1 <? num)%Z then removelast y ++ [stop] else y).

(** Float comparison [x < y]. *)
Definition Qltb (x y : Q) : bool := negb (Qle_bool y x).

(** A Python dict: insertion-ordered, keys pairwise distinct.  Iteration
    order matters below (it fixes which variate a candidate receives and
    how ties are broken), so a dict is the list of its items in order. *)
Definition dict (K V : Type) : Type := list (K * V).

(** The pseudo-random source: the stream of standard exponential variates
    (mean 1) that the generator is going to produce. *)
Definition Rng : Type := nat -> Q.

(** [np.random.exponential(scale)]: numpy returns [scale] times the next
    standard exponential variate, and advances the generator. *)
Definition exponential (scale : Q) (g : Rng) : Q * Rng :=
  (scale * g 0%nat, fun n => g (S n)).

Section Race.

Variable State : Type.

(** [{k: transitions[k] for k in transitions if transitions[k] > 0}] *)
Definition positive_rates (transitions : dict State Q) : dict State Q :=
  filter (fun kv => Qltb 0 (snd kv)) transitions.

(** [{k: transitions[k] for k in transitions if transitions[k] < maxrate}] *)
Definition below_maxrate (maxrate : Q) (transitions : dict State Q)
  : dict State Q :=
  filter (fun kv => Qltb (snd kv) maxrate) transitions.

(** [{k: np.random.exponential(1/transitions[k]) for k in transitions}]:
    one call of the generator per key, in iteration order. *)
Fixpoint times_to_move (transitions : dict State Q) (g : Rng)
  : dict State Q * Rng :=
  match transitions with
  | [] => ([], g)
  | (k, r) :: rest =>
      let (x, g1) := exponential (1 / r) g in
      let (m, g2) := times_to_move rest g1 in
      ((k, x) :: m, g2)
  end.

(** The builtin [min(d, key=lambda k: d[k])] after its first item: the
    running best is replaced only by a strictly smaller key, so the
    first minimal item in iteration order is returned. *)
Fixpoint min_from (best : State * Q) (rest : dict State Q) : State * Q :=
  match rest with
  | [] => best
  | c :: rest' =>
      min_from (if Qltb (snd c) (snd best) then c else best) rest'
  end.

(** [min] of an empty iterable raises [ValueError]. *)
Definition py_min (d : dict State Q) : result (State * Q) :=
  match d with
  | [] => Raise ValueError
  | c :: rest => Ok (min_from c rest)
  end.

(** The builtin [max(l, key=lambda h: h[0])] after its first item: the
    running best is replaced only by a strictly larger key. *)
Fixpoint max_from (best : Q * State) (rest : list (Q * State)) : Q * State :=
  match rest with
  | [] => best
  | h :: rest' =>
      max_from (if Qltb (fst best) (fst h) then h else best) rest'
  end.

Definition py_max (l : list (Q * State)) : result (Q * State) :=
  match l with
  | [] => Raise ValueError
  | h :: rest => Ok (max_from h rest)
  end.

(** *** The race as the specification words it

    Every candidate of the map receives its own variate, the [i]-th
    candidate in iteration order the [i]-th variate of the stream, and
    waits [1/rate] times it. *)
Definition waiting_times (cands : dict State Q) (g : Rng) : dict State Q :=
  map (fun ukr => (fst (snd ukr), (1 / snd (snd ukr)) * fst ukr))
      (combine (map g (seq 0 (length cands))) cands).

(** [(k, x)] wins the race among [sampled]: it is one of the sampled
    candidates and no candidate has a smaller waiting time. *)
Definition wins (k : State) (x : Q) (sampled : dict State Q) : Prop :=
  In (k, x) sampled /\ forall k' x', In (k', x') sampled -> x <= x'.

End Race.

Arguments positive_rates {State} transitions.
Arguments below_maxrate {State} maxrate transitions.
Arguments times_to_move {State} transitions g.
Arguments min_from {State} best rest.
Arguments py_min {State} d.
Arguments max_from {State} best rest.
Arguments py_max {State} l.
Arguments waiting_times {State} cands g.
Arguments wins {State} k x sampled.

(** ** [evolution] with the rate ceiling (src/unnamed/part_003) *)

Module CTMP.

(** The [RuntimeWarning] of the ceiling: "Maximum rate {maxrate} exceeded
    by all possible transitions at time {t}." *)
Record warning : Type := MaxRateExceeded { w_maxrate : Q; w_time : Q }.

(** [scipy.interpolate.interp1d(x, y, kind='previous', axis=0)] applied to
    one number.  With the default [bounds_error] a query outside
    [[x[0], x[-1]]] raises [ValueError]; inside, the value at the last
    [x[i] <= x_new] is returned.  ([x] is the array of jump times, which is
    already in ascending order, so the sort interp1d starts with does
    nothing.) *)
Definition interp1d_previous {State : Type} (x : list Q) (y : list State)
           (x_new : Q) : result State :=
  if negb (Nat.eqb (length x) (length y)) then Raise ValueError else
  match x, y with
  | x0 :: _, y0 :: _ =>
      if Qltb x_new x0 then Raise ValueError
      else if Qltb (last x x0) x_new then Raise ValueError
      else
        let idx := length (filter (fun xi => Qle_bool xi x_new) x) in
        Ok (nth (Nat.pred (Nat.max 1 (Nat.min idx (length x)))) y y0)
  | _, _ => Raise ValueError
  end.

Section Evolution.

Variable State : Type.

(** The variables of the loop, with the generator and the warnings issued
    so far. *)
Record vars : Type := Vars {
  t : Q;
  state : State;
  ts : list Q;
  history : list State;
  rng : Rng;
  warned : list warning
}.

(** How a pass through the loop body ends. *)
Inductive flow : Type :=
| Break (v : vars)
| Continue (v : vars)
| Throw (e : exn) (v : vars).

Variable fun_ : Q -> State -> dict State Q.
Variable maxrate : Q.

(** [if maxrate:] a float is truthy when it is not zero. *)
Definition truthy (x : Q) : bool := negb (Qeq_bool x 0).

(** The race and the bookkeeping after it (lines 87-95). *)
Definition move (transitions : dict State Q) (v : vars) : flow :=
  let (times, g') := times_to_move transitions (rng v) in
  match py_min times with
  | Raise e => Throw e v
  | Ok (new_state, time_elapsed) =>
      let t' := t v + time_elapsed in
      Continue (Vars t' new_state (ts v ++ [t']) (history v ++ [new_state])
                     g' (warned v))
  end.

(** One pass through the body of [while t < tmax]. *)
Definition body (v : vars) : flow :=
  let transitions := fun_ (t v) (state v) in
  let transitions := positive_rates transitions in
  match transitions with
  | [] => Break v
  | _ :: _ =>
      if truthy maxrate then
        let transitions := below_maxrate maxrate transitions in
        match transitions with
        | [] =>
            Break (Vars (t v) (state v) (ts v) (history v) (rng v)
                        (warned v ++ [MaxRateExceeded maxrate (t v)]))
        | _ :: _ => move transitions v
        end
      else move transitions v
  end.

(** The loop; the exception that ended it, if one did, comes with the
    variables. *)
Fixpoint while (fuel : nat) (tmax : Q) (v : vars) : option (option exn * vars) :=
  match fuel with
  | O => None
  | S fuel' =>
      if Qltb (t v) tmax then
        match body v with
        | Break v' => Some (None, v')
        | Continue v' => while fuel' tmax v'
        | Throw e v' => Some (Some e, v')
        end
      else Some (None, v)
  end.

Definition init (tmin : Q) (state0 : State) (g : Rng) : vars :=
  Vars tmin state0 [tmin] [state0] g [].

(** What a call leaves behind: the returned value or the exception, and
    the warnings issued. *)
Record outcome : Type := Outcome {
  returned : result (list Q * list State);
  warnings : list warning
}.

(** [evolution(fun, tspan, state0, t_eval=..., maxrate=...)]; [None] when
    [fuel] passes of the loop do not finish it. *)
Definition evolution (fuel : nat) (tspan : Q * Q) (state0 : State)
           (t_eval : option (list Q)) (g : Rng) : option outcome :=
  let (tmin, tmax) := tspan in
  match while fuel tmax (init tmin state0 g) with
  | None => None
  | Some (Some e, v) => Some (Outcome (Raise e) (warned v))
  | Some (None, v) =>
      match t_eval with
      | None => Some (Outcome (Ok (ts v, history v)) (warned v))
      | Some qs =>
          Some (Outcome
                  (ys <- mapM (interp1d_previous (ts v) (history v)) qs ;;
                   Ok (qs, ys))
                  (warned v))
      end
  end.

(** The transitions that take part in the race of a pass: the positive
    rates, and below the ceiling when one is set. *)
Definition candidates (v : vars) : dict State Q :=
  let transitions := positive_rates (fun_ (t v) (state v)) in
  if truthy maxrate then below_maxrate maxrate transitions else transitions.

(** The variables after a pass that went through the race with waiting
    time [x] and winner [k]. *)
Definition moved (v : vars) (k : State) (x : Q) : vars :=
  Vars (t v + x) k (ts v ++ [t v + x]) (history v ++ [k])
       (snd (times_to_move (candidates v) (rng v))) (warned v).

(** What the loop keeps true of the recorded trajectory, given positive
    variates. *)
Definition trajectory_inv (tmin : Q) (state0 : State) (v : vars) : Prop :=
  hd_error (ts v) = Some tmin /\
  hd_error (history v) = Some state0 /\
  length (ts v) = length (history v) /\
  StronglySorted Qlt (ts v) /\
  Forall (fun x => x <= t v) (ts v) /\
  (forall n, 0 < rng v n).

(** [reaches tmax n v v']: [n] passes of the loop, none of them leaving it,
    lead from [v] to [v']. *)
Inductive reaches (tmax : Q) : nat -> vars -> vars -> Prop :=
| reaches_O v : reaches tmax 0 v v
| reaches_S n v v1 v' :
    Qltb (t v) tmax = true ->
    body v = Continue v1 ->
    reaches tmax n v1 v' ->
    reaches tmax (S n) v v'.

End Evolution.

Arguments Vars {State} t state ts history rng warned.
Arguments t {State} v.
Arguments state {State} v.
Arguments ts {State} v.
Arguments history {State} v.
Arguments rng {State} v.
Arguments warned {State} v.
Arguments Break {State} v.
Arguments Continue {State} v.
Arguments Throw {State} e v.
Arguments move {State} transitions v.
Arguments body {State} fun_ maxrate v.
Arguments while {State} fun_ maxrate fuel tmax v.
Arguments init {State} tmin state0 g.
Arguments Outcome {State} returned warnings.
Arguments returned {State} o.
Arguments warnings {State} o.
Arguments evolution {State} fun_ maxrate fuel tspan state0 t_eval g.
Arguments reaches {State} fun_ maxrate tmax n v v'.
Arguments candidates {State} fun_ maxrate v.
Arguments moved {State} fun_ maxrate v k x.
Arguments trajectory_inv {State} tmin state0 v.

End CTMP.

(** ** [evolution] of the earlier notebook (src/unnamed/part_004) *)

Module CTMP0.

(** The argument [ts]: a Python number (the final time), or an array of
    times of which the first and the last are used. *)
Inductive ts_arg : Type :=
| Number (T : Q)
| Times (a : list Q).

(** [if type(ts) in (int, float): ts = np.linspace(0, ts)] *)
Definition times_of (ts : ts_arg) : result (list Q) :=
  match ts with
  | Number T => linspace 0 T 50
  | Times a => Ok a
  end.

Section Evolution.

Variable State : Type.

Record vars : Type := Vars {
  t : Q;
  state : State;
  history : list (Q * State);
  rng : Rng
}.

Inductive flow : Type :=
| Break (v : vars)
| Continue (v : vars)
| Throw (e : exn) (v : vars).

Variable fun_ : Q -> State -> dict State Q.

(** One pass through the body of [while t < ts[-1]]. *)
Definition body (v : vars) : flow :=
  let transitions := fun_ (t v) (state v) in
  let transitions := positive_rates transitions in
  match transitions with
  | [] => Break v
  | _ :: _ =>
      let (times, g') := times_to_move transitions (rng v) in
      match py_min times with
      | Raise e => Throw e v
      | Ok (new_state, time_elapsed) =>
          let t' := t v + time_elapsed in
          Continue (Vars t' new_state (history v ++ [(t', new_state)]) g')
      end
  end.

Fixpoint while (fuel : nat) (tlast : Q) (v : vars) : option (option exn * vars) :=
  match fuel with
  | O => None
  | S fuel' =>
      if Qltb (t v) tlast then
        match body v with
        | Break v' => Some (None, v')
        | Continue v' => while fuel' tlast v'
        | Throw e v' => Some (Some e, v')
        end
      else Some (None, v)
  end.

(** [state = state0; t = ts[0]; history = [[0, state0]]] *)
Definition init (t0 : Q) (state0 : State) (g : Rng) : vars :=
  Vars t0 state0 [(0, state0)] g.

(** The loop over [resample]: the last event at or before each time. *)
Definition resampled_history (history : list (Q * State)) (resample : list Q)
  : result (list (Q * State)) :=
  mapM (fun q =>
          last_event <- py_max (filter (fun h => Qle_bool (fst h) q) history) ;;
          Ok (q, snd last_event))
       resample.

(** [evolution(fun, ts, state0, resample)]; [None] when [fuel] passes of
    the loop do not finish it. *)
Definition evolution (fuel : nat) (ts : ts_arg) (state0 : State)
           (resample : option (list Q)) (g : Rng)
  : option (result (list (Q * State))) :=
  match (a <- times_of ts ;;
         t0 <- getitem a 0 ;;
         tlast <- getitem a (-1) ;;
         Ok (t0, tlast)) with
  | Raise e => Some (Raise e)
  | Ok (t0, tlast) =>
      match while fuel tlast (init t0 state0 g) with
      | None => None
      | Some (Some e, _) => Some (Raise e)
      | Some (None, v) =>
          match resample with
          | None => Some (Ok (history v))
          | Some qs => Some (resampled_history (history v) qs)
          end
      end
  end.

Inductive reaches (tlast : Q) : nat -> vars -> vars -> Prop :=
| reaches_O v : reaches tlast 0 v v
| reaches_S n v v1 v' :
    Qltb (t v) tlast = true ->
    body v = Continue v1 ->
    reaches tlast n v1 v' ->
    reaches tlast (S n) v v'.

End Evolution.

Arguments Vars {State} t state history rng.
Arguments t {State} v.
Arguments state {State} v.
Arguments history {State} v.
Arguments rng {State} v.
Arguments Break {State} v.
Arguments Continue {State} v.
Arguments Throw {State} e v.
Arguments body {State} fun_ v.
Arguments while {State} fun_ fuel tlast v.
Arguments init {State} t0 state0 g.
Arguments resampled_history {State} history resample.
Arguments evolution {State} fun_ fuel ts state0 resample g.
Arguments reaches {State} fun_ tlast n v v'.

End CTMP0.

(** ** Finite-difference matrices (src/unnamed/part_000) *)

(** A dense numpy matrix, as the list of its rows. *)
Definition matrix : Type := list (list Q).

(** [np.eye(n)] *)
Definition np_eye (n : nat) : matrix :=
  map (fun i => map (fun j => if Nat.eqb i j then 1 else 0) (seq 0 n))
      (seq 0 n).

(** [np.roll(m, shift, 1)]: every row is rotated, the entry of column [j]
    moving to column [j + shift] modulo the width. *)
Definition roll_row (shift : Z) (row : list Q) : list Q :=
  map (fun j =>
         nth (Z.to_nat ((Z.of_nat j - shift) mod Z.of_nat (length row))) row 0)
      (seq 0 (length row)).

Definition np_roll (m : matrix) (shift : Z) : matrix :=
  map (roll_row shift) m.

Fixpoint map2 {A B C : Type} (f : A -> B -> C) (a : list A) (b : list B)
  : list C :=
  match a, b with
  | x :: a', y :: b' => f x y :: map2 f a' b'
  | _, _ => []
  end.

Definition madd (a b : matrix) : matrix := map2 (map2 Qplus) a b.
Definition msub (a b : matrix) : matrix := map2 (map2 Qminus) a b.
Definition mscale (c : Q) (m : matrix) : matrix := map (map (Qmult c)) m.
Definition mdiv (m : matrix) (c : Q) : matrix := map (map (fun x => x / c)) m.

(** [m[i, ...] = ...]: row [i] of [m] is replaced by what [f] makes of it. *)
Definition assign_row (m : matrix) (i : Z) (f : list Q -> result (list Q))
  : result matrix :=
  j <- index (length m) i ;;
  row <- getitem m i ;;
  row' <- f row ;;
  Ok (set_nth j row' m).

(** [row[:] = 0] *)
Definition zero_all (row : list Q) : result (list Q) :=
  Ok (repeat 0 (length row)).

(** [row[k:] = 0] *)
Definition zero_from (k : nat) (row : list Q) : result (list Q) :=
  Ok (firstn k row ++ repeat 0 (length row - k)).

(** [row[:-k] = 0] *)
Definition zero_upto_last (k : nat) (row : list Q) : result (list Q) :=
  Ok (repeat 0 (length row - k) ++ skipn (length row - k) row).

(** [row[:k] = vals] with [k] values: a row shorter than [k] cannot take
    them and numpy raises [ValueError]. *)
Definition set_first (vals : list Q) (row : list Q) : result (list Q) :=
  if (length row <? length vals)%nat then Raise ValueError
  else Ok (vals ++ skipn (length vals) row).

(** [row[-k:] = vals] with [k] values. *)
Definition set_last (vals : list Q) (row : list Q) : result (list Q) :=
  if (length row <? length vals)%nat then Raise ValueError
  else Ok (firstn (length row - length vals) row ++ vals).

(** [row[j] = x] *)
Definition set_entry (j : Z) (x : Q) (row : list Q) : result (list Q) :=
  k <- index (length row) j ;;
  Ok (set_nth k x row).

(** [(c0, c1, ...) / s] for a numpy float [s]: the array of quotients. *)
Definition tuple_over (coeffs : list Q) (s : Q) : list Q :=
  map (fun c => c / s) coeffs.

(** The one-sided rows that the [dirichlet] and the [neumann] branch both
    write into [ddx] and [d2dx2]. *)
Definition one_sided (dx : Q) (ddx d2dx2 : matrix) : result (matrix * matrix) :=
  ddx <- assign_row ddx 0 (zero_from 4) ;;
  ddx <- assign_row ddx 0 (set_first (tuple_over [-11 # 6; 3; -3 # 2; 1 # 3] dx)) ;;
  ddx <- assign_row ddx (-1) (zero_upto_last 4) ;;
  ddx <- assign_row ddx (-1) (set_last (tuple_over [-1 # 3; 3 # 2; -3; 11 # 6] dx)) ;;
  d2dx2 <- assign_row d2dx2 0 (zero_from 4) ;;
  d2dx2 <- assign_row d2dx2 0 (set_first (tuple_over [2; -5; 4; -1] (dx * dx))) ;;
  d2dx2 <- assign_row d2dx2 (-1) (zero_upto_last 4) ;;
  d2dx2 <- assign_row d2dx2 (-1) (set_last (tuple_over [-1; 4; -5; 2] (dx * dx))) ;;
  Ok (ddx, d2dx2).

(** [m] is an [n] by [n] matrix. *)
Definition square (n : nat) (m : matrix) : Prop :=
  length m = n /\ Forall (fun row => length row = n) m.

(** [np.dot(row, y)] *)
Definition dot (row y : list Q) : Q := fold_right Qplus 0 (map2 Qmult row y).

(** What makes a row of coefficients a finite-difference stencil of the
    first derivative on the grid [xs]: on the samples of a constant
    function it gives 0, and on the samples of [x] it gives 1. *)
Definition first_derivative_stencil (row xs : list Q) : Prop :=
  dot row (repeat 1 (length xs)) == 0 /\ dot row xs == 1.

(** What [discretise] returns: [xs, dx, eye, ddx, d2dx2]. *)
Record grid : Type := Grid {
  xs : list Q;
  dx : Q;
  eye : matrix;
  ddx : matrix;
  d2dx2 : matrix
}.

(** [discretise(xa, xb, nx, bcs)] *)
Definition discretise (xa xb : Q) (nx : Z) (bcs : string) : result grid :=
  xs <- linspace xa xb nx ;;
  x1 <- getitem xs 1 ;;
  x0 <- getitem xs 0 ;;
  let dx := x1 - x0 in
  let eye := np_eye (Z.to_nat nx) in
  let ddx := mdiv (msub (np_roll eye 1) (np_roll eye (-1))) (2 * dx) in
  let d2dx2 :=
    mdiv (madd (msub (np_roll eye 1) (mscale 2 eye)) (np_roll eye (-1)))
         (dx * dx) in
  if String.eqb bcs "periodic" then Ok (Grid xs dx eye ddx d2dx2)
  else if String.eqb bcs "dirichlet" then
    dd <- one_sided dx ddx d2dx2 ;;
    Ok (Grid xs dx eye (fst dd) (snd dd))
  else if String.eqb bcs "neumann" then
    eye <- assign_row eye 0 (set_entry 0 (dx * dx)) ;;
    eye <- assign_row eye (-1) (set_entry (-1) (dx * dx)) ;;
    dd <- one_sided dx ddx d2dx2 ;;
    Ok (Grid xs dx eye (fst dd) (snd dd))
  else Raise ValueError.

(** The argument [dx] of [d4dx4_mat]: the default is the Python int [1],
    the notebooks pass the numpy float that [discretise] returned. *)
Inductive number : Type :=
| PyInt (z : Z)
| NpFloat (q : Q).

Definition value (x : number) : Q :=
  match x with
  | PyInt z => inject_Z z
  | NpFloat q => q
  end.

(** [x**4] *)
Definition pow4 (x : number) : number :=
  match x with
  | PyInt z => PyInt (z * z * z * z)
  | NpFloat q => NpFloat (q * q * q * q)
  end.

(** [(c0, c1, ...) / x]: a tuple can be divided by a numpy float, not by
    a Python int. *)
Definition tuple_div (coeffs : list Q) (x : number) : result (list Q) :=
  match x with
  | PyInt _ => Raise TypeError
  | NpFloat q => Ok (tuple_over coeffs q)
  end.

(** [d4dx4_mat(nx, dx, bcs)] *)
Definition d4dx4_mat (nx : Z) (dx : number) (bcs : string) : result matrix :=
  if (nx <? 0)%Z then Raise ValueError
  else
    let eye := np_eye (Z.to_nat nx) in
    let d4dx4 :=
      mdiv (madd (msub (madd (msub (np_roll eye 2) (mscale 4 (np_roll eye 1)))
                             (mscale 6 eye))
                       (mscale 4 (np_roll eye (-1))))
                 (np_roll eye (-2)))
           (value (pow4 dx)) in
    if String.eqb bcs "dirichlet" then
      d4dx4 <- assign_row d4dx4 0 zero_all ;;
      vals <- tuple_div [1; -4; 6; -4; 1] (pow4 dx) ;;
      d4dx4 <- assign_row d4dx4 0 (set_first vals) ;;
      d4dx4 <- assign_row d4dx4 1 zero_all ;;
      d4dx4 <- assign_row d4dx4 (-2) zero_all ;;
      d4dx4 <- assign_row d4dx4 (-1) zero_all ;;
      Ok d4dx4
    else if String.eqb bcs "periodic" then Ok d4dx4
    else Raise ValueError.

(** ** The sorted, rescaled eigendecomposition (src/unnamed/part_000 and,
       word for word, src/unnamed/part_005) *)

(** A complex number: real and imaginary part. *)
Definition complex : Type := (Q * Q)%type.

Definition cmatrix : Type := list (list complex).

(** [z * s] for a real [s] *)
Definition cscale (s : Q) (z : complex) : complex := (fst z * s, snd z * s).

(** An eigenvalue as the solver returns it: a complex number, or NaN,
    which [scipy.linalg.eig] puts where the pencil is singular (both
    [alpha] and [beta] zero). *)
Inductive eigenvalue : Type :=
| Value (z : complex)
| NaN.

(** [np.real(eigvals)[i]]: a number, or NaN ([None]). *)
Definition np_real (w : eigenvalue) : option Q :=
  match w with
  | Value z => Some (fst z)
  | NaN => None
  end.

(** [a < b] on doubles: false as soon as one side is NaN. *)
Definition float_ltb (a b : option Q) : bool :=
  match a, b with
  | Some x, Some y => Qltb x y
  | _, _ => false
  end.

Section Sorted.

Variable K : Type.

(** [a < b] on the keys *)
Variable ltb : K -> K -> bool.

(** The builtin [sorted] on keyed items: a stable sort that compares keys
    with [<] only.  An item goes in front of the first item of the sorted
    rest whose key is not smaller than its own, so items with equal keys
    keep the order they came in.  Where [<] orders the keys (no NaN)
    every stable sort returns this list.  With a NaN among the keys the
    answer of the builtin depends on the runs it finds; a list in which
    no key is smaller than the key before it is one run, which the
    builtin returns as it is, and so does this definition
    ([sort_keyed_run] below). *)
Fixpoint insert_keyed (x : K * nat) (l : list (K * nat)) : list (K * nat) :=
  match l with
  | [] => [x]
  | y :: l' =>
      if ltb (fst y) (fst x) then y :: insert_keyed x l' else x :: y :: l'
  end.

Fixpoint sort_keyed (l : list (K * nat)) : list (K * nat) :=
  match l with
  | [] => []
  | x :: l' => insert_keyed x (sort_keyed l')
  end.

End Sorted.

Arguments insert_keyed {K} ltb x l.
Arguments sort_keyed {K} ltb l.

(** The order [sorted] leaves keyed items in when the keys are numbers:
    by key, and among equal keys by the position the item came from. *)
Definition keyed_lt (p q : Q * nat) : Prop :=
  fst p < fst q \/ (fst p == fst q /\ (snd p < snd q)%nat).

(** [sorted(range(nx), key=key)]: the key of every item is computed first,
    in order. *)
Definition sorted_range (nx : nat) (key : nat -> result (option Q))
  : result (list nat) :=
  keys <- mapM key (seq 0 nx) ;;
  Ok (map snd (sort_keyed float_ltb (combine keys (seq 0 nx)))).

(** [a[ordering]] for a list of positions. *)
Definition take {A : Type} (a : list A) (ordering : list nat) : result (list A) :=
  mapM (fun i => getitem a (Z.of_nat i)) ordering.

Section Eig.

(** [scipy.linalg.eig(op, eye)]: the eigenvalues and the matrix whose
    columns are the eigenvectors, or an exception. *)
Variable eig : cmatrix -> cmatrix -> result (list eigenvalue * cmatrix).

(** [numpy.sqrt] on the number of grid points. *)
Variable sqrt : nat -> Q.

(** [myeig(op, eye)] *)
Definition myeig (op eye : cmatrix) : result (list eigenvalue * cmatrix) :=
  let nx := length op in
  ev <- eig op eye ;;
  let eigvals := fst ev in
  let eigvecs := snd ev in
  ordering <- sorted_range nx (fun i => getitem (map np_real eigvals) (Z.of_nat i)) ;;
  eigvals' <- take eigvals ordering ;;
  columns <- mapM (fun row => take row ordering) eigvecs ;;
  Ok (eigvals', map (map (cscale (sqrt nx))) columns).

End Eig.

(** ** [discretise] of the Orr-Sommerfeld notebook (src/unnamed/part_005) *)

Module OrrSommerfeld.

(** [discretise(xa, xb, nx)]: no [bcs], the one-sided rows are always
    written. *)
Definition discretise (xa xb : Q) (nx : Z) : result grid :=
  xs <- linspace xa xb nx ;;
  x1 <- getitem xs 1 ;;
  x0 <- getitem xs 0 ;;
  let dx := x1 - x0 in
  let eye := np_eye (Z.to_nat nx) in
  let ddx := mdiv (msub (np_roll eye 1) (np_roll eye (-1))) (2 * dx) in
  let d2dx2 :=
    mdiv (madd (msub (np_roll eye 1) (mscale 2 eye)) (np_roll eye (-1)))
         (dx * dx) in
  dd <- one_sided dx ddx d2dx2 ;;
  Ok (Grid xs dx eye (fst dd) (snd dd)).

End OrrSommerfeld.

(** ** The transition functions of the demos (src/unnamed/part_003) *)

(** [d[k] = v]: a key already present keeps its place and takes the new
    value, a new key goes to the end. *)
Fixpoint dict_set {K V : Type} (eqb : K -> K -> bool) (d : dict K V)
         (k : K) (v : V) : dict K V :=
  match d with
  | [] => [(k, v)]
  | (k', v') :: d' =>
      if eqb k' k then (k', v) :: d' else (k', v') :: dict_set eqb d' k v
  end.

(** A dict display [{k1: v1, k2: v2, ...}]: the items are stored from
    left to right. *)
Definition dict_of {K V : Type} (eqb : K -> K -> bool) (items : list (K * V))
  : dict K V :=
  fold_left (fun d kv => dict_set eqb d (fst kv) (snd kv)) items [].

(** The state of the queueing process: [(todo, inprog, done)]. *)
Definition queue_state : Type := (Z * Z * Z)%type.

Definition queue_eqb (a b : queue_state) : bool :=
  let '(a1, a2, a3) := a in
  let '(b1, b2, b3) := b in
  (a1 =? b1)%Z && (a2 =? b2)%Z && (a3 =? b3)%Z.

(** [transition_fun] of [queueing_process(in_rate, out_rate, n_servers)] *)
Definition queueing_transition_fun (in_rate out_rate : Q) (n_servers : Z)
           (_ : Q) (s : queue_state) : dict queue_state Q :=
  let '(todo, inprog, done) := s in
  let outcomes := [] in
  let outcomes :=
    if (inprog =? n_servers)%Z
    then dict_set queue_eqb outcomes ((todo + 1)%Z, inprog, done) in_rate
    else dict_set queue_eqb outcomes (todo, (inprog + 1)%Z, done) in_rate in
  let outcomes :=
    if (0 <? todo)%Z
    then dict_set queue_eqb outcomes ((todo - 1)%Z, inprog, (done + 1)%Z)
                  (out_rate * inject_Z inprog)
    else dict_set queue_eqb outcomes (0%Z, (inprog - 1)%Z, (done + 1)%Z)
                  (out_rate * inject_Z inprog) in
  outcomes.

(** [transition_fun] of [immigration_death_demo], with its [args]:
    [{s + 1: l_1, s + 2: l_2, s - 1: beta * s}] *)
Definition immigration_death (l_1 l_2 beta : Q) (_ : Q) (s : Z) : dict Z Q :=
  dict_of Z.eqb
          [((s + 1)%Z, l_1); ((s + 2)%Z, l_2); ((s - 1)%Z, beta * inject_Z s)].

(** [transition_fun] of [immigration_2_or_3_death_demo]:
    [{s + 2: l_2, s + 3: l_3, s - 1: beta * s}] *)
Definition immigration_2_or_3_death (l_2 l_3 beta : Q) (_ : Q) (s : Z)
  : dict Z Q :=
  dict_of Z.eqb
          [((s + 2)%Z, l_2); ((s + 3)%Z, l_3); ((s - 1)%Z, beta * inject_Z s)].

(** [transition_fun] of [immigration_nonlinear_death_demo], with
    [f(s) = s * (s - 1)]: [{s + 1: r, s - 1: f(s)}] *)
Definition immigration_nonlinear_death (r : Q) (_ : Q) (s : Z) : dict Z Q :=
  dict_of Z.eqb [((s + 1)%Z, r); ((s - 1)%Z, inject_Z (s * (s - 1)))].


(** The state of the lattice oscillator: [(x, y)]. *)
Definition point : Type := (Z * Z)%type.

Definition point_eqb (a b : point) : bool :=
  (fst a =? fst b)%Z && (snd a =? snd b)%Z.

(** [sho_transition_fun(t, s)]:
    [{(x + 1, y): y, (x - 1, y): -y, (x, y + 1): -x, (x, y - 1): x}] *)
Definition sho_transition_fun (_ : Q) (s : point) : dict point Q :=
  let '(x, y) := s in
  dict_of point_eqb
          [((x + 1, y)%Z, inject_Z y); ((x - 1, y)%Z, inject_Z (- y));
           ((x, y + 1)%Z, inject_Z (- x)); ((x, y - 1)%Z, inject_Z x)].

(** ** Padding a matrix (src/unnamed/part_005) *)

(** [np.zeros([r, c])] *)
Definition np_zeros (r c : nat) : matrix := repeat (repeat 0 c) r.

(** One row of blocks of [np.block]: three blocks with as many rows each,
    side by side. *)
Definition hstack3 (a b c : matrix) : matrix :=
  map2 (@app Q) (map2 (@app Q) a b) c.

(** [augment(mat, pad)]: [mat] in the middle of a frame of zeros, [pad]
    wide.  [np.zeros] raises [ValueError] for a negative [pad], and
    [np.block] raises it when the three rows of blocks differ in width,
    which they do unless [mat] has as many columns as rows.  (A matrix
    with no rows stands for the 0 by 0 matrix.) *)
Definition augment (mat : matrix) (pad : Z) : result matrix :=
  let size := length mat in
  if (pad <? 0)%Z then Raise ValueError
  else if forallb (fun row => (length row =? size)%nat) mat then
    let p := Z.to_nat pad in
    Ok (hstack3 (np_zeros p p) (np_zeros p size) (np_zeros p p)
        ++ hstack3 (np_zeros size p) mat (np_zeros size p)
        ++ hstack3 (np_zeros p p) (np_zeros p size) (np_zeros p p))
  else Raise ValueError.

(** ** Folding a harmonic into one octave (src/unnamed/part_006) *)

(** [base = 207] *)
Definition base : Q := 207.

(** [while mode > 4: mode /= 2]; [None] when [fuel] passes of the loop do
    not finish it. *)
Fixpoint halve_above_4 (fuel : nat) (mode : Q) : option Q :=
  match fuel with
  | O => None
  | S fuel' =>
      if Qltb 4 mode then halve_above_4 fuel' (mode / 2) else Some mode
  end.

(** [jifreq(mode)] *)
Definition jifreq (fuel : nat) (mode : Q) : option Q :=
  match halve_above_4 fuel mode with
  | Some m => Some (base * m)
  | None => None
  end.

(** ** Gradient descent (src/unnamed/part_002) *)

Section GradientDescent.

(** The function to minimise and its gradient, on points given as
    one-dimensional arrays. *)
Variable f : list Q -> Q.
Variable gradf : list Q -> list Q.

(** [x_new = x_prev - rate * gradf(x_prev)], as far as
    [np.append(guesses, [x_new], axis=0)] accepts it: numpy stretches a
    gradient of length 1 over [x_prev], and a gradient of any other
    length than that of [x_prev] ends in [ValueError], from the
    subtraction or from [np.append]. *)
Definition descend (rate : Q) (x_prev : list Q) : result (list Q) :=
  let g := gradf x_prev in
  if (length g =? length x_prev)%nat
  then Ok (map2 (fun a b => a - rate * b) x_prev g)
  else match g with
       | [b] => Ok (map (fun a => a - rate * b) x_prev)
       | _ => Raise ValueError
       end.

(** The test of the loop:
    [(min_steps > len(guesses) or abs(fs[-1] - fs[-2]) > abstol)
     and len(guesses) < max_steps]; [or] evaluates its right side only
    when the left side is false. *)
Definition keep_going (abstol : Q) (min_steps max_steps : Z)
           (guesses : list (list Q)) (fs : list Q) : result bool :=
  more <- (if (Z.of_nat (length guesses) <? min_steps)%Z then Ok true
           else
             f1 <- getitem fs (-1) ;;
             f2 <- getitem fs (-2) ;;
             Ok (Qltb abstol (Qabs (f1 - f2)))) ;;
  Ok (more && (Z.of_nat (length guesses) <? max_steps)%Z).

(** The loop; [None] when [fuel] passes do not finish it. *)
Fixpoint descent_loop (fuel : nat) (rate abstol : Q) (min_steps max_steps : Z)
         (guesses : list (list Q)) (fs : list Q)
  : option (result (list (list Q) * list Q)) :=
  match fuel with
  | O => None
  | S fuel' =>
      match keep_going abstol min_steps max_steps guesses fs with
      | Raise e => Some (Raise e)
      | Ok false => Some (Ok (guesses, fs))
      | Ok true =>
          match (x_prev <- getitem guesses (-1) ;; descend rate x_prev) with
          | Raise e => Some (Raise e)
          | Ok x_new =>
              descent_loop fuel' rate abstol min_steps max_steps
                           (guesses ++ [x_new]) (fs ++ [f x_new])
          end
      end
  end.

(** [gradient_descent(f, gradf, x0, rate, abstol, min_steps, max_steps)] *)
Definition gradient_descent (fuel : nat) (x0 : list Q) (rate abstol : Q)
           (min_steps max_steps : Z)
  : option (result (list (list Q) * list Q)) :=
  descent_loop fuel rate abstol min_steps max_steps [x0] [f x0].

End GradientDescent.

(** ** Differentiating an array (src/unnamed/part_002) *)

Module Variations.

(** The branch [order == 1] of [ddx]: the one-sided differences
    [-0.5*ys[2] + 2*ys[1] - 1.5*ys[0]] and
    [0.5*ys[-3] - 2*ys[-2] + 1.5*ys[-1]] at the two ends, the central
    differences [(ys[2:] - ys[:-2]) / 2] between them, all divided by
    [dx]. *)
Definition first_order (ys : list Q) (dx : Q) : result (list Q) :=
  y2 <- getitem ys 2 ;;
  y1 <- getitem ys 1 ;;
  y0 <- getitem ys 0 ;;
  let central :=
    map (fun d => d / 2)
        (map2 Qminus (skipn 2 ys) (firstn (length ys - 2) ys)) in
  ym3 <- getitem ys (-3) ;;
  ym2 <- getitem ys (-2) ;;
  ym1 <- getitem ys (-1) ;;
  Ok (map (fun v => v / dx)
          ([-0.5 * y2 + 2 * y1 - 1.5 * y0]
             ++ central
             ++ [0.5 * ym3 - 2 * ym2 + 1.5 * ym1])).

(** [ddx(ys, dx, order)]: for an [order] other than 1,
    [ddx(ddx(ys, dx, order - 1), dx)].  The fuel bounds the depth of the
    recursion, and [None] is a recursion cut off at that depth. *)
Fixpoint ddx (fuel : nat) (ys : list Q) (dx : Q) (order : Z)
  : option (result (list Q)) :=
  match fuel with
  | O => None
  | S fuel' =>
      if (order =? 1)%Z then Some (first_order ys dx)
      else
        match ddx fuel' ys dx (order - 1) with
        | None => None
        | Some (Raise e) => Some (Raise e)
        | Some (Ok inner) => ddx fuel' inner dx 1
        end
  end.

End Variations.

(** ** The transition functions and inputs used in the examples *)

(** Pure decay, [lambda t, state: {state - 1: state}], on integer states. *)
Definition decay (_ : Q) (state : Z) : dict Z Q :=
  [((state - 1)%Z, inject_Z state)].

(** Two candidate states, the second with a rate twice a ceiling of 10. *)
Definition two_rates (_ : Q) (_ : Z) : dict Z Q := [(1%Z, 1); (2%Z, 20)].

(** Growth, [lambda t, state: {state + 1: 6 * state}]. *)
Definition growth (_ : Q) (state : Z) : dict Z Q :=
  [((state + 1)%Z, 6 * inject_Z state)].

(** An eigensolver answer for the 4 by 4 problem [diag(3, 1, 2, 1) v =
    lambda v]: the eigenvalues in the order of the diagonal and the unit
    vectors as columns. *)
Definition diag4 : cmatrix :=
  [[(3, 0); (0, 0); (0, 0); (0, 0)];
   [(0, 0); (1, 0); (0, 0); (0, 0)];
   [(0, 0); (0, 0); (2, 0); (0, 0)];
   [(0, 0); (0, 0); (0, 0); (1, 0)]].

Definition eye4 : cmatrix :=
  [[(1, 0); (0, 0); (0, 0); (0, 0)];
   [(0, 0); (1, 0); (0, 0); (0, 0)];
   [(0, 0); (0, 0); (1, 0); (0, 0)];
   [(0, 0); (0, 0); (0, 0); (1, 0)]].

Definition eig4 (_ _ : cmatrix) : result (list eigenvalue * cmatrix) :=
  Ok ([Value (3, 0); Value (1, 0); Value (2, 0); Value (1, 0)], eye4).

(** An eigensolver answer for the singular 3 by 3 pencil
    [diag(2, 0, 1) v = lambda diag(1, 0, 1) v]: the eigenvalue of the
    middle direction is [0/0], NaN. *)
Definition pencil3_left : cmatrix :=
  [[(2, 0); (0, 0); (0, 0)];
   [(0, 0); (0, 0); (0, 0)];
   [(0, 0); (0, 0); (1, 0)]].

Definition pencil3_right : cmatrix :=
  [[(1, 0); (0, 0); (0, 0)];
   [(0, 0); (0, 0); (0, 0)];
   [(0, 0); (0, 0); (1, 0)]].

Definition eig_nan (_ _ : cmatrix) : result (list eigenvalue * cmatrix) :=
  Ok ([Value (2, 0); NaN; Value (1, 0)],
      [[(1, 0); (0, 0); (0, 0)];
       [(0, 0); (1, 0); (0, 0)];
       [(0, 0); (0, 0); (1, 0)]]).

(** A square root that is exact on the perfect squares. *)
Definition exact_sqrt (n : nat) : Q := inject_Z (Z.sqrt (Z.of_nat n)).

(** A generator whose variates are all 1. *)
Definition ones : Rng := fun _ => 1.

(** A generator that starts with the given variates and goes on with 1. *)
Definition draws (l : list Q) : Rng := fun n => nth n l 1.

(** * Properties *)

(** ** Comparisons and the race *)

Lemma Qltb_true (x y : Q) : Qltb x y = true <-> x < y.
Proof.
  unfold Qltb. rewrite negb_true_iff.
  split; intro H.
  - apply Qnot_le_lt. intro Hle. apply Qle_bool_iff in Hle. congruence.
  - destruct (Qle_bool y x) eqn:E; [|reflexivity].
    apply Qle_bool_iff in E. exfalso. exact (Qlt_not_le _ _ H E).
Qed.

Lemma Qltb_false (x y : Q) : Qltb x y = false <-> y <= x.
Proof.
  unfold Qltb. rewrite negb_false_iff. apply Qle_bool_iff.
Qed.

Lemma times_to_move_fst {State : Type} (cands : dict State Q) :
  forall g, fst (times_to_move cands g) = waiting_times cands g.
Proof.
  unfold waiting_times.
  induction cands as [|[k r] rest IH]; intro g; [reflexivity|].
  cbn [times_to_move exponential length].
  specialize (IH (fun n => g (S n))).
  destruct (times_to_move rest (fun n => g (S n))) as [m g2].
  cbn [fst] in *. rewrite IH.
  cbn [seq map combine fst snd].
  rewrite <- seq_shift, map_map. reflexivity.
Qed.

Lemma times_to_move_snd {State : Type} (cands : dict State Q) :
  forall g n, snd (times_to_move cands g) n = g (length cands + n)%nat.
Proof.
  induction cands as [|[k r] rest IH]; intros g n; [reflexivity|].
  cbn [times_to_move exponential length].
  specialize (IH (fun n => g (S n)) n).
  destruct (times_to_move rest (fun n => g (S n))) as [m g2].
  cbn [snd] in *. rewrite IH. reflexivity.
Qed.

Lemma waiting_times_length {State : Type} (cands : dict State Q) (g : Rng) :
  length (waiting_times cands g) = length cands.
Proof.
  unfold waiting_times.
  rewrite length_map, length_combine, length_map, length_seq.
  apply Nat.min_id.
Qed.

(** A sampled waiting time is positive when the rates and the variates
    are. *)
Lemma waiting_times_positive {State : Type} (cands : dict State Q) :
  forall g,
    (forall n, 0 < g n) ->
    (forall k r, In (k, r) cands -> 0 < r) ->
    forall k x, In (k, x) (waiting_times cands g) -> 0 < x.
Proof.
  intros g Hg Hr k x Hin.
  unfold waiting_times in Hin.
  apply in_map_iff in Hin. destruct Hin as [[u [k' r]] [Heq Hin]].
  cbn [fst snd] in Heq. inversion Heq; subst; clear Heq.
  pose proof (in_combine_l _ _ _ _ Hin) as Hu.
  pose proof (in_combine_r _ _ _ _ Hin) as Hc.
  apply in_map_iff in Hu. destruct Hu as [n [Hn _]]. subst u.
  apply Qmult_lt_0_compat; [|apply Hg].
  unfold Qdiv. rewrite Qmult_1_l.
  apply Qinv_lt_0_compat. exact (Hr _ _ Hc).
Qed.

Lemma min_from_spec {State : Type} (rest : dict State Q) :
  forall best,
    In (min_from best rest) (best :: rest) /\
    forall c, In c (best :: rest) -> snd (min_from best rest) <= snd c.
Proof.
  induction rest as [|c rest IH]; intro best; cbn [min_from].
  - split; [left; reflexivity|].
    intros c [<-|[]]. apply Qle_refl.
  - destruct (Qltb (snd c) (snd best)) eqn:E.
    + destruct (IH c) as [Hin Hmin]. split.
      * right. exact Hin.
      * intros c' [<-|Hc'].
        -- apply Qltb_true in E.
           apply Qle_trans with (snd c); [|apply Qlt_le_weak; exact E].
           apply Hmin. left; reflexivity.
        -- apply Hmin. exact Hc'.
    + destruct (IH best) as [Hin Hmin]. split.
      * destruct Hin as [Hin|Hin]; [left; exact Hin|right; right; exact Hin].
      * intros c' [<-|[<-|Hc']].
        -- apply Hmin. left; reflexivity.
        -- apply Qltb_false in E.
           apply Qle_trans with (snd best); [|exact E].
           apply Hmin. left; reflexivity.
        -- apply Hmin. right. exact Hc'.
Qed.

Lemma py_min_wins {State : Type} (d : dict State Q) (k : State) (x : Q) :
  py_min d = Ok (k, x) -> wins k x d.
Proof.
  destruct d as [|c rest]; [discriminate|].
  cbn [py_min]. intro H. inversion H as [Hm]; clear H.
  destruct (min_from_spec rest c) as [Hin Hmin].
  rewrite Hm in Hin, Hmin. cbn [snd] in Hmin.
  split; [exact Hin|].
  intros k' x' Hin'. exact (Hmin _ Hin').
Qed.

Lemma py_min_nonempty {State : Type} (d : dict State Q) :
  d <> [] -> exists k x, py_min d = Ok (k, x).
Proof.
  destruct d as [|c rest]; [congruence|]. intros _.
  cbn [py_min]. destruct (min_from c rest) as [k x]. eauto.
Qed.

Lemma positive_rates_In {State : Type} (d : dict State Q) (k : State) (r : Q) :
  In (k, r) (positive_rates d) <-> In (k, r) d /\ 0 < r.
Proof.
  unfold positive_rates. rewrite filter_In. cbn [snd].
  rewrite Qltb_true. reflexivity.
Qed.

Lemma below_maxrate_In {State : Type} (maxrate : Q) (d : dict State Q)
      (k : State) (r : Q) :
  In (k, r) (below_maxrate maxrate d) <-> In (k, r) d /\ r < maxrate.
Proof.
  unfold below_maxrate. rewrite filter_In. cbn [snd].
  rewrite Qltb_true. reflexivity.
Qed.

(** ** The loop of [evolution] with the rate ceiling *)

Lemma CTMP_move_Continue {State : Type} (c : dict State Q)
      (v v' : CTMP.vars State) :
  CTMP.move c v = CTMP.Continue v' ->
  exists x,
    wins (CTMP.state v') x (waiting_times c (CTMP.rng v)) /\
    v' = CTMP.Vars (CTMP.t v + x) (CTMP.state v')
                   (CTMP.ts v ++ [CTMP.t v + x])
                   (CTMP.history v ++ [CTMP.state v'])
                   (snd (times_to_move c (CTMP.rng v))) (CTMP.warned v).
Proof.
  unfold CTMP.move.
  pose proof (times_to_move_fst c (CTMP.rng v)) as Hfst.
  destruct (times_to_move c (CTMP.rng v)) as [times g'].
  cbn [fst snd] in *. subst times.
  destruct (py_min (waiting_times c (CTMP.rng v))) as [[k x]|e] eqn:E;
    [|discriminate].
  intro H. inversion H; subst; clear H. cbn [CTMP.state].
  exists x. split; [|reflexivity].
  apply py_min_wins. exact E.
Qed.

Lemma CTMP_move_nonempty {State : Type} (c : dict State Q) (v : CTMP.vars State) :
  c <> [] -> exists v', CTMP.move c v = CTMP.Continue v'.
Proof.
  intro Hc. unfold CTMP.move.
  pose proof (times_to_move_fst c (CTMP.rng v)) as Hfst.
  destruct (times_to_move c (CTMP.rng v)) as [times g'].
  cbn [fst] in Hfst. subst times.
  destruct (py_min_nonempty (waiting_times c (CTMP.rng v))) as [k [x E]].
  - intro Hnil. apply (f_equal (@length _)) in Hnil.
    rewrite waiting_times_length in Hnil.
    destruct c; [congruence|discriminate].
  - rewrite E. eauto.
Qed.

(** The body in terms of the candidates of the race. *)
Lemma CTMP_body_unfold {State : Type} (fun_ : Q -> State -> dict State Q)
      (maxrate : Q) (v : CTMP.vars State) :
  CTMP.body fun_ maxrate v =
  match positive_rates (fun_ (CTMP.t v) (CTMP.state v)) with
  | [] => CTMP.Break v
  | _ :: _ =>
      match CTMP.candidates fun_ maxrate v with
      | [] =>
          CTMP.Break
            (CTMP.Vars (CTMP.t v) (CTMP.state v) (CTMP.ts v) (CTMP.history v)
                       (CTMP.rng v)
                       (CTMP.warned v ++ [CTMP.MaxRateExceeded maxrate (CTMP.t v)]))
      | _ :: _ => CTMP.move (CTMP.candidates fun_ maxrate v) v
      end
  end.
Proof.
  unfold CTMP.body, CTMP.candidates.
  destruct (positive_rates (fun_ (CTMP.t v) (CTMP.state v))) as [|c rest];
    [reflexivity|].
  destruct (CTMP.truthy maxrate); [|reflexivity].
  destruct (below_maxrate maxrate (c :: rest)); reflexivity.
Qed.

Lemma CTMP_body_Continue {State : Type} (fun_ : Q -> State -> dict State Q)
      (maxrate : Q) (v v' : CTMP.vars State) :
  CTMP.body fun_ maxrate v = CTMP.Continue v' ->
  exists x,
    wins (CTMP.state v') x
         (waiting_times (CTMP.candidates fun_ maxrate v) (CTMP.rng v)) /\
    v' = CTMP.moved fun_ maxrate v (CTMP.state v') x.
Proof.
  rewrite CTMP_body_unfold.
  destruct (positive_rates (fun_ (CTMP.t v) (CTMP.state v))); [discriminate|].
  destruct (CTMP.candidates fun_ maxrate v) as [|c rest] eqn:E; [discriminate|].
  intro H. apply CTMP_move_Continue in H. destruct H as [x [Hw Hv]].
  exists x. split; [exact Hw|].
  unfold CTMP.moved. rewrite E. exact Hv.
Qed.

Lemma CTMP_body_progress {State : Type} (fun_ : Q -> State -> dict State Q)
      (maxrate : Q) (v : CTMP.vars State) :
  CTMP.candidates fun_ maxrate v <> [] ->
  exists v', CTMP.body fun_ maxrate v = CTMP.Continue v'.
Proof.
  intro Hc. rewrite CTMP_body_unfold.
  destruct (positive_rates (fun_ (CTMP.t v) (CTMP.state v))) as [|p ps] eqn:Ep.
  - exfalso. apply Hc. unfold CTMP.candidates. rewrite Ep.
    destruct (CTMP.truthy maxrate); reflexivity.
  - destruct (CTMP.candidates fun_ maxrate v) as [|c rest] eqn:E; [congruence|].
    apply CTMP_move_nonempty. discriminate.
Qed.

Lemma CTMP_body_no_Throw {State : Type} (fun_ : Q -> State -> dict State Q)
      (maxrate : Q) (v v' : CTMP.vars State) (e : exn) :
  CTMP.body fun_ maxrate v <> CTMP.Throw e v'.
Proof.
  rewrite CTMP_body_unfold.
  destruct (positive_rates (fun_ (CTMP.t v) (CTMP.state v))); [discriminate|].
  destruct (CTMP.candidates fun_ maxrate v) as [|c rest] eqn:E; [discriminate|].
  destruct (CTMP_move_nonempty (c :: rest) v) as [v1 H1]; [discriminate|].
  rewrite H1. discriminate.
Qed.

Lemma CTMP_candidates_In {State : Type} (fun_ : Q -> State -> dict State Q)
      (maxrate : Q) (v : CTMP.vars State) (k : State) (r : Q) :
  In (k, r) (CTMP.candidates fun_ maxrate v) <->
  In (k, r) (fun_ (CTMP.t v) (CTMP.state v)) /\ 0 < r /\
  (CTMP.truthy maxrate = true -> r < maxrate).
Proof.
  unfold CTMP.candidates.
  destruct (CTMP.truthy maxrate).
  - rewrite below_maxrate_In, positive_rates_In. tauto.
  - rewrite positive_rates_In. split.
    + intros [H1 H2]. repeat split; try assumption. discriminate.
    + tauto.
Qed.

(** The waiting time of a pass is positive when the variates are. *)
Lemma CTMP_elapsed_positive {State : Type} (fun_ : Q -> State -> dict State Q)
      (maxrate : Q) (v : CTMP.vars State) (k : State) (x : Q) :
  (forall n, 0 < CTMP.rng v n) ->
  wins k x (waiting_times (CTMP.candidates fun_ maxrate v) (CTMP.rng v)) ->
  0 < x.
Proof.
  intros Hg [Hin _].
  apply (waiting_times_positive (CTMP.candidates fun_ maxrate v) (CTMP.rng v) Hg)
    with (k := k); [|exact Hin].
  intros k' r Hc. apply CTMP_candidates_In in Hc. tauto.
Qed.

Lemma while_reaches_CTMP {State : Type} (fun_ : Q -> State -> dict State Q)
      (maxrate tmax : Q) (n : nat) (v v' : CTMP.vars State) :
  CTMP.reaches fun_ maxrate tmax n v v' ->
  forall fuel,
    CTMP.while fun_ maxrate (n + fuel) tmax v = CTMP.while fun_ maxrate fuel tmax v'.
Proof.
  induction 1 as [v|n v v1 v' Ht Hb _ IH]; intro fuel; [reflexivity|].
  cbn [Nat.add CTMP.while]. rewrite Ht, Hb. apply IH.
Qed.

Lemma reaches_warned {State : Type} (fun_ : Q -> State -> dict State Q)
      (maxrate tmax : Q) (n : nat) (v v' : CTMP.vars State) :
  CTMP.reaches fun_ maxrate tmax n v v' -> CTMP.warned v' = CTMP.warned v.
Proof.
  induction 1 as [v|n v v1 v' _ Hb _ IH]; [reflexivity|].
  rewrite IH. apply CTMP_body_Continue in Hb.
  destruct Hb as [x [_ ->]]. reflexivity.
Qed.

Lemma StronglySorted_snoc (l : list Q) (a : Q) :
  StronglySorted Qlt l ->
  Forall (fun y => y < a) l ->
  StronglySorted Qlt (l ++ [a]).
Proof.
  induction 1 as [|y l Hs IH Hy]; intro Hall; cbn [app].
  - constructor; constructor.
  - inversion Hall as [|? ? Hya Hla]; subst.
    constructor; [apply IH; exact Hla|].
    apply Forall_app. split; [exact Hy|].
    constructor; [exact Hya|constructor].
Qed.

Lemma hd_error_snoc {A : Type} (l : list A) (a x : A) :
  hd_error l = Some x -> hd_error (l ++ [a]) = Some x.
Proof. destruct l; [discriminate|]. exact (fun H => H). Qed.

Lemma trajectory_inv_init {State : Type} (tmin : Q) (state0 : State) (g : Rng) :
  (forall n, 0 < g n) ->
  CTMP.trajectory_inv tmin state0 (CTMP.init tmin state0 g).
Proof.
  intro Hg. unfold CTMP.trajectory_inv, CTMP.init; cbn.
  repeat split; try assumption.
  - constructor; constructor.
  - constructor; [apply Qle_refl|constructor].
Qed.

Lemma trajectory_inv_Continue {State : Type} (fun_ : Q -> State -> dict State Q)
      (maxrate tmin : Q) (state0 : State) (v v' : CTMP.vars State) :
  CTMP.trajectory_inv tmin state0 v ->
  CTMP.body fun_ maxrate v = CTMP.Continue v' ->
  CTMP.trajectory_inv tmin state0 v'.
Proof.
  intros (Hts & Hh & Hlen & Hsort & Hle & Hg) Hb.
  apply CTMP_body_Continue in Hb. destruct Hb as [x [Hw ->]].
  pose proof (CTMP_elapsed_positive _ _ _ _ _ Hg Hw) as Hx.
  assert (Hlt : CTMP.t v < CTMP.t v + x).
  { rewrite <- (Qplus_0_r (CTMP.t v)) at 1.
    apply Qplus_lt_r. exact Hx. }
  unfold CTMP.trajectory_inv, CTMP.moved; cbn.
  repeat split.
  - apply hd_error_snoc. exact Hts.
  - apply hd_error_snoc. exact Hh.
  - rewrite !length_app. cbn. rewrite Hlen. reflexivity.
  - apply StronglySorted_snoc; [exact Hsort|].
    eapply Forall_impl; [|exact Hle].
    intros y Hy. cbn in Hy. eapply Qle_lt_trans; [exact Hy|exact Hlt].
  - apply Forall_app. split.
    + eapply Forall_impl; [|exact Hle].
      intros y Hy. cbn in Hy.
      eapply Qle_trans; [exact Hy|apply Qlt_le_weak; exact Hlt].
    + constructor; [apply Qle_refl|constructor].
  - intro n. rewrite times_to_move_snd. apply Hg.
Qed.

Lemma trajectory_inv_Break {State : Type} (fun_ : Q -> State -> dict State Q)
      (maxrate tmin : Q) (state0 : State) (v v' : CTMP.vars State) :
  CTMP.trajectory_inv tmin state0 v ->
  CTMP.body fun_ maxrate v = CTMP.Break v' ->
  CTMP.trajectory_inv tmin state0 v'.
Proof.
  intros Hinv. rewrite CTMP_body_unfold.
  destruct (positive_rates (fun_ (CTMP.t v) (CTMP.state v))).
  - intro H. inversion H; subst. exact Hinv.
  - destruct (CTMP.candidates fun_ maxrate v) as [|c rest] eqn:E.
    + intro H. inversion H; subst. exact Hinv.
    + destruct (CTMP_move_nonempty (c :: rest) v) as [v1 H1]; [discriminate|].
      rewrite H1. discriminate.
Qed.

Lemma trajectory_inv_while {State : Type} (fun_ : Q -> State -> dict State Q)
      (maxrate tmin tmax : Q) (state0 : State) (fuel : nat) :
  forall (v v' : CTMP.vars State),
    CTMP.trajectory_inv tmin state0 v ->
    CTMP.while fun_ maxrate fuel tmax v = Some (None, v') ->
    CTMP.trajectory_inv tmin state0 v'.
Proof.
  induction fuel as [|fuel IH]; intros v v' Hinv; cbn [CTMP.while];
    [discriminate|].
  destruct (Qltb (CTMP.t v) tmax).
  - destruct (CTMP.body fun_ maxrate v) as [v1|v1|e v1] eqn:Hb.
    + intro H. inversion H; subst.
      eapply trajectory_inv_Break; eassumption.
    + apply IH. eapply trajectory_inv_Continue; eassumption.
    + discriminate.
  - intro H. inversion H; subst. exact Hinv.
Qed.

(** The trajectory a run with the rate ceiling returns starts at
    [(tmin, state0)] and its times increase strictly, whenever the
    variates drawn are positive. *)
Lemma CTMP_evolution_trajectory {State : Type}
      (fun_ : Q -> State -> dict State Q) (maxrate : Q) (fuel : nat)
      (tmin tmax : Q) (state0 : State) (g : Rng)
      (ts : list Q) (history : list State) (w : list CTMP.warning) :
  (forall n, 0 < g n) ->
  CTMP.evolution fun_ maxrate fuel (tmin, tmax) state0 None g =
    Some (CTMP.Outcome (Ok (ts, history)) w) ->
  hd_error (combine ts history) = Some (tmin, state0) /\
  length ts = length history /\
  StronglySorted Qlt ts.
Proof.
  intros Hg. unfold CTMP.evolution.
  destruct (CTMP.while fun_ maxrate fuel tmax (CTMP.init tmin state0 g))
    as [[[e|] v]|] eqn:Hw; try discriminate.
  intro H. inversion H; subst; clear H.
  apply trajectory_inv_while with (tmin := tmin) (state0 := state0) in Hw;
    [|apply trajectory_inv_init; exact Hg].
  destruct Hw as (Hts & Hh & Hlen & Hsort & _ & _).
  repeat split; try assumption.
  destruct (CTMP.ts v); [discriminate|].
  destruct (CTMP.history v); [discriminate|].
  cbn in *. congruence.
Qed.

(** ** The rate ceiling *)

(** C8. When a ceiling is set ([maxrate] is not zero) and, after [n]
    passes of the loop, the time is still below [tmax], there are
    transitions with a positive rate and the rate of every one of them
    exceeds the ceiling, the run stops there: with any fuel above [n] the
    call returns, without an exception, the times and states recorded so
    far, and the one warning it issued is the ceiling warning for that
    time. *)
Theorem CTMP_maxrate_halt {State : Type}
        (fun_ : Q -> State -> dict State Q) (maxrate tmin tmax : Q)
        (state0 : State) (g : Rng) (n fuel : nat) (v : CTMP.vars State) :
  CTMP.reaches fun_ maxrate tmax n (CTMP.init tmin state0 g) v ->
  CTMP.t v < tmax ->
  ~ maxrate == 0 ->
  (exists k r, In (k, r) (fun_ (CTMP.t v) (CTMP.state v)) /\ 0 < r) ->
  (forall k r, In (k, r) (fun_ (CTMP.t v) (CTMP.state v)) ->
               0 < r -> maxrate < r) ->
  (n < fuel)%nat ->
  CTMP.evolution fun_ maxrate fuel (tmin, tmax) state0 None g =
    Some (CTMP.Outcome (Ok (CTMP.ts v, CTMP.history v))
                       [CTMP.MaxRateExceeded maxrate (CTMP.t v)]).
Proof.
  intros Hreach Ht Hmax [k [r [Hin Hr]]] Hall Hfuel.
  assert (Htruthy : CTMP.truthy maxrate = true).
  { unfold CTMP.truthy. apply negb_true_iff.
    destruct (Qeq_bool maxrate 0) eqn:E; [|reflexivity].
    apply Qeq_bool_iff in E. contradiction. }
  assert (Hcand : CTMP.candidates fun_ maxrate v = []).
  { destruct (CTMP.candidates fun_ maxrate v) as [|[k' r'] rest] eqn:E;
      [reflexivity|].
    assert (Hc : In (k', r') (CTMP.candidates fun_ maxrate v))
      by (rewrite E; left; reflexivity).
    apply CTMP_candidates_In in Hc. destruct Hc as (Hc1 & Hc2 & Hc3).
    exfalso. apply (Qlt_irrefl r').
    eapply Qlt_trans; [apply Hc3; exact Htruthy|apply (Hall k' r'); assumption]. }
  assert (Hbody : CTMP.body fun_ maxrate v =
                  CTMP.Break
                    (CTMP.Vars (CTMP.t v) (CTMP.state v) (CTMP.ts v)
                               (CTMP.history v) (CTMP.rng v)
                               (CTMP.warned v ++
                                  [CTMP.MaxRateExceeded maxrate (CTMP.t v)]))).
  { rewrite CTMP_body_unfold, Hcand.
    destruct (positive_rates (fun_ (CTMP.t v) (CTMP.state v))) eqn:Ep;
      [|reflexivity].
    exfalso.
    assert (Hp : In (k, r) (positive_rates (fun_ (CTMP.t v) (CTMP.state v))))
      by (apply positive_rates_In; split; assumption).
    rewrite Ep in Hp. exact Hp. }
  unfold CTMP.evolution.
  replace fuel with (n + S (fuel - S n))%nat by lia.
  rewrite (while_reaches_CTMP _ _ _ _ _ _ Hreach).
  cbn [CTMP.while].
  apply Qltb_true in Ht. rewrite Ht, Hbody. cbn.
  rewrite (reaches_warned _ _ _ _ _ _ Hreach). reflexivity.
Qed.

Lemma CTMP_maxrate_halt_witness :
  CTMP.evolution growth 10 2 (0, 5) 1%Z None ones =
  Some (CTMP.Outcome
          (Ok ([0; 0 + 1 / (6 * inject_Z 1) * 1], [1%Z; 2%Z]))
          [CTMP.MaxRateExceeded 10 (0 + 1 / (6 * inject_Z 1) * 1)]).
Proof.
  apply (CTMP_maxrate_halt growth 10 0 5 1%Z ones 1 2
           (CTMP.Vars (0 + 1 / (6 * inject_Z 1) * 1) 2%Z
                      [0; 0 + 1 / (6 * inject_Z 1) * 1] [1%Z; 2%Z] ones [])).
  - eapply CTMP.reaches_S; [reflexivity|reflexivity|apply CTMP.reaches_O].
  - reflexivity.
  - intro H. vm_compute in H. discriminate H.
  - exists 3%Z, (6 * inject_Z 2). split; [left; reflexivity|reflexivity].
  - intros k r [H|[]] _. inversion H; subst. reflexivity.
  - lia.
Defined.

Lemma NoDup_keys_unique {K V : Type} (d : dict K V) (k : K) (a b : V) :
  NoDup (map fst d) -> In (k, a) d -> In (k, b) d -> a = b.
Proof.
  induction d as [|[k' c] d IH]; intros Hnd Ha Hb; [destruct Ha|].
  cbn in Hnd. inversion Hnd as [|? ? Hnotin Hnd']; subst.
  destruct Ha as [Ha|Ha], Hb as [Hb|Hb].
  - congruence.
  - inversion Ha; subst. exfalso. apply Hnotin.
    apply in_map_iff. exists (k, b). split; [reflexivity|exact Hb].
  - inversion Hb; subst. exfalso. apply Hnotin.
    apply in_map_iff. exists (k, a). split; [reflexivity|exact Ha].
  - exact (IH Hnd' Ha Hb).
Qed.

Lemma waiting_times_keys {State : Type} (cands : dict State Q) (g : Rng)
      (k : State) (x : Q) :
  In (k, x) (waiting_times cands g) -> exists r, In (k, r) cands.
Proof.
  unfold waiting_times. intro Hin.
  apply in_map_iff in Hin. destruct Hin as [[u [k' r]] [Heq Hin]].
  cbn [fst snd] in Heq. inversion Heq; subst.
  exists r. exact (in_combine_r _ _ _ _ Hin).
Qed.

(** C10. With a positive [maxrate] and a transition map [fun_(t, state)]
    (a dict, so its keys are distinct): a pass of the loop that moves on
    has run the race among the positive rates below [maxrate] only, its
    new state is the winner of that race and is none of the states whose
    rate is [maxrate] or more; and the pass does move on whenever some
    positive rate is below [maxrate], whatever the other rates are. *)
Theorem CTMP_ceiling_filter {State : Type}
        (fun_ : Q -> State -> dict State Q) (maxrate : Q)
        (v : CTMP.vars State) :
  0 < maxrate ->
  NoDup (map fst (fun_ (CTMP.t v) (CTMP.state v))) ->
  (forall v',
      CTMP.body fun_ maxrate v = CTMP.Continue v' ->
      (exists x,
          wins (CTMP.state v') x
               (waiting_times
                  (below_maxrate maxrate
                     (positive_rates (fun_ (CTMP.t v) (CTMP.state v))))
                  (CTMP.rng v)) /\
          CTMP.t v' = CTMP.t v + x) /\
      (forall k r, In (k, r) (fun_ (CTMP.t v) (CTMP.state v)) ->
                   maxrate <= r -> CTMP.state v' <> k)) /\
  ((exists k r, In (k, r) (fun_ (CTMP.t v) (CTMP.state v)) /\
                0 < r /\ r < maxrate) ->
   exists v', CTMP.body fun_ maxrate v = CTMP.Continue v').
Proof.
  intros Hmax Hnd.
  assert (Htruthy : CTMP.truthy maxrate = true).
  { unfold CTMP.truthy. apply negb_true_iff.
    destruct (Qeq_bool maxrate 0) eqn:E; [|reflexivity].
    apply Qeq_bool_iff in E. rewrite E in Hmax.
    exfalso. exact (Qlt_irrefl _ Hmax). }
  assert (Hcand : CTMP.candidates fun_ maxrate v =
                  below_maxrate maxrate
                    (positive_rates (fun_ (CTMP.t v) (CTMP.state v)))).
  { unfold CTMP.candidates. rewrite Htruthy. reflexivity. }
  split.
  - intros v' Hb. apply CTMP_body_Continue in Hb.
    destruct Hb as [x [Hw Hv']]. rewrite Hcand in Hw.
    split.
    + exists x. split; [exact Hw|]. rewrite Hv'. reflexivity.
    + intros k r Hin Hr Heq.
      destruct Hw as [Hw _]. apply waiting_times_keys in Hw.
      destruct Hw as [r' Hr'].
      apply below_maxrate_In in Hr'. destruct Hr' as [Hr' Hlt].
      apply positive_rates_In in Hr'. destruct Hr' as [Hr' _].
      rewrite Heq in Hr'.
      rewrite (NoDup_keys_unique _ _ _ _ Hnd Hr' Hin) in Hlt.
      exact (Qlt_not_le _ _ Hlt Hr).
  - intros [k [r (Hin & Hpos & Hlt)]].
    apply CTMP_body_progress. rewrite Hcand. intro Hnil.
    assert (Hc : In (k, r) (below_maxrate maxrate
                              (positive_rates (fun_ (CTMP.t v) (CTMP.state v))))).
    { apply below_maxrate_In. split; [|exact Hlt].
      apply positive_rates_In. split; assumption. }
    rewrite Hnil in Hc. exact Hc.
Qed.

Lemma CTMP_ceiling_filter_witness :
  exists v',
    CTMP.body two_rates 10 (CTMP.init 0 0%Z ones) = CTMP.Continue v' /\
    CTMP.state v' <> 2%Z.
Proof.
  destruct (CTMP_ceiling_filter two_rates 10 (CTMP.init 0 0%Z ones))
    as [H1 H2].
  - reflexivity.
  - cbn. constructor.
    + intros [H|[]]. discriminate H.
    + constructor; [intros []|constructor].
  - destruct H2 as [v' Hv'].
    { exists 1%Z, 1. split; [left; reflexivity|]. split; reflexivity. }
    exists v'. split; [exact Hv'|].
    apply (proj2 (H1 v' Hv') 2%Z 20).
    + right. left. reflexivity.
    + intro H. vm_compute in H. discriminate H.
Defined.

(** ** The loop of the earlier [evolution] *)

Lemma CTMP0_body_Continue {State : Type} (fun_ : Q -> State -> dict State Q)
      (v v' : CTMP0.vars State) :
  CTMP0.body fun_ v = CTMP0.Continue v' ->
  exists x,
    wins (CTMP0.state v') x
         (waiting_times (positive_rates (fun_ (CTMP0.t v) (CTMP0.state v)))
                        (CTMP0.rng v)) /\
    v' = CTMP0.Vars (CTMP0.t v + x) (CTMP0.state v')
           (CTMP0.history v ++ [(CTMP0.t v + x, CTMP0.state v')])
           (snd (times_to_move
                   (positive_rates (fun_ (CTMP0.t v) (CTMP0.state v)))
                   (CTMP0.rng v))).
Proof.
  unfold CTMP0.body.
  set (c := positive_rates (fun_ (CTMP0.t v) (CTMP0.state v))).
  pose proof (times_to_move_fst c (CTMP0.rng v)) as Hfst.
  destruct c as [|p ps] eqn:Ec; [discriminate|]. rewrite <- Ec in *.
  destruct (times_to_move c (CTMP0.rng v)) as [times g'].
  cbn [fst snd] in *. subst times.
  destruct (py_min (waiting_times c (CTMP0.rng v))) as [[k x]|e] eqn:E;
    [|discriminate].
  intro H. inversion H; subst v'; clear H. cbn [CTMP0.state].
  exists x. split; [|reflexivity].
  apply py_min_wins. exact E.
Qed.

(** ** The race of a step *)

(** C2, the claim as it stands, fails on the version with the ceiling:
    from state 0 with the rates [{1: 1, 2: 20}], the ceiling 10 and all
    variates 1, the race of the claim gives state 1 the waiting time 1
    and state 2 the waiting time 1/20, so state 2 wins; the code drops
    state 2 before the race and moves to state 1 at time 1. *)
Lemma CTMP_race_counterexample :
  exists v',
    CTMP.body two_rates 10 (CTMP.init 0 0%Z ones) = CTMP.Continue v' /\
    ~ exists x,
        wins (CTMP.state v') x
             (waiting_times (positive_rates (two_rates 0 0%Z)) ones) /\
        CTMP.t v' = 0 + x.
Proof.
  eexists. split; [reflexivity|].
  cbn [CTMP.state CTMP.t].
  intros [x [[Hin Hmin] _]].
  assert (Hx : x = 1 / 1 * 1).
  { cbn in Hin. destruct Hin as [H|[H|[]]]; inversion H. reflexivity. }
  subst x.
  specialize (Hmin 2%Z (1 / 20 * 1)).
  assert (Hle : 1 / 1 * 1 <= 1 / 20 * 1).
  { apply Hmin. cbn. right. left. reflexivity. }
  vm_compute in Hle. apply Hle. reflexivity.
Qed.

(** C2, amended.  A pass of the loop that moves on has drawn one variate
    for each candidate, in the iteration order of the map, and given the
    candidate the waiting time [1/rate] times its variate; the new state
    is a candidate with the smallest waiting time, the time advances by
    exactly that waiting time, and the pair is appended to the
    trajectory.  The candidates are the transitions with a positive rate;
    in the version with the ceiling, when [maxrate] is not zero, only
    those of them whose rate is below [maxrate]. *)
Theorem evolution_step_race :
  (forall (State : Type) (fun_ : Q -> State -> dict State Q)
          (v v' : CTMP0.vars State),
      CTMP0.body fun_ v = CTMP0.Continue v' ->
      exists x,
        wins (CTMP0.state v') x
             (waiting_times (positive_rates (fun_ (CTMP0.t v) (CTMP0.state v)))
                            (CTMP0.rng v)) /\
        CTMP0.t v' = CTMP0.t v + x /\
        CTMP0.history v' = CTMP0.history v ++ [(CTMP0.t v', CTMP0.state v')] /\
        forall n,
          CTMP0.rng v' n =
          CTMP0.rng v
            (length (positive_rates (fun_ (CTMP0.t v) (CTMP0.state v))) + n)%nat) /\
  (forall (State : Type) (fun_ : Q -> State -> dict State Q) (maxrate : Q)
          (v v' : CTMP.vars State),
      CTMP.body fun_ maxrate v = CTMP.Continue v' ->
      exists x,
        wins (CTMP.state v') x
             (waiting_times
                (if CTMP.truthy maxrate
                 then below_maxrate maxrate
                        (positive_rates (fun_ (CTMP.t v) (CTMP.state v)))
                 else positive_rates (fun_ (CTMP.t v) (CTMP.state v)))
                (CTMP.rng v)) /\
        CTMP.t v' = CTMP.t v + x /\
        CTMP.ts v' = CTMP.ts v ++ [CTMP.t v'] /\
        CTMP.history v' = CTMP.history v ++ [CTMP.state v'] /\
        forall n,
          CTMP.rng v' n =
          CTMP.rng v
            (length (if CTMP.truthy maxrate
                     then below_maxrate maxrate
                            (positive_rates (fun_ (CTMP.t v) (CTMP.state v)))
                     else positive_rates (fun_ (CTMP.t v) (CTMP.state v)))
             + n)%nat).
Proof.
  split.
  - intros State fun_ v v' Hb.
    apply CTMP0_body_Continue in Hb. destruct Hb as [x [Hw Hv']].
    exists x. split; [exact Hw|].
    pose proof (f_equal CTMP0.t Hv') as Ht.
    pose proof (f_equal CTMP0.history Hv') as Hh.
    pose proof (f_equal CTMP0.rng Hv') as Hr.
    cbn [CTMP0.t CTMP0.history CTMP0.rng] in Ht, Hh, Hr.
    split; [exact Ht|]. split; [rewrite Hh, Ht; reflexivity|].
    intro n. rewrite Hr. apply times_to_move_snd.
  - intros State fun_ maxrate v v' Hb.
    apply CTMP_body_Continue in Hb. destruct Hb as [x [Hw Hv']].
    exists x. split; [exact Hw|].
    pose proof (f_equal CTMP.t Hv') as Ht.
    pose proof (f_equal CTMP.ts Hv') as Hts.
    pose proof (f_equal CTMP.history Hv') as Hh.
    pose proof (f_equal CTMP.rng Hv') as Hr.
    cbn [CTMP.moved CTMP.t CTMP.ts CTMP.history CTMP.rng] in Ht, Hts, Hh, Hr.
    split; [exact Ht|]. split; [rewrite Hts, Ht; reflexivity|].
    split; [exact Hh|].
    intro n. rewrite Hr. apply (times_to_move_snd (CTMP.candidates fun_ maxrate v)).
Qed.

Lemma evolution_step_race_witness :
  (exists x,
      wins 2%Z x (waiting_times (positive_rates (two_rates 0 0%Z)) ones) /\
      0 + 1 / 20 * 1 = 0 + x) /\
  (exists x,
      wins 1%Z x
           (waiting_times (below_maxrate 10 (positive_rates (two_rates 0 0%Z)))
                          ones) /\
      0 + 1 / 1 * 1 = 0 + x).
Proof.
  split.
  - destruct (proj1 evolution_step_race Z two_rates
                (CTMP0.init 0 0%Z ones)
                (CTMP0.Vars (0 + 1 / 20 * 1) 2%Z
                            [(0, 0%Z); (0 + 1 / 20 * 1, 2%Z)] ones)
                eq_refl) as [x (Hw & Ht & _)].
    exists x. split; [exact Hw|exact Ht].
  - destruct (proj2 evolution_step_race Z two_rates 10
                (CTMP.init 0 0%Z ones)
                (CTMP.Vars (0 + 1 / 1 * 1) 1%Z [0; 0 + 1 / 1 * 1]
                           [0%Z; 1%Z] ones [])
                eq_refl) as [x (Hw & Ht & _)].
    exists x. split; [exact Hw|exact Ht].
Defined.

(** ** The start of the trajectory *)

Lemma CTMP0_body_Break {State : Type} (fun_ : Q -> State -> dict State Q)
      (v v' : CTMP0.vars State) :
  CTMP0.body fun_ v = CTMP0.Break v' -> v' = v.
Proof.
  unfold CTMP0.body.
  destruct (positive_rates (fun_ (CTMP0.t v) (CTMP0.state v))) as [|p ps].
  - intro H. inversion H. reflexivity.
  - destruct (times_to_move (p :: ps) (CTMP0.rng v)) as [times g'].
    destruct (py_min times) as [[k x]|e]; discriminate.
Qed.

Lemma CTMP0_while_hd {State : Type} (fun_ : Q -> State -> dict State Q)
      (tlast : Q) (e : Q * State) (fuel : nat) :
  forall v v',
    hd_error (CTMP0.history v) = Some e ->
    CTMP0.while fun_ fuel tlast v = Some (None, v') ->
    hd_error (CTMP0.history v') = Some e.
Proof.
  induction fuel as [|fuel IH]; intros v v' Hhd; cbn [CTMP0.while];
    [discriminate|].
  destruct (Qltb (CTMP0.t v) tlast).
  - destruct (CTMP0.body fun_ v) as [v1|v1|ex v1] eqn:Hb.
    + apply CTMP0_body_Break in Hb. subst v1.
      intro H. inversion H; subst. exact Hhd.
    + apply IH. apply CTMP0_body_Continue in Hb.
      destruct Hb as [x [_ Hv1]].
      apply (f_equal CTMP0.history) in Hv1. cbn [CTMP0.history] in Hv1.
      rewrite Hv1. apply hd_error_snoc. exact Hhd.
    + discriminate.
  - intro H. inversion H; subst. exact Hhd.
Qed.

(** Whatever [ts] is, the trajectory the earlier [evolution] returns
    starts with the time 0. *)
Lemma CTMP0_first_entry {State : Type} (fun_ : Q -> State -> dict State Q)
      (fuel : nat) (ts : CTMP0.ts_arg) (state0 : State) (g : Rng)
      (traj : list (Q * State)) :
  CTMP0.evolution fun_ fuel ts state0 None g = Some (Ok traj) ->
  hd_error traj = Some (0, state0).
Proof.
  unfold CTMP0.evolution.
  destruct (a <- CTMP0.times_of ts ;; t0 <- getitem a 0 ;;
            tlast <- getitem a (-1) ;; Ok (t0, tlast)) as [[t0 tlast]|e];
    [|discriminate].
  destruct (CTMP0.while fun_ fuel tlast (CTMP0.init t0 state0 g))
    as [[[e|] v]|] eqn:Hw; try discriminate.
  intro H. inversion H; subst; clear H.
  eapply CTMP0_while_hd; [|exact Hw]. reflexivity.
Qed.

(** C3, on the earlier [evolution]: with [ts = [-1, 1]], the initial state
    1, pure decay and a first variate 1/2, the run returns the
    trajectory [(0, 1), (-1/2, 0)].  Its first entry is not
    [(t_min, state0) = (-1, 1)] and its times decrease. *)
Theorem CTMP0_trajectory_start :
  CTMP0.evolution decay 2 (CTMP0.Times [-1; 1]) 1%Z None (draws [1 # 2]) =
  Some (Ok [(0, 1%Z); (-1 # 2, 0%Z)]).
Proof. vm_compute. reflexivity. Qed.

(** ** Resampling *)

(** The resampling loop of the earlier [evolution] on the trajectory
    [0, 1.2, 3.5] / [A, B, C]. *)
Lemma CTMP0_resample_example {State : Type} (A B C : State) :
  CTMP0.resampled_history [(0, A); (1.2, B); (3.5, C)] [0; 1; 1.2; 2; 5] =
  Ok [(0, A); (1, A); (1.2, B); (2, B); (5, C)].
Proof. reflexivity. Qed.

(** [interp1d] on the same trajectory: inside the range of the jump
    times it agrees, above the last jump time it raises. *)
Lemma interp1d_previous_example {State : Type} (A B C : State) :
  mapM (CTMP.interp1d_previous [0; 1.2; 3.5] [A; B; C]) [0; 1; 1.2; 2; 3.5] =
    Ok [A; A; B; B; C] /\
  mapM (CTMP.interp1d_previous [0; 1.2; 3.5] [A; B; C]) [0; 1; 1.2; 2; 5] =
    Raise ValueError.
Proof. split; reflexivity. Qed.

Lemma max_from_spec {State : Type} (rest : list (Q * State)) :
  forall best,
    In (max_from best rest) (best :: rest) /\
    forall h, In h (best :: rest) -> fst h <= fst (max_from best rest).
Proof.
  induction rest as [|c rest IH]; intro best; cbn [max_from].
  - split; [left; reflexivity|].
    intros h [<-|[]]. apply Qle_refl.
  - destruct (Qltb (fst best) (fst c)) eqn:E.
    + destruct (IH c) as [Hin Hmax]. split; [right; exact Hin|].
      intros h [<-|Hh]; [|apply Hmax; exact Hh].
      apply Qltb_true in E.
      apply Qle_trans with (fst c); [apply Qlt_le_weak; exact E|].
      apply Hmax. left; reflexivity.
    + destruct (IH best) as [Hin Hmax]. split.
      * destruct Hin as [Hin|Hin]; [left; exact Hin|right; right; exact Hin].
      * intros h [<-|[<-|Hh]].
        -- apply Hmax. left; reflexivity.
        -- apply Qltb_false in E.
           apply Qle_trans with (fst best); [exact E|].
           apply Hmax. left; reflexivity.
        -- apply Hmax. right. exact Hh.
Qed.

(** The resampling of the earlier [evolution], in general: a query time
    with an event at or before it gets the state of a latest such event,
    also when it lies after the last event. *)
Lemma CTMP0_resample_last_known {State : Type} (history : list (Q * State))
      (q : Q) :
  (exists h, In h history /\ fst h <= q) ->
  exists tq s,
    CTMP0.resampled_history history [q] = Ok [(q, s)] /\
    In (tq, s) history /\ tq <= q /\
    forall h, In h history -> fst h <= q -> fst h <= tq.
Proof.
  intros [h0 [Hin0 Hle0]].
  unfold CTMP0.resampled_history. cbn [mapM].
  set (before := filter (fun h => Qle_bool (fst h) q) history).
  assert (Hbefore : forall h, In h before <-> In h history /\ fst h <= q).
  { intro h. unfold before. rewrite filter_In, Qle_bool_iff. reflexivity. }
  destruct before as [|b rest] eqn:Eb.
  - exfalso. apply (proj2 (Hbefore h0)). split; assumption.
  - cbn [py_max bind].
    destruct (max_from_spec rest b) as [Hin Hmax].
    destruct (max_from b rest) as [tq s] eqn:Em.
    exists tq, s. cbn [snd fst] in *.
    apply Hbefore in Hin. destruct Hin as [Hin Hle].
    repeat split; try assumption.
    intros h Hh Hhq. apply (Hmax h). apply Hbefore. split; assumption.
Qed.

(** [interp1d] with its default bounds: any query above the last of the
    times raises. *)
Lemma interp1d_previous_above {State : Type} (x0 : Q) (x : list Q)
      (y : list State) (x_new : Q) :
  last (x0 :: x) x0 < x_new ->
  CTMP.interp1d_previous (x0 :: x) y x_new = Raise ValueError.
Proof.
  intro H. unfold CTMP.interp1d_previous.
  destruct (negb (Nat.eqb (length (x0 :: x)) (length y))); [reflexivity|].
  destruct y as [|y0 y]; [reflexivity|].
  destruct (Qltb x_new x0); [reflexivity|].
  apply Qltb_true in H. rewrite H. reflexivity.
Qed.

(** C7, on the version with the ceiling: pure decay from state 2 with the
    variates 2.4 and 2.3 jumps at the times 0, 1.2 and 3.5 through the
    states 2, 1 and 0 and stops there, state 0 having no transition;
    asked to resample that run at [0, 1, 1.2, 2, 5] the call raises
    [ValueError], 5 being above the last jump time. *)
Theorem CTMP_resample_after_last_event :
  (exists ts,
      CTMP.evolution decay 1000000 3 (0, 10) 2%Z None (draws [2.4; 2.3]) =
        Some (CTMP.Outcome (Ok (ts, [2%Z; 1%Z; 0%Z])) []) /\
      Forall2 Qeq ts [0; 1.2; 3.5]) /\
  CTMP.evolution decay 1000000 3 (0, 10) 2%Z (Some [0; 1; 1.2; 2; 5])
                 (draws [2.4; 2.3]) =
    Some (CTMP.Outcome (Raise ValueError) []).
Proof.
  split.
  - eexists. split; [vm_compute; reflexivity|].
    repeat constructor.
  - vm_compute. reflexivity.
Qed.

(** ** [np.linspace] *)

Lemma linspace_ends (start stop : Q) (num : Z) :
  (2 <= num)%Z ->
  exists a,
    linspace start stop num = Ok a /\
    length a = Z.to_nat num /\
    getitem a 0 =
      Ok (inject_Z 0 * ((stop - start) / inject_Z (num - 1)) + start) /\
    (exists x1, getitem a 1 = Ok x1) /\
    getitem a (-1) = Ok stop.
Proof.
  intro Hnum. unfold linspace.
  assert (Hneg : (num <? 0)%Z = false) by (apply Z.ltb_ge; lia).
  assert (Hone : (1 <? num)%Z = true) by (apply Z.ltb_lt; lia).
  rewrite Hneg, Hone.
  set (f := fun i => inject_Z (Z.of_nat i) *
                     ((stop - start) / inject_Z (num - 1)) + start).
  destruct (Z.to_nat num) as [|[|m]] eqn:En; [lia|lia|].
  eexists. split; [reflexivity|].
  cbn [seq map].
  assert (Hlen : length (removelast (f 0%nat :: f 1%nat :: map f (seq 2 m))
                           ++ [stop]) = S (S m)).
  { rewrite length_app. cbn [length].
    change (f 0%nat :: f 1%nat :: map f (seq 2 m))
      with ([f 0%nat] ++ (f 1%nat :: map f (seq 2 m))).
    rewrite removelast_app by discriminate.
    rewrite length_app. cbn [length].
    assert (Hrl : forall (l : list Q) (x : Q),
               length (removelast (x :: l)) = length l).
    { induction l as [|y l IH]; intro x; [reflexivity|].
      change (removelast (x :: y :: l)) with (x :: removelast (y :: l)).
      cbn [length]. rewrite IH. reflexivity. }
    rewrite Hrl, length_map, length_seq. lia. }
  split; [exact Hlen|].
  split; [|split].
  - unfold getitem. rewrite Hlen. reflexivity.
  - unfold getitem. rewrite Hlen.
    replace (index (S (S m)) 1) with (@Ok nat 1%nat).
    2:{ unfold index. cbn [Z.ltb Z.compare].
        destruct (Z.of_nat (S (S m)) <=? 1)%Z eqn:E; [|reflexivity].
        apply Z.leb_le in E. lia. }
    cbn [bind].
    destruct m; cbn; eauto.
  - unfold getitem. rewrite Hlen.
    replace (index (S (S m)) (-1)) with (@Ok nat (S m)).
    2:{ unfold index. cbn [Z.ltb Z.compare].
        destruct (-1 + Z.of_nat (S (S m)) <? 0)%Z eqn:E1;
          [apply Z.ltb_lt in E1; lia|].
        destruct (Z.of_nat (S (S m)) <=? -1 + Z.of_nat (S (S m)))%Z eqn:E2;
          [apply Z.leb_le in E2; lia|].
        cbn [orb]. f_equal. lia. }
    cbn [bind].
    set (l := removelast (f 0%nat :: f 1%nat :: map f (seq 2 m))) in *.
    assert (Hl : length l = S m)
      by (rewrite length_app in Hlen; cbn [length] in Hlen; lia).
    rewrite nth_error_app2 by lia.
    rewrite Hl, Nat.sub_diag. reflexivity.
Qed.

(** ** Pure decay *)

Lemma decay_positive (t : Q) (s : Z) :
  (0 < s)%Z -> positive_rates (decay t s) = [((s - 1)%Z, inject_Z s)].
Proof.
  intro Hs. unfold decay, positive_rates. cbn [filter snd].
  replace (Qltb 0 (inject_Z s)) with true; [reflexivity|].
  symmetry. apply Qltb_true. unfold Qlt, inject_Z. cbn. lia.
Qed.

Lemma decay_zero (t : Q) : positive_rates (decay t 0) = [].
Proof. reflexivity. Qed.

Lemma last_snoc {A : Type} (l : list A) (a d : A) : last (l ++ [a]) d = a.
Proof. apply last_last. Qed.

Lemma decay_waiting_positive (s : Z) (u : Q) :
  (0 < s)%Z -> 0 < u -> 0 < 1 / inject_Z s * u.
Proof.
  intros Hs Hu. apply Qmult_lt_0_compat; [|exact Hu].
  unfold Qdiv. rewrite Qmult_1_l. apply Qinv_lt_0_compat.
  unfold Qlt, inject_Z. cbn. lia.
Qed.

Lemma decay_halts_CTMP (maxrate : Q) (d : Z) :
  forall (n : nat) (g : Rng) (T0 : Q),
    (forall i, 0 < g i) ->
    (CTMP.truthy maxrate = true -> inject_Z (Z.of_nat n) < maxrate) ->
    exists T,
      T0 <= T /\
      forall (v : CTMP.vars Z) (tmax : Q),
        CTMP.state v = Z.of_nat n ->
        CTMP.rng v = g ->
        CTMP.t v <= T0 ->
        T <= tmax ->
        last (CTMP.history v) d = CTMP.state v ->
        exists fuel v',
          CTMP.while decay maxrate fuel tmax v = Some (None, v') /\
          CTMP.warned v' = CTMP.warned v /\
          CTMP.state v' = 0%Z /\
          last (CTMP.history v') d = 0%Z.
Proof.
  induction n as [|n IH]; intros g T0 Hg Hmax.
  - exists T0. split; [apply Qle_refl|].
    intros v tmax Hs Hr Ht HT Hlast.
    change (Z.of_nat 0) with 0%Z in Hs.
    exists 1%nat, v. cbn [CTMP.while].
    assert (Hb : CTMP.body decay maxrate v = CTMP.Break v).
    { rewrite CTMP_body_unfold, Hs. reflexivity. }
    rewrite Hb.
    destruct (Qltb (CTMP.t v) tmax); repeat split; congruence.
  - remember (Z.of_nat (S n)) as s eqn:Es.
    assert (Hs0 : (0 < s)%Z) by lia.
    set (x := 1 / inject_Z s * g 0%nat).
    assert (Hx : 0 < x) by (apply decay_waiting_positive; [exact Hs0|apply Hg]).
    destruct (IH (fun i => g (S i)) (T0 + x)) as [T [HT0 Hrun]].
    { intro i. apply Hg. }
    { intro Htr. eapply Qlt_trans; [|exact (Hmax Htr)].
      rewrite <- Zlt_Qlt. lia. }
    assert (Hlt : T0 < T0 + x).
    { rewrite <- (Qplus_0_r T0) at 1. apply Qplus_lt_r. exact Hx. }
    exists T. split.
    { eapply Qle_trans; [apply Qlt_le_weak; exact Hlt|exact HT0]. }
    intros v tmax Hs Hr Ht HT Hlast.
    set (v1 := CTMP.Vars (CTMP.t v + x) (s - 1)%Z
                         (CTMP.ts v ++ [CTMP.t v + x])
                         (CTMP.history v ++ [(s - 1)%Z])
                         (fun i => g (S i)) (CTMP.warned v)).
    assert (Hb : CTMP.body decay maxrate v = CTMP.Continue v1).
    { rewrite CTMP_body_unfold. unfold CTMP.candidates.
      rewrite Hs, decay_positive by exact Hs0.
      assert (Hc : (if CTMP.truthy maxrate
                    then below_maxrate maxrate [((s - 1)%Z, inject_Z s)]
                    else [((s - 1)%Z, inject_Z s)]) =
                   [((s - 1)%Z, inject_Z s)]).
      { destruct (CTMP.truthy maxrate) eqn:Etr; [|reflexivity].
        unfold below_maxrate. cbn [filter snd].
        replace (Qltb (inject_Z s) maxrate) with true; [reflexivity|].
        symmetry. apply Qltb_true. apply Hmax. reflexivity. }
      rewrite Hc. unfold CTMP.move. rewrite Hr. reflexivity. }
    destruct (Hrun v1 tmax) as [fuel [v' (Hw & Hwarn & Hst & Hl)]].
    + cbn [v1 CTMP.state]. lia.
    + reflexivity.
    + cbn [v1 CTMP.t]. apply Qplus_le_l. exact Ht.
    + exact HT.
    + cbn [v1 CTMP.history CTMP.state]. apply last_snoc.
    + exists (S fuel), v'. cbn [CTMP.while].
      replace (Qltb (CTMP.t v) tmax) with true.
      2:{ symmetry. apply Qltb_true.
          eapply Qle_lt_trans; [exact Ht|].
          eapply Qlt_le_trans; [exact Hlt|].
          eapply Qle_trans; [exact HT0|exact HT]. }
      rewrite Hb. repeat split; assumption.
Qed.

Lemma decay_halts_CTMP0 (d : Q * Z) :
  forall (n : nat) (g : Rng) (T0 : Q),
    (forall i, 0 < g i) ->
    exists T,
      T0 <= T /\
      forall (v : CTMP0.vars Z) (tlast : Q),
        CTMP0.state v = Z.of_nat n ->
        CTMP0.rng v = g ->
        CTMP0.t v <= T0 ->
        T <= tlast ->
        snd (last (CTMP0.history v) d) = CTMP0.state v ->
        exists fuel v',
          CTMP0.while decay fuel tlast v = Some (None, v') /\
          CTMP0.state v' = 0%Z /\
          snd (last (CTMP0.history v') d) = 0%Z.
Proof.
  induction n as [|n IH]; intros g T0 Hg.
  - exists T0. split; [apply Qle_refl|].
    intros v tlast Hs Hr Ht HT Hlast.
    change (Z.of_nat 0) with 0%Z in Hs.
    exists 1%nat, v. cbn [CTMP0.while].
    assert (Hb : CTMP0.body decay v = CTMP0.Break v).
    { unfold CTMP0.body. rewrite Hs. reflexivity. }
    rewrite Hb.
    destruct (Qltb (CTMP0.t v) tlast); repeat split; congruence.
  - remember (Z.of_nat (S n)) as s eqn:Es.
    assert (Hs0 : (0 < s)%Z) by lia.
    set (x := 1 / inject_Z s * g 0%nat).
    assert (Hx : 0 < x) by (apply decay_waiting_positive; [exact Hs0|apply Hg]).
    destruct (IH (fun i => g (S i)) (T0 + x)) as [T [HT0 Hrun]].
    { intro i. apply Hg. }
    assert (Hlt : T0 < T0 + x).
    { rewrite <- (Qplus_0_r T0) at 1. apply Qplus_lt_r. exact Hx. }
    exists T. split.
    { eapply Qle_trans; [apply Qlt_le_weak; exact Hlt|exact HT0]. }
    intros v tlast Hs Hr Ht HT Hlast.
    set (v1 := CTMP0.Vars (CTMP0.t v + x) (s - 1)%Z
                          (CTMP0.history v ++ [(CTMP0.t v + x, (s - 1)%Z)])
                          (fun i => g (S i))).
    assert (Hb : CTMP0.body decay v = CTMP0.Continue v1).
    { unfold CTMP0.body.
      rewrite Hs, decay_positive by exact Hs0.
      rewrite Hr. reflexivity. }
    destruct (Hrun v1 tlast) as [fuel [v' (Hw & Hst & Hl)]].
    + cbn [v1 CTMP0.state]. lia.
    + reflexivity.
    + cbn [v1 CTMP0.t]. apply Qplus_le_l. exact Ht.
    + exact HT.
    + cbn [v1 CTMP0.history CTMP0.state]. rewrite last_snoc. reflexivity.
    + exists (S fuel), v'. cbn [CTMP0.while].
      replace (Qltb (CTMP0.t v) tlast) with true.
      2:{ symmetry. apply Qltb_true.
          eapply Qle_lt_trans; [exact Ht|].
          eapply Qlt_le_trans; [exact Hlt|].
          eapply Qle_trans; [exact HT0|exact HT]. }
      rewrite Hb. repeat split; assumption.
Qed.

(** C9. Pure decay, [{state - 1: state}], from a positive integer state
    and with positive variates: there is a time [T] such that every run
    with [t_max >= T] halts (enough fuel makes the call return) and the
    last state of the trajectory it returns is 0.  In the version with
    the ceiling the initial state is below [maxrate] when [maxrate] is
    not zero, and no warning is issued; the earlier version is called
    with the number [t_max]. *)
Theorem decay_run_halts_at_zero (state0 : Z) (tmin : Q) (g : Rng) :
  (0 < state0)%Z ->
  (forall n, 0 < g n) ->
  (forall maxrate,
      (CTMP.truthy maxrate = true -> inject_Z state0 < maxrate) ->
      exists T, forall tmax, T <= tmax ->
        exists fuel ts history,
          CTMP.evolution decay maxrate fuel (tmin, tmax) state0 None g =
            Some (CTMP.Outcome (Ok (ts, history)) []) /\
          last history state0 = 0%Z) /\
  (exists T, forall tmax, T <= tmax ->
     exists fuel traj,
       CTMP0.evolution decay fuel (CTMP0.Number tmax) state0 None g =
         Some (Ok traj) /\
       snd (last traj (0, state0)) = 0%Z).
Proof.
  intros Hpos Hg. split.
  - intros maxrate Hmax.
    destruct (decay_halts_CTMP maxrate state0 (Z.to_nat state0) g tmin Hg)
      as [T [_ Hrun]].
    { rewrite Z2Nat.id by lia. exact Hmax. }
    exists T. intros tmax HT.
    destruct (Hrun (CTMP.init tmin state0 g) tmax)
      as [fuel [v' (Hw & Hwarn & _ & Hl)]].
    + cbn. rewrite Z2Nat.id by lia. reflexivity.
    + reflexivity.
    + apply Qle_refl.
    + exact HT.
    + reflexivity.
    + exists fuel, (CTMP.ts v'), (CTMP.history v').
      unfold CTMP.evolution. rewrite Hw, Hwarn. split; [reflexivity|exact Hl].
  - destruct (decay_halts_CTMP0 (0, state0) (Z.to_nat state0) g 0 Hg)
      as [T [_ Hrun]].
    exists T. intros tmax HT.
    destruct (linspace_ends 0 tmax 50) as [a (Hlin & _ & Hfirst & _ & Hlast)];
      [lia|].
    set (t0 := inject_Z 0 * ((tmax - 0) / inject_Z (50 - 1)) + 0) in Hfirst.
    destruct (Hrun (CTMP0.init t0 state0 g) tmax)
      as [fuel [v' (Hw & _ & Hl)]].
    + cbn. rewrite Z2Nat.id by lia. reflexivity.
    + reflexivity.
    + cbn [CTMP0.init CTMP0.t]. unfold t0.
      rewrite Qmult_0_l, Qplus_0_r. apply Qle_refl.
    + exact HT.
    + reflexivity.
    + exists fuel, (CTMP0.history v').
      unfold CTMP0.evolution, CTMP0.times_of.
      rewrite Hlin. cbn [bind]. rewrite Hfirst. cbn [bind].
      rewrite Hlast. cbn [bind]. rewrite Hw.
      split; [reflexivity|exact Hl].
Qed.

Lemma decay_run_halts_at_zero_witness :
  (exists T, forall tmax, T <= tmax ->
     exists fuel ts history,
       CTMP.evolution decay 1000000 fuel (0, tmax) 3%Z None ones =
         Some (CTMP.Outcome (Ok (ts, history)) []) /\
       last history 3%Z = 0%Z) /\
  (exists T, forall tmax, T <= tmax ->
     exists fuel traj,
       CTMP0.evolution decay fuel (CTMP0.Number tmax) 3%Z None ones =
         Some (Ok traj) /\
       snd (last traj (0, 3%Z)) = 0%Z).
Proof.
  assert (H3 : (0 < 3)%Z) by reflexivity.
  assert (Hones : forall n, 0 < ones n) by (intro n; reflexivity).
  split.
  - apply (proj1 (decay_run_halts_at_zero 3 0 ones H3 Hones) 1000000).
    intros _. reflexivity.
  - exact (proj2 (decay_run_halts_at_zero 3 0 ones H3 Hones)).
Defined.

(** ** Indexing and assignment *)

Lemma index_nonneg (n : nat) (i : Z) :
  (0 <= i < Z.of_nat n)%Z -> index n i = Ok (Z.to_nat i).
Proof.
  intro H. unfold index. cbv zeta.
  assert (E1 : (i <? 0)%Z = false) by (apply Z.ltb_ge; lia).
  assert (E2 : (Z.of_nat n <=? i)%Z = false) by (apply Z.leb_gt; lia).
  rewrite E1, E1, E2. reflexivity.
Qed.

Lemma index_negative (n : nat) (i : Z) :
  (- Z.of_nat n <= i < 0)%Z -> index n i = Ok (Z.to_nat (i + Z.of_nat n)).
Proof.
  intro H. unfold index. cbv zeta.
  assert (E0 : (i <? 0)%Z = true) by (apply Z.ltb_lt; lia).
  assert (E1 : (i + Z.of_nat n <? 0)%Z = false) by (apply Z.ltb_ge; lia).
  assert (E2 : (Z.of_nat n <=? i + Z.of_nat n)%Z = false)
    by (apply Z.leb_gt; lia).
  rewrite E0, E1, E2. reflexivity.
Qed.

Lemma index_lt (n : nat) (i : Z) (j : nat) : index n i = Ok j -> (j < n)%nat.
Proof.
  unfold index.
  destruct ((if (i <? 0)%Z then (i + Z.of_nat n)%Z else i) <? 0)%Z eqn:E1;
    [discriminate|].
  destruct (Z.of_nat n <=? (if (i <? 0)%Z then (i + Z.of_nat n)%Z else i))%Z
    eqn:E2; [discriminate|].
  cbn [orb]. intro H. inversion H; subst.
  apply Z.ltb_ge in E1. apply Z.leb_gt in E2. lia.
Qed.

Lemma getitem_index {A : Type} (l : list A) (i : Z) (j : nat) (d : A) :
  index (length l) i = Ok j -> getitem l i = Ok (nth j l d).
Proof.
  intro H. unfold getitem. rewrite H. cbn [bind].
  apply index_lt in H.
  rewrite (nth_error_nth' l d H). reflexivity.
Qed.

Lemma length_set_nth {A : Type} (l : list A) :
  forall j x, length (set_nth j x l) = length l.
Proof.
  induction l as [|y l IH]; intros [|j] x; cbn; try reflexivity.
  rewrite IH. reflexivity.
Qed.

Lemma nth_set_nth_eq {A : Type} (l : list A) :
  forall j x d, (j < length l)%nat -> nth j (set_nth j x l) d = x.
Proof.
  induction l as [|y l IH]; intros [|j] x d H; cbn in *; try lia.
  - reflexivity.
  - apply IH. lia.
Qed.

Lemma nth_set_nth_neq {A : Type} (l : list A) :
  forall i j x d, i <> j -> nth i (set_nth j x l) d = nth i l d.
Proof.
  induction l as [|y l IH]; intros [|i] [|j] x d H; cbn; try reflexivity.
  - congruence.
  - apply IH. congruence.
Qed.

Lemma Forall_set_nth {A : Type} (P : A -> Prop) (l : list A) :
  forall j x, P x -> Forall P l -> Forall P (set_nth j x l).
Proof.
  induction l as [|y l IH]; intros [|j] x Hx Hl; cbn; try exact Hl.
  - inversion Hl; subst. constructor; assumption.
  - inversion Hl; subst. constructor; [assumption|]. apply IH; assumption.
Qed.

Lemma assign_row_eq (m : matrix) (i : Z) (f : list Q -> result (list Q))
      (j : nat) (row' : list Q) :
  index (length m) i = Ok j ->
  f (nth j m []) = Ok row' ->
  assign_row m i f = Ok (set_nth j row' m).
Proof.
  intros Hi Hf. unfold assign_row.
  rewrite (getitem_index m i j [] Hi), Hi. cbn [bind].
  rewrite Hf. reflexivity.
Qed.

Lemma square_row (n : nat) (m : matrix) (j : nat) :
  square n m -> (j < n)%nat -> length (nth j m []) = n.
Proof.
  intros [Hlen Hrows] Hj.
  rewrite Forall_forall in Hrows. apply Hrows.
  apply nth_In. lia.
Qed.

Lemma square_set_nth (n : nat) (m : matrix) (j : nat) (row : list Q) :
  square n m -> length row = n -> square n (set_nth j row m).
Proof.
  intros [Hlen Hrows] Hrow. split.
  - rewrite length_set_nth. exact Hlen.
  - apply Forall_set_nth; assumption.
Qed.

(** An assignment to a row of a square matrix that keeps the width of the
    row succeeds and leaves a square matrix. *)
Lemma assign_row_square (n : nat) (m : matrix) (i : Z)
      (f : list Q -> result (list Q)) (j : nat) :
  square n m ->
  index n i = Ok j ->
  (forall row, length row = n -> exists row', f row = Ok row' /\ length row' = n) ->
  exists row',
    f (nth j m []) = Ok row' /\ length row' = n /\
    assign_row m i f = Ok (set_nth j row' m) /\
    square n (set_nth j row' m).
Proof.
  intros Hsq Hi Hf.
  pose proof (index_lt _ _ _ Hi) as Hj.
  destruct (Hf (nth j m [])) as [row' [Hrow' Hlen']].
  { apply square_row; assumption. }
  exists row'. repeat split; try assumption.
  - apply assign_row_eq; [|exact Hrow'].
    destruct Hsq as [Hlen _]. rewrite Hlen. exact Hi.
  - destruct Hsq as [Hlen _]. rewrite length_set_nth. exact Hlen.
  - apply Forall_set_nth; [exact Hlen'|]. apply Hsq.
Qed.

(** ** Shapes of the matrices *)

Lemma nth_map_seq {A : Type} (f : nat -> A) (n i : nat) (d : A) :
  (i < n)%nat -> nth i (map f (seq 0 n)) d = f i.
Proof.
  intro H.
  rewrite (nth_indep _ d (f 0%nat)) by (rewrite length_map, length_seq; exact H).
  rewrite (map_nth f (seq 0 n) 0%nat i), seq_nth by exact H. reflexivity.
Qed.

Lemma np_eye_square (n : nat) : square n (np_eye n).
Proof.
  unfold square, np_eye. split.
  - rewrite length_map, length_seq. reflexivity.
  - apply Forall_forall. intros row Hrow.
    apply in_map_iff in Hrow. destruct Hrow as [i [<- _]].
    rewrite length_map, length_seq. reflexivity.
Qed.

Lemma np_eye_entry (n i j : nat) :
  (i < n)%nat -> (j < n)%nat ->
  nth j (nth i (np_eye n) []) 0 = if Nat.eqb i j then 1 else 0.
Proof.
  intros Hi Hj. unfold np_eye.
  rewrite (nth_map_seq _ n i [] Hi), (nth_map_seq _ n j 0 Hj). reflexivity.
Qed.

Lemma np_roll_square (n : nat) (m : matrix) (shift : Z) :
  square n m -> square n (np_roll m shift).
Proof.
  intros [Hlen Hrows]. unfold np_roll. split.
  - rewrite length_map. exact Hlen.
  - apply Forall_forall. intros row Hrow.
    apply in_map_iff in Hrow. destruct Hrow as [r [<- Hr]].
    unfold roll_row. rewrite length_map, length_seq.
    rewrite Forall_forall in Hrows. apply Hrows. exact Hr.
Qed.

Lemma length_map2 {A B C : Type} (f : A -> B -> C) (a : list A) :
  forall (b : list B), length a = length b -> length (map2 f a b) = length a.
Proof.
  induction a as [|x a IH]; intros [|y b] H; cbn in *; try congruence.
  rewrite IH; congruence.
Qed.

Lemma map2_square (f : Q -> Q -> Q) (n : nat) (a : matrix) :
  forall (b : matrix),
    square n a -> square n b -> square n (map2 (map2 f) a b).
Proof.
  intros b [Hla Hra] [Hlb Hrb]. split.
  - rewrite length_map2; congruence.
  - clear Hla Hlb. revert b Hrb.
    induction Hra as [|x a Hx Hra IH]; intros [|y b] Hrb; cbn;
      try constructor.
    + inversion Hrb; subst. rewrite length_map2; congruence.
    + inversion Hrb; subst. apply IH. assumption.
Qed.

Lemma map_map_square (f : Q -> Q) (n : nat) (m : matrix) :
  square n m -> square n (map (map f) m).
Proof.
  intros [Hlen Hrows]. split.
  - rewrite length_map. exact Hlen.
  - apply Forall_forall. intros row Hrow.
    apply in_map_iff in Hrow. destruct Hrow as [r [<- Hr]].
    rewrite length_map. rewrite Forall_forall in Hrows. apply Hrows. exact Hr.
Qed.

Lemma madd_square (n : nat) (a b : matrix) :
  square n a -> square n b -> square n (madd a b).
Proof. apply map2_square. Qed.

Lemma msub_square (n : nat) (a b : matrix) :
  square n a -> square n b -> square n (msub a b).
Proof. apply map2_square. Qed.

Lemma mscale_square (n : nat) (c : Q) (m : matrix) :
  square n m -> square n (mscale c m).
Proof. apply map_map_square. Qed.

Lemma mdiv_square (n : nat) (m : matrix) (c : Q) :
  square n m -> square n (mdiv m c).
Proof. apply (map_map_square (fun x => x / c)). Qed.

Lemma assign_zero_all (n : nat) (m : matrix) (i : Z) (j : nat) :
  square n m -> index n i = Ok j ->
  assign_row m i zero_all = Ok (set_nth j (repeat 0 n) m).
Proof.
  intros Hsq Hi. apply assign_row_eq.
  - destruct Hsq as [Hlen _]. rewrite Hlen. exact Hi.
  - unfold zero_all. rewrite (square_row n m j Hsq (index_lt _ _ _ Hi)).
    reflexivity.
Qed.

Lemma assign_set_first (n : nat) (m : matrix) (i : Z) (j : nat)
      (vals : list Q) :
  square n m -> index n i = Ok j -> (length vals <= n)%nat ->
  assign_row m i (set_first vals) =
  Ok (set_nth j (vals ++ skipn (length vals) (nth j m [])) m).
Proof.
  intros Hsq Hi Hv. apply assign_row_eq.
  - destruct Hsq as [Hlen _]. rewrite Hlen. exact Hi.
  - unfold set_first. rewrite (square_row n m j Hsq (index_lt _ _ _ Hi)).
    replace (n <? length vals)%nat with false; [reflexivity|].
    symmetry. apply Nat.ltb_ge. exact Hv.
Qed.

Lemma index_last (n : nat) (k : Z) :
  (0 < k <= Z.of_nat n)%Z -> index n (- k) = Ok (n - Z.to_nat k)%nat.
Proof.
  intro H. rewrite index_negative by lia. f_equal. lia.
Qed.

Lemma skipn_repeat_0 (k n : nat) : skipn k (repeat 0 n) = repeat 0 (n - k).
Proof.
  revert n. induction k as [|k IH]; intros [|n]; cbn; try reflexivity.
  apply IH.
Qed.

(** ** The fourth-derivative matrix *)

(** C5, the claim as it stands, fails: with six grid points and [dx = 1.0]
    row 0 of the Dirichlet matrix is [1, -4, 6, -4, 1, 0], not zero. *)
Lemma d4dx4_dirichlet_counterexample :
  exists m,
    d4dx4_mat 6 (NpFloat 1) "dirichlet" = Ok m /\
    ~ Forall (fun x => x == 0) (nth 0 m []).
Proof.
  eexists. split; [vm_compute; reflexivity|].
  cbn [nth]. intro H. inversion H as [|x l H0 _]; subst.
  vm_compute in H0. discriminate H0.
Qed.

(** C5, amended.  Called with [bcs = "dirichlet"], a numpy float [dx] and
    at least five grid points, [d4dx4_mat] returns a matrix whose rows 1,
    [nx-2] and [nx-1] are zero; row 0 is zeroed and then given the
    forward stencil [(1, -4, 6, -4, 1) / dx**4] in its first five columns,
    the rest of it staying zero. *)
Theorem d4dx4_dirichlet_rows (nx : Z) (q : Q) :
  (5 <= nx)%Z ->
  exists m,
    d4dx4_mat nx (NpFloat q) "dirichlet" = Ok m /\
    length m = Z.to_nat nx /\
    nth 0 m [] =
      tuple_over [1; -4; 6; -4; 1] (q * q * q * q)
        ++ repeat 0 (Z.to_nat nx - 5) /\
    nth 1 m [] = repeat 0 (Z.to_nat nx) /\
    nth (Z.to_nat nx - 2) m [] = repeat 0 (Z.to_nat nx) /\
    nth (Z.to_nat nx - 1) m [] = repeat 0 (Z.to_nat nx).
Proof.
  intro Hnx. unfold d4dx4_mat.
  assert (Hneg : (nx <? 0)%Z = false) by (apply Z.ltb_ge; lia).
  rewrite Hneg.
  change (String.eqb "dirichlet" "dirichlet") with true. cbv iota.
  cbn [pow4 value tuple_div].
  set (n := Z.to_nat nx).
  assert (Hn : (5 <= n)%nat) by lia.
  match goal with
  | |- context [assign_row ?M 0 zero_all] => set (M0 := M)
  end.
  assert (Hsq0 : square n M0).
  { apply mdiv_square.
    repeat (apply madd_square || apply msub_square || apply mscale_square
            || apply np_roll_square || apply np_eye_square). }
  set (zeros := repeat 0 n).
  assert (Hz : length zeros = n) by apply repeat_length.
  set (vals := tuple_over [1; -4; 6; -4; 1] (q * q * q * q)).
  rewrite (assign_zero_all n M0 0 0 Hsq0) by (apply (index_nonneg n 0); lia).
  cbn [bind]. fold zeros.
  set (M1 := set_nth 0 zeros M0).
  assert (Hsq1 : square n M1) by (apply square_set_nth; assumption).
  rewrite (assign_set_first n M1 0 0 vals Hsq1)
    by (try (apply (index_nonneg n 0)); cbn; lia).
  cbn [bind].
  assert (Hrow0 : vals ++ skipn (length vals) (nth 0 M1 []) =
                  vals ++ repeat 0 (n - 5)).
  { unfold M1. rewrite nth_set_nth_eq by (destruct Hsq0 as [-> _]; lia).
    unfold zeros. rewrite skipn_repeat_0. reflexivity. }
  rewrite Hrow0.
  set (M2 := set_nth 0 (vals ++ repeat 0 (n - 5)) M1).
  assert (Hsq2 : square n M2).
  { apply square_set_nth; [assumption|].
    rewrite length_app, repeat_length. cbn. lia. }
  rewrite (assign_zero_all n M2 1 1 Hsq2) by (apply (index_nonneg n 1); lia).
  cbn [bind]. fold zeros.
  set (M3 := set_nth 1 zeros M2).
  assert (Hsq3 : square n M3) by (apply square_set_nth; assumption).
  rewrite (assign_zero_all n M3 (-2) (n - 2) Hsq3)
    by (apply (index_last n 2); lia).
  cbn [bind]. fold zeros.
  set (M4 := set_nth (n - 2) zeros M3).
  assert (Hsq4 : square n M4) by (apply square_set_nth; assumption).
  rewrite (assign_zero_all n M4 (-1) (n - 1) Hsq4)
    by (apply (index_last n 1); lia).
  cbn [bind]. fold zeros.
  eexists. split; [reflexivity|].
  assert (HlenM : forall k r M, square n M -> length (set_nth k r M) = n).
  { intros k r M [HM _]. rewrite length_set_nth. exact HM. }
  split; [apply HlenM; assumption|].
  split; [|split; [|split]].
  - rewrite nth_set_nth_neq by lia.
    unfold M4. rewrite nth_set_nth_neq by lia.
    unfold M3. rewrite nth_set_nth_neq by lia.
    unfold M2. apply nth_set_nth_eq. destruct Hsq1 as [-> _]. lia.
  - rewrite nth_set_nth_neq by lia.
    unfold M4. rewrite nth_set_nth_neq by lia.
    unfold M3. apply nth_set_nth_eq. destruct Hsq2 as [-> _]. lia.
  - rewrite nth_set_nth_neq by lia.
    unfold M4. apply nth_set_nth_eq. destruct Hsq3 as [-> _]. lia.
  - apply nth_set_nth_eq. destruct Hsq4 as [-> _]. lia.
Qed.

Lemma d4dx4_dirichlet_rows_witness :
  exists m,
    d4dx4_mat 6 (NpFloat 1) "dirichlet" = Ok m /\
    length m = Z.to_nat 6 /\
    nth 0 m [] =
      tuple_over [1; -4; 6; -4; 1] (1 * 1 * 1 * 1)
        ++ repeat 0 (Z.to_nat 6 - 5) /\
    nth 1 m [] = repeat 0 (Z.to_nat 6) /\
    nth (Z.to_nat 6 - 2) m [] = repeat 0 (Z.to_nat 6) /\
    nth (Z.to_nat 6 - 1) m [] = repeat 0 (Z.to_nat 6).
Proof.
  apply (d4dx4_dirichlet_rows 6 1). lia.
Defined.

(** ** [discretise] *)

(** C6, the claim as it stands, fails: with [xa = 1 >= xb = 0] and three
    points [discretise] returns a grid (of spacing -1/2). *)
Lemma discretise_counterexample :
  exists g,
    discretise 1 0 3 "periodic" = Ok g /\
    xs g = [inject_Z 0 * ((0 - 1) / inject_Z (3 - 1)) + 1;
            inject_Z 1 * ((0 - 1) / inject_Z (3 - 1)) + 1;
            0].
Proof. eexists. split; reflexivity. Qed.

(** With two points or more the periodic [discretise] returns a grid,
    whatever the order of [xa] and [xb]. *)
Lemma discretise_periodic_returns (xa xb : Q) (nx : Z) :
  (2 <= nx)%Z ->
  exists g,
    discretise xa xb nx "periodic" = Ok g /\ length (xs g) = Z.to_nat nx.
Proof.
  intro H. unfold discretise.
  destruct (linspace_ends xa xb nx H) as [a (Hlin & Hlen & H0 & [x1 H1] & _)].
  rewrite Hlin. cbn [bind]. rewrite H1. cbn [bind]. rewrite H0. cbn [bind].
  change (String.eqb "periodic" "periodic") with true. cbv iota.
  eexists. split; [reflexivity|]. exact Hlen.
Qed.

Lemma zero_from_ok (n k : nat) (row : list Q) :
  (k <= n)%nat -> length row = n ->
  exists row', zero_from k row = Ok row' /\ length row' = n.
Proof.
  intros Hk Hrow. eexists. split; [reflexivity|].
  rewrite length_app, length_firstn, repeat_length. lia.
Qed.

Lemma zero_upto_last_ok (n k : nat) (row : list Q) :
  (k <= n)%nat -> length row = n ->
  exists row', zero_upto_last k row = Ok row' /\ length row' = n.
Proof.
  intros Hk Hrow. eexists. split; [reflexivity|].
  rewrite length_app, length_skipn, repeat_length. lia.
Qed.

Lemma set_first_ok (n : nat) (vals row : list Q) :
  (length vals <= n)%nat -> length row = n ->
  exists row', set_first vals row = Ok row' /\ length row' = n.
Proof.
  intros Hk Hrow. unfold set_first.
  replace (length row <? length vals)%nat with false
    by (symmetry; apply Nat.ltb_ge; lia).
  eexists. split; [reflexivity|].
  rewrite length_app, length_skipn. lia.
Qed.

Lemma set_last_ok (n : nat) (vals row : list Q) :
  (length vals <= n)%nat -> length row = n ->
  exists row', set_last vals row = Ok row' /\ length row' = n.
Proof.
  intros Hk Hrow. unfold set_last.
  replace (length row <? length vals)%nat with false
    by (symmetry; apply Nat.ltb_ge; lia).
  eexists. split; [reflexivity|].
  rewrite length_app, length_firstn. lia.
Qed.

Ltac assign_step n :=
  match goal with
  | Hsq : square n ?m |- context [bind (assign_row ?m ?i ?f) _] =>
      let r := fresh "r" in
      let E := fresh "E" in
      let S := fresh "S" in
      destruct (assign_row_square n m i f
                  (if (i <? 0)%Z then (n - Z.to_nat (- i))%nat else Z.to_nat i)
                  Hsq)
        as [r (_ & _ & E & S)];
      [ first [ apply (index_nonneg n i); lia
              | apply (index_last n (- i)); lia ]
      | intros;
        first [ apply zero_from_ok | apply zero_upto_last_ok
              | apply set_first_ok | apply set_last_ok ];
        cbn; solve [lia | assumption]
      | rewrite E; cbn [bind]; clear E Hsq ]
  end.

Lemma one_sided_ok (n : nat) (dx : Q) (a b : matrix) :
  (4 <= n)%nat -> square n a -> square n b ->
  exists r, one_sided dx a b = Ok r.
Proof.
  intros Hn Ha Hb. unfold one_sided.
  do 4 assign_step n.
  do 4 assign_step n.
  eexists. reflexivity.
Qed.

Lemma set_entry_eq (row : list Q) (j : Z) (k : nat) (x : Q) :
  index (length row) j = Ok k -> set_entry j x row = Ok (set_nth k x row).
Proof. intro H. unfold set_entry. rewrite H. reflexivity. Qed.

(** Entry [(i, j)] after [m[k, k] = x]. *)
Lemma corner_entry (n : nat) (m : matrix) (k i j : nat) (x : Q) :
  square n m -> (k < n)%nat ->
  nth j (nth i (set_nth k (set_nth k x (nth k m [])) m) []) 0 =
  if Nat.eqb i k && Nat.eqb j k then x else nth j (nth i m []) 0.
Proof.
  intros Hsq Hk.
  destruct (Nat.eqb_spec i k) as [->|Hik]; cbn [andb].
  - rewrite nth_set_nth_eq by (destruct Hsq as [-> _]; exact Hk).
    destruct (Nat.eqb_spec j k) as [->|Hjk].
    + apply nth_set_nth_eq. rewrite (square_row n m k Hsq Hk). exact Hk.
    + apply nth_set_nth_neq. exact Hjk.
  - rewrite nth_set_nth_neq by exact Hik. reflexivity.
Qed.

Lemma set_entry_ok (n : nat) (j : Z) (k : nat) (x : Q) (row : list Q) :
  index n j = Ok k -> length row = n ->
  exists row', set_entry j x row = Ok row' /\ length row' = n.
Proof.
  intros Hj Hrow. unfold set_entry. rewrite Hrow, Hj. cbn [bind].
  eexists. split; [reflexivity|]. rewrite length_set_nth. exact Hrow.
Qed.

(** With four points or more every branch with one-sided rows returns a
    grid. *)
Lemma discretise_four_returns (xa xb : Q) (nx : Z) :
  (4 <= nx)%Z ->
  (exists g, discretise xa xb nx "dirichlet" = Ok g) /\
  (exists g, discretise xa xb nx "neumann" = Ok g) /\
  (exists g, OrrSommerfeld.discretise xa xb nx = Ok g).
Proof.
  intro Hnx.
  destruct (linspace_ends xa xb nx) as [a (Hlin & Hlen & H0 & [x1 H1] & _)];
    [lia|].
  set (n := Z.to_nat nx).
  assert (Hn : (4 <= n)%nat) by (unfold n; lia).
  set (x0 := inject_Z 0 * ((xb - xa) / inject_Z (nx - 1)) + xa) in *.
  set (h := x1 - x0).
  pose proof (np_eye_square n) as HsqE.
  assert (Hsq1 : square n (mdiv (msub (np_roll (np_eye n) 1)
                                      (np_roll (np_eye n) (-1))) (2 * h)))
    by (apply mdiv_square, msub_square; apply np_roll_square; exact HsqE).
  assert (Hsq2 : square n (mdiv (madd (msub (np_roll (np_eye n) 1)
                                            (mscale 2 (np_eye n)))
                                      (np_roll (np_eye n) (-1))) (h * h))).
  { apply mdiv_square, madd_square; [apply msub_square|];
      try apply mscale_square; try apply np_roll_square; exact HsqE. }
  destruct (one_sided_ok n h _ _ Hn Hsq1 Hsq2) as [dd Hdd].
  assert (Hfirst : index n 0 = Ok 0%nat) by (apply (index_nonneg n 0); lia).
  assert (Hlast : index n (-1) = Ok (n - 1)%nat)
    by (apply (index_last n 1); lia).
  repeat split.
  - unfold discretise.
    rewrite Hlin. cbn [bind]. rewrite H1. cbn [bind]. rewrite H0. cbn [bind].
    change (String.eqb "dirichlet" "periodic") with false.
    change (String.eqb "dirichlet" "dirichlet") with true. cbv iota.
    fold n. fold h. rewrite Hdd. cbn [bind]. eexists. reflexivity.
  - unfold discretise.
    rewrite Hlin. cbn [bind]. rewrite H1. cbn [bind]. rewrite H0. cbn [bind].
    change (String.eqb "neumann" "periodic") with false.
    change (String.eqb "neumann" "dirichlet") with false.
    change (String.eqb "neumann" "neumann") with true. cbv iota.
    fold n. fold h.
    destruct (assign_row_square n (np_eye n) 0 (set_entry 0 (h * h)) 0
                                HsqE Hfirst)
      as [r1 (_ & _ & E1 & S1)].
    { intros row Hrow. apply (set_entry_ok n 0 0); assumption. }
    rewrite E1. cbn [bind].
    destruct (assign_row_square n _ (-1) (set_entry (-1) (h * h)) (n - 1)
                                S1 Hlast)
      as [r2 (_ & _ & E2 & S2)].
    { intros row Hrow. apply (set_entry_ok n (-1) (n - 1)); assumption. }
    rewrite E2. cbn [bind].
    rewrite Hdd. cbn [bind]. eexists. reflexivity.
  - unfold OrrSommerfeld.discretise.
    rewrite Hlin. cbn [bind]. rewrite H1. cbn [bind]. rewrite H0. cbn [bind].
    fold n. fold h. rewrite Hdd. cbn [bind]. eexists. reflexivity.
Qed.

(** C6, amended.  [discretise] checks nothing itself; what it accepts
    follows from the calls it makes, and never from the order of [xa] and
    [xb]:
    - with fewer than two points it raises, in both notebooks and for
      every [bcs]: [ValueError] from [np.linspace] for a negative [nx],
      [IndexError] from [xs[1]] for [nx] 0 or 1;
    - with two points or more the periodic branch returns a grid;
    - with two or three points the Dirichlet and the Neumann branch, and
      the [discretise] of the Orr-Sommerfeld notebook, raise
      [ValueError], the one-sided rows needing four columns;
    - with four points or more they return a grid. *)
Theorem discretise_domain (xa xb : Q) (nx : Z) (bcs : string) :
  ((nx < 2)%Z ->
   discretise xa xb nx bcs =
     Raise (if (nx <? 0)%Z then ValueError else IndexError) /\
   OrrSommerfeld.discretise xa xb nx =
     Raise (if (nx <? 0)%Z then ValueError else IndexError)) /\
  ((2 <= nx)%Z -> exists g, discretise xa xb nx "periodic" = Ok g) /\
  ((2 <= nx < 4)%Z ->
   discretise xa xb nx "dirichlet" = Raise ValueError /\
   discretise xa xb nx "neumann" = Raise ValueError /\
   OrrSommerfeld.discretise xa xb nx = Raise ValueError) /\
  ((4 <= nx)%Z ->
   (exists g, discretise xa xb nx "dirichlet" = Ok g) /\
   (exists g, discretise xa xb nx "neumann" = Ok g) /\
   (exists g, OrrSommerfeld.discretise xa xb nx = Ok g)).
Proof.
  split; [|split; [|split]].
  - intro H. destruct nx as [|p|p].
    + split; reflexivity.
    + assert (p = 1%positive) by lia. subst p. split; reflexivity.
    + split; reflexivity.
  - intro H. destruct (discretise_periodic_returns xa xb nx H) as [g [Hg _]].
    exists g. exact Hg.
  - intro H.
    assert (Hcases : nx = 2%Z \/ nx = 3%Z) by lia.
    destruct Hcases as [-> | ->]; repeat split; reflexivity.
  - apply discretise_four_returns.
Qed.

Lemma discretise_domain_witness :
  (discretise 1 0 1 "dirichlet" =
     Raise (if (1 <? 0)%Z then ValueError else IndexError) /\
   OrrSommerfeld.discretise 1 0 1 =
     Raise (if (1 <? 0)%Z then ValueError else IndexError)) /\
  (exists g, discretise 1 0 3 "periodic" = Ok g) /\
  (discretise 1 0 3 "dirichlet" = Raise ValueError /\
   discretise 1 0 3 "neumann" = Raise ValueError /\
   OrrSommerfeld.discretise 1 0 3 = Raise ValueError) /\
  ((exists g, discretise 1 0 5 "dirichlet" = Ok g) /\
   (exists g, discretise 1 0 5 "neumann" = Ok g) /\
   (exists g, OrrSommerfeld.discretise 1 0 5 = Ok g)).
Proof.
  split; [|split; [|split]].
  - apply (proj1 (discretise_domain 1 0 1 "dirichlet")). lia.
  - apply (proj1 (proj2 (discretise_domain 1 0 3 "periodic"))). lia.
  - apply (proj1 (proj2 (proj2 (discretise_domain 1 0 3 "dirichlet")))). lia.
  - apply (proj2 (proj2 (proj2 (discretise_domain 1 0 5 "dirichlet")))). lia.
Defined.

(** C4, the claim as it stands, fails: on [[0, 8]] with five points
    ([dx = 2]) row 0 of the returned identity matrix is [4, 0, 0, 0, 0],
    which gives 4, not 0, on a constant function; row 0 of [ddx], written
    by the same call, is a first-derivative stencil. *)
Lemma discretise_neumann_counterexample :
  exists g,
    discretise 0 8 5 "neumann" = Ok g /\
    ~ first_derivative_stencil (nth 0 (eye g) []) (xs g) /\
    first_derivative_stencil (nth 0 (ddx g) []) (xs g).
Proof.
  eexists. split; [vm_compute; reflexivity|]. split.
  - intros [H _]. vm_compute in H. discriminate H.
  - split; vm_compute; reflexivity.
Qed.

(** C4, amended.  Called with [bcs = "neumann"] and at least four grid
    points, [discretise] returns the identity matrix with its two corner
    entries [eye[0, 0]] and [eye[nx-1, nx-1]] overwritten with [dx*dx]:
    every other entry is the one of the identity, so the boundary rows
    are multiples of the unit rows and hold no derivative stencil. *)
Theorem discretise_neumann_eye (xa xb : Q) (nx : Z) :
  (4 <= nx)%Z ->
  exists g,
    discretise xa xb nx "neumann" = Ok g /\
    length (eye g) = Z.to_nat nx /\
    forall i j,
      (i < Z.to_nat nx)%nat -> (j < Z.to_nat nx)%nat ->
      nth j (nth i (eye g) []) 0 =
      if Nat.eqb i j
      then (if Nat.eqb i 0 || Nat.eqb i (Z.to_nat nx - 1)
            then dx g * dx g else 1)
      else 0.
Proof.
  intro Hnx. unfold discretise.
  destruct (linspace_ends xa xb nx) as [a (Hlin & Hlen & H0 & [x1 H1] & _)];
    [lia|].
  rewrite Hlin. cbn [bind]. rewrite H1. cbn [bind]. rewrite H0. cbn [bind].
  change (String.eqb "neumann" "periodic") with false.
  change (String.eqb "neumann" "dirichlet") with false.
  change (String.eqb "neumann" "neumann") with true. cbv iota.
  set (n := Z.to_nat nx).
  assert (Hn : (4 <= n)%nat) by lia.
  set (x0 := inject_Z 0 * ((xb - xa) / inject_Z (nx - 1)) + xa).
  set (h := x1 - x0).
  pose proof (np_eye_square n) as HsqE.
  assert (Hlast : index n (-1) = Ok (n - 1)%nat)
    by (apply (index_last n 1); lia).
  assert (Hfirst : index n 0 = Ok 0%nat)
    by (apply (index_nonneg n 0); lia).
  rewrite (assign_row_eq (np_eye n) 0 (set_entry 0 (h * h)) 0
             (set_nth 0 (h * h) (nth 0 (np_eye n) []))).
  2:{ destruct HsqE as [-> _]. exact Hfirst. }
  2:{ apply set_entry_eq.
      rewrite (square_row n (np_eye n) 0 HsqE) by lia. exact Hfirst. }
  cbn [bind].
  set (eye1 := set_nth 0 (set_nth 0 (h * h) (nth 0 (np_eye n) [])) (np_eye n)).
  assert (Hsq1 : square n eye1).
  { apply square_set_nth; [exact HsqE|].
    rewrite length_set_nth. apply square_row; [exact HsqE|lia]. }
  rewrite (assign_row_eq eye1 (-1) (set_entry (-1) (h * h)) (n - 1)
             (set_nth (n - 1) (h * h) (nth (n - 1) eye1 []))).
  2:{ destruct Hsq1 as [-> _]. exact Hlast. }
  2:{ apply set_entry_eq.
      rewrite (square_row n eye1 (n - 1) Hsq1) by lia. exact Hlast. }
  cbn [bind].
  match goal with
  | |- context [one_sided h ?A ?B] =>
      destruct (one_sided_ok n h A B Hn) as [dd Hdd]
  end.
  { apply mdiv_square, msub_square; apply np_roll_square; exact HsqE. }
  { apply mdiv_square, madd_square; [apply msub_square|];
      try apply mscale_square; try apply np_roll_square; exact HsqE. }
  rewrite Hdd. cbn [bind].
  eexists. split; [reflexivity|]. cbn [eye dx].
  split.
  { rewrite length_set_nth. destruct Hsq1 as [-> _]. reflexivity. }
  intros i j Hi Hj.
  rewrite (corner_entry n eye1 (n - 1) i j (h * h) Hsq1) by lia.
  unfold eye1.
  rewrite (corner_entry n (np_eye n) 0 i j (h * h) HsqE) by lia.
  rewrite np_eye_entry by assumption.
  destruct (Nat.eqb_spec i j) as [->|Hij].
  - destruct (Nat.eqb_spec j (n - 1)), (Nat.eqb_spec j 0); reflexivity.
  - destruct (Nat.eqb_spec i (n - 1)), (Nat.eqb_spec j (n - 1)),
      (Nat.eqb_spec i 0), (Nat.eqb_spec j 0);
      cbn [andb orb]; try reflexivity; exfalso; lia.
Qed.

Lemma discretise_neumann_eye_witness :
  exists g,
    discretise 0 8 5 "neumann" = Ok g /\
    length (eye g) = Z.to_nat 5 /\
    forall i j,
      (i < Z.to_nat 5)%nat -> (j < Z.to_nat 5)%nat ->
      nth j (nth i (eye g) []) 0 =
      if Nat.eqb i j
      then (if Nat.eqb i 0 || Nat.eqb i (Z.to_nat 5 - 1)
            then dx g * dx g else 1)
      else 0.
Proof.
  apply (discretise_neumann_eye 0 8 5). lia.
Defined.

(** ** The sorted eigenpairs *)

Lemma mapM_ok {A B : Type} (f : A -> result B) (g : A -> B) (l : list A) :
  (forall x, In x l -> f x = Ok (g x)) -> mapM f l = Ok (map g l).
Proof.
  induction l as [|x l IH]; intro H; [reflexivity|].
  cbn [mapM map]. rewrite (H x (or_introl eq_refl)). cbn [bind].
  rewrite IH by (intros y Hy; apply H; right; exact Hy).
  reflexivity.
Qed.

Lemma take_ok {A : Type} (a : list A) (ordering : list nat) (d : A) :
  (forall i, In i ordering -> (i < length a)%nat) ->
  take a ordering = Ok (map (fun i => nth i a d) ordering).
Proof.
  intro H. unfold take. apply mapM_ok. intros i Hi.
  rewrite (getitem_index a (Z.of_nat i) i d); [reflexivity|].
  rewrite index_nonneg by (specialize (H i Hi); lia).
  rewrite Nat2Z.id. reflexivity.
Qed.

Lemma insert_keyed_perm {K : Type} (ltb : K -> K -> bool)
      (x : K * nat) (l : list (K * nat)) :
  Permutation (insert_keyed ltb x l) (x :: l).
Proof.
  induction l as [|y l IH]; cbn [insert_keyed]; [reflexivity|].
  destruct (ltb (fst y) (fst x)); [|reflexivity].
  rewrite IH. apply perm_swap.
Qed.

Lemma sort_keyed_perm {K : Type} (ltb : K -> K -> bool) (l : list (K * nat)) :
  Permutation (sort_keyed ltb l) l.
Proof.
  induction l as [|x l IH]; cbn [sort_keyed]; [reflexivity|].
  rewrite insert_keyed_perm. constructor. exact IH.
Qed.

(** A list in which no key is smaller than the key before it is left as
    it is: such a list is one run for the builtin, with or without NaN
    among the keys. *)
Lemma sort_keyed_run {K : Type} (ltb : K -> K -> bool) (l : list (K * nat)) :
  (forall l1 a b l2, l = l1 ++ a :: b :: l2 -> ltb (fst b) (fst a) = false) ->
  sort_keyed ltb l = l.
Proof.
  induction l as [|x l IH]; intro H; [reflexivity|].
  cbn [sort_keyed]. rewrite IH.
  - destruct l as [|y l]; [reflexivity|].
    cbn [insert_keyed]. rewrite (H [] x y l eq_refl). reflexivity.
  - intros l1 a b l2 E. apply (H (x :: l1) a b l2). rewrite E. reflexivity.
Qed.

(** Sorting commutes with a change of keys that keeps the comparison. *)
Lemma insert_keyed_map {K1 K2 : Type} (ltb1 : K1 -> K1 -> bool)
      (ltb2 : K2 -> K2 -> bool) (f : K1 -> K2) :
  (forall a b, ltb2 (f a) (f b) = ltb1 a b) ->
  forall x l,
    insert_keyed ltb2 (f (fst x), snd x) (map (fun p => (f (fst p), snd p)) l) =
    map (fun p => (f (fst p), snd p)) (insert_keyed ltb1 x l).
Proof.
  intros Hf x l. induction l as [|y l IH]; [reflexivity|].
  cbn [map insert_keyed fst snd]. rewrite Hf.
  destruct (ltb1 (fst y) (fst x)); cbn [map]; [|reflexivity].
  rewrite IH. reflexivity.
Qed.

Lemma sort_keyed_map {K1 K2 : Type} (ltb1 : K1 -> K1 -> bool)
      (ltb2 : K2 -> K2 -> bool) (f : K1 -> K2) :
  (forall a b, ltb2 (f a) (f b) = ltb1 a b) ->
  forall l,
    sort_keyed ltb2 (map (fun p => (f (fst p), snd p)) l) =
    map (fun p => (f (fst p), snd p)) (sort_keyed ltb1 l).
Proof.
  intros Hf l. induction l as [|x l IH]; [reflexivity|].
  cbn [map sort_keyed]. rewrite IH.
  apply (insert_keyed_map ltb1 ltb2 f Hf).
Qed.

Lemma keyed_lt_of_le (p q : Q * nat) :
  fst p <= fst q -> (snd p < snd q)%nat -> keyed_lt p q.
Proof.
  intros Hle Hlt. unfold keyed_lt.
  destruct (Qlt_le_dec (fst p) (fst q)) as [H|H]; [left; exact H|].
  right. split; [apply Qle_antisym; assumption|exact Hlt].
Qed.

Lemma keyed_lt_le (p q : Q * nat) : keyed_lt p q -> fst p <= fst q.
Proof.
  intros [H|[H _]]; [apply Qlt_le_weak; exact H|].
  rewrite H. apply Qle_refl.
Qed.

Lemma insert_keyed_sorted (x : Q * nat) (l : list (Q * nat)) :
  StronglySorted keyed_lt l ->
  Forall (fun q => (snd x < snd q)%nat) l ->
  StronglySorted keyed_lt (insert_keyed Qltb x l).
Proof.
  induction 1 as [|y l Hs IH Hy]; intro Hx; cbn [insert_keyed].
  - constructor; constructor.
  - inversion Hx as [|? ? Hxy Hxl]; subst.
    destruct (Qltb (fst y) (fst x)) eqn:E.
    + apply Qltb_true in E.
      constructor; [apply IH; exact Hxl|].
      apply (Permutation_Forall
               (Permutation_sym (insert_keyed_perm Qltb x l))).
      constructor; [left; exact E|exact Hy].
    + apply Qltb_false in E.
      constructor; [constructor; assumption|].
      constructor; [apply keyed_lt_of_le; assumption|].
      rewrite Forall_forall in *. intros z Hz.
      apply keyed_lt_of_le; [|apply Hxl; exact Hz].
      eapply Qle_trans; [exact E|]. apply keyed_lt_le. apply Hy. exact Hz.
Qed.

Lemma sort_keyed_sorted (l : list (Q * nat)) :
  StronglySorted (fun p q => (snd p < snd q)%nat) l ->
  StronglySorted keyed_lt (sort_keyed Qltb l).
Proof.
  induction 1 as [|x l Hs IH Hx]; cbn [sort_keyed]; [constructor|].
  apply insert_keyed_sorted; [exact IH|].
  apply (Permutation_Forall (Permutation_sym (sort_keyed_perm Qltb l))).
  exact Hx.
Qed.

Lemma keyed_range_sorted (key : nat -> Q) (n : nat) :
  forall a,
    StronglySorted (fun p q => (snd p < snd q)%nat)
                   (map (fun i => (key i, i)) (seq a n)).
Proof.
  induction n as [|n IH]; intro a; cbn [seq map]; constructor.
  - apply IH.
  - apply Forall_forall. intros q Hq.
    apply in_map_iff in Hq. destruct Hq as [i [<- Hi]].
    apply in_seq in Hi. cbn [snd]. lia.
Qed.

Lemma combine_keys {K : Type} (key : nat -> K) (l : list nat) :
  combine (map key l) l = map (fun i => (key i, i)) l.
Proof.
  induction l as [|i l IH]; [reflexivity|].
  cbn [map combine]. rewrite IH. reflexivity.
Qed.

Lemma sorted_positions (key : nat -> Q) (l : list (Q * nat)) :
  Forall (fun p => fst p = key (snd p)) l ->
  StronglySorted keyed_lt l ->
  StronglySorted
    (fun i j => key i < key j \/ (key i == key j /\ (i < j)%nat))
    (map snd l).
Proof.
  intros Hkey Hs. induction Hs as [|p l Hs IH Hp]; cbn [map]; [constructor|].
  inversion Hkey as [|? ? Hkp Hkl]; subst.
  constructor; [apply IH; exact Hkl|].
  apply Forall_map. rewrite Forall_forall in *. intros q Hq.
  specialize (Hp q Hq). specialize (Hkl q Hq). unfold keyed_lt in Hp.
  rewrite Hkp, Hkl in Hp. exact Hp.
Qed.

(** C1, the claim as it stands, fails.  For the singular pencil
    [diag(2, 0, 1), diag(1, 0, 1)] the solver's answer has a NaN between
    the eigenvalues 2 and 1; no comparison with NaN is true, so [sorted]
    finds the positions in order already and [myeig] returns the
    eigenvalues as [2, NaN, 1]: the real part 1 comes after the real
    part 2, and the eigenvalues are not in ascending order. *)
Lemma myeig_nan_counterexample :
  exists vecs,
    myeig eig_nan exact_sqrt pencil3_left pencil3_right =
      Ok ([Value (2, 0); NaN; Value (1, 0)], vecs) /\
    1 < 2.
Proof.
  eexists. split; [vm_compute; reflexivity|reflexivity].
Qed.

(** C1, amended.  When the eigensolver returns [nx] eigenvalues [w], none
    of them NaN, and a matrix [v] with [nx] columns for the [nx]-row
    matrix [op], [myeig] returns them rearranged by one permutation
    [ordering] of [0 .. nx-1]: the real parts of the eigenvalues ascend
    along [ordering], positions with equal real parts stay in the
    solver's order, the eigenvalues returned are [w[ordering]],
    unchanged, and column [p] of the eigenvector matrix is column
    [ordering[p]] of [v] with the real and the imaginary part of every
    entry multiplied by [sqrt(nx)]. *)
Theorem myeig_sorted_scaled
        (eig : cmatrix -> cmatrix -> result (list eigenvalue * cmatrix))
        (sqrt : nat -> Q) (op eye : cmatrix)
        (w : list complex) (v : cmatrix) :
  eig op eye = Ok (map Value w, v) ->
  length w = length op ->
  Forall (fun row => length row = length op) v ->
  exists ordering,
    Permutation ordering (seq 0 (length op)) /\
    StronglySorted
      (fun i j =>
         fst (nth i w (0, 0)) < fst (nth j w (0, 0)) \/
         (fst (nth i w (0, 0)) == fst (nth j w (0, 0)) /\ (i < j)%nat))
      ordering /\
    myeig eig sqrt op eye =
      Ok (map (fun i => Value (nth i w (0, 0))) ordering,
          map (fun row =>
                 map (fun i =>
                        (fst (nth i row (0, 0)) * sqrt (length op),
                         snd (nth i row (0, 0)) * sqrt (length op)))
                     ordering)
              v).
Proof.
  intros Heig Hw Hv.
  set (nx := length op) in *.
  assert (Hw' : @length (Q * Q) w = nx) by exact Hw.
  set (key := fun i => fst (nth i w (0, 0))).
  set (sorted := sort_keyed Qltb (map (fun i => (key i, i)) (seq 0 nx))).
  assert (Hperm : Permutation (map snd sorted) (seq 0 nx)).
  { unfold sorted. rewrite sort_keyed_perm, map_map. cbn [snd].
    rewrite map_id. reflexivity. }
  assert (Hrange : forall i, In i (map snd sorted) -> (i < nx)%nat).
  { intros i Hi. apply (Permutation_in _ Hperm) in Hi.
    apply in_seq in Hi. lia. }
  exists (map snd sorted). split; [exact Hperm|]. split.
  - apply (sorted_positions key).
    + apply (Permutation_Forall (Permutation_sym (sort_keyed_perm _ _))).
      apply Forall_forall. intros p Hp.
      apply in_map_iff in Hp. destruct Hp as [i [<- _]]. reflexivity.
    + apply sort_keyed_sorted. apply keyed_range_sorted.
  - unfold myeig. fold nx. rewrite Heig. cbn [bind fst snd].
    unfold sorted_range.
    rewrite (mapM_ok _ (fun i => Some (key i))).
    2:{ intros i Hi. apply in_seq in Hi.
        rewrite (getitem_index (map np_real (map Value w)) (Z.of_nat i) i
                               (np_real (Value (0, 0)))).
        - rewrite !map_nth. reflexivity.
        - rewrite !length_map. fold complex. rewrite Hw.
          rewrite index_nonneg by lia.
          rewrite Nat2Z.id. reflexivity. }
    cbn [bind]. rewrite combine_keys.
    assert (Hsort : sort_keyed float_ltb
                      (map (fun i => (Some (key i), i)) (seq 0 nx)) =
                    map (fun p => (Some (fst p), snd p)) sorted).
    { unfold sorted.
      rewrite <- (sort_keyed_map Qltb float_ltb (@Some Q))
        by (intros a b; reflexivity).
      rewrite map_map. reflexivity. }
    rewrite Hsort, map_map. cbn [snd].
    change (map (fun x : Q * nat => snd x) sorted) with (map snd sorted).
    rewrite (take_ok (map Value w) (map snd sorted) (Value (0, 0)))
      by (rewrite length_map; fold complex; rewrite Hw; exact Hrange).
    cbn [bind].
    rewrite (mapM_ok _ (fun row => map (fun i => nth i row (0, 0))
                                       (map snd sorted))).
    2:{ intros row Hrow. apply (@take_ok complex).
        rewrite Forall_forall in Hv. rewrite (Hv row Hrow). exact Hrange. }
    cbn [bind].
    apply f_equal. apply f_equal2.
    + apply map_ext. intro i. apply map_nth.
    + rewrite map_map. apply map_ext. intro row. rewrite map_map.
      reflexivity.
Qed.

Lemma myeig_sorted_scaled_witness :
  exists ordering,
    Permutation ordering (seq 0 (length diag4)) /\
    StronglySorted
      (fun i j =>
         fst (nth i [(3, 0); (1, 0); (2, 0); (1, 0)] (0, 0)) <
         fst (nth j [(3, 0); (1, 0); (2, 0); (1, 0)] (0, 0)) \/
         (fst (nth i [(3, 0); (1, 0); (2, 0); (1, 0)] (0, 0)) ==
          fst (nth j [(3, 0); (1, 0); (2, 0); (1, 0)] (0, 0)) /\ (i < j)%nat))
      ordering /\
    myeig eig4 exact_sqrt diag4 eye4 =
      Ok (map (fun i => Value (nth i [(3, 0); (1, 0); (2, 0); (1, 0)] (0, 0)))
              ordering,
          map (fun row =>
                 map (fun i =>
                        (fst (nth i row (0, 0)) * exact_sqrt (length diag4),
                         snd (nth i row (0, 0)) * exact_sqrt (length diag4)))
                     ordering)
              eye4).
Proof.
  apply (myeig_sorted_scaled eig4 exact_sqrt diag4 eye4
           [(3, 0); (1, 0); (2, 0); (1, 0)] eye4).
  - reflexivity.
  - reflexivity.
  - repeat constructor.
Defined.

(** * Further properties of the code *)

(** ** Runs of [evolution] with the rate ceiling *)

Lemma CTMP_body_Break {State : Type} (fun_ : Q -> State -> dict State Q)
      (maxrate : Q) (v v' : CTMP.vars State) :
  CTMP.body fun_ maxrate v = CTMP.Break v' ->
  CTMP.t v' = CTMP.t v /\ CTMP.state v' = CTMP.state v /\
  CTMP.ts v' = CTMP.ts v /\ CTMP.history v' = CTMP.history v /\
  CTMP.rng v' = CTMP.rng v /\
  (CTMP.warned v' = CTMP.warned v \/
   (CTMP.truthy maxrate = true /\
    CTMP.candidates fun_ maxrate v = [] /\
    positive_rates (fun_ (CTMP.t v) (CTMP.state v)) <> [] /\
    CTMP.warned v' =
      CTMP.warned v ++ [CTMP.MaxRateExceeded maxrate (CTMP.t v)])).
Proof.
  rewrite CTMP_body_unfold.
  destruct (positive_rates (fun_ (CTMP.t v) (CTMP.state v))) as [|p ps] eqn:Ep.
  - intro H. inversion H; subst. repeat split. left. reflexivity.
  - destruct (CTMP.candidates fun_ maxrate v) as [|c rest] eqn:E.
    + intro H. inversion H; subst. cbn. repeat split. right.
      repeat split; try reflexivity; try discriminate.
      unfold CTMP.candidates in E. rewrite Ep in E.
      destruct (CTMP.truthy maxrate); [reflexivity|discriminate].
    + destruct (CTMP_move_nonempty (c :: rest) v) as [v1 H1]; [discriminate|].
      rewrite H1. discriminate.
Qed.

(** The loop rule: [I] is kept by the passes that move on, [R] holds when
    the loop is left, by the test on the time or by a [break]. *)
Lemma CTMP_while_ind {State : Type} (fun_ : Q -> State -> dict State Q)
      (maxrate tmax : Q) (I R : CTMP.vars State -> Prop) :
  (forall v v', I v -> Qltb (CTMP.t v) tmax = true ->
                CTMP.body fun_ maxrate v = CTMP.Continue v' -> I v') ->
  (forall v v', I v -> Qltb (CTMP.t v) tmax = true ->
                CTMP.body fun_ maxrate v = CTMP.Break v' -> R v') ->
  (forall v, I v -> Qltb (CTMP.t v) tmax = false -> R v) ->
  forall fuel v r,
    I v -> CTMP.while fun_ maxrate fuel tmax v = Some r ->
    fst r = None /\ R (snd r).
Proof.
  intros Hc Hb He. induction fuel as [|fuel IH]; intros v r Hv;
    cbn [CTMP.while]; [discriminate|].
  destruct (Qltb (CTMP.t v) tmax) eqn:Et.
  - destruct (CTMP.body fun_ maxrate v) as [v1|v1|e v1] eqn:Ebody.
    + intro H. inversion H; subst. cbn. split; [reflexivity|].
      eapply Hb; eassumption.
    + apply IH. eapply Hc; eassumption.
    + exfalso. exact (CTMP_body_no_Throw _ _ _ _ _ Ebody).
  - intro H. inversion H; subst. cbn. split; [reflexivity|].
    apply He; assumption.
Qed.

(** What a returned trajectory says about the loop. *)
Lemma CTMP_evolution_returned {State : Type}
      (fun_ : Q -> State -> dict State Q) (maxrate : Q) (fuel : nat)
      (tmin tmax : Q) (state0 : State) (g : Rng)
      (ts : list Q) (history : list State) (w : list CTMP.warning) :
  CTMP.evolution fun_ maxrate fuel (tmin, tmax) state0 None g =
    Some (CTMP.Outcome (Ok (ts, history)) w) ->
  exists v,
    CTMP.while fun_ maxrate fuel tmax (CTMP.init tmin state0 g) = Some (None, v) /\
    CTMP.ts v = ts /\ CTMP.history v = history /\ CTMP.warned v = w.
Proof.
  unfold CTMP.evolution.
  destruct (CTMP.while fun_ maxrate fuel tmax (CTMP.init tmin state0 g))
    as [[[e|] v]|]; try discriminate.
  intro H. inversion H; subst. exists v. repeat split.
Qed.

(** The returned trajectory is a path of the chain: every state after
    the first was, at the time and in the state recorded just before it,
    a key of the transition map with a positive rate, below the ceiling
    when one is set. *)
Theorem CTMP_history_path {State : Type}
        (fun_ : Q -> State -> dict State Q) (maxrate : Q) (fuel : nat)
        (tmin tmax : Q) (state0 : State) (g : Rng)
        (ts : list Q) (history : list State) (w : list CTMP.warning) :
  CTMP.evolution fun_ maxrate fuel (tmin, tmax) state0 None g =
    Some (CTMP.Outcome (Ok (ts, history)) w) ->
  forall i,
    (S i < length history)%nat ->
    exists r,
      In (nth (S i) history state0, r)
         (fun_ (nth i ts 0) (nth i history state0)) /\
      0 < r /\
      (CTMP.truthy maxrate = true -> r < maxrate).
Proof.
  intro Hev. apply CTMP_evolution_returned in Hev.
  destruct Hev as [v (Hw & <- & <- & _)].
  set (I := fun v : CTMP.vars State =>
              exists ts0 hs0,
                CTMP.ts v = ts0 ++ [CTMP.t v] /\
                CTMP.history v = hs0 ++ [CTMP.state v] /\
                length ts0 = length hs0 /\
                forall i,
                  (S i < length (CTMP.history v))%nat ->
                  exists r,
                    In (nth (S i) (CTMP.history v) state0, r)
                       (fun_ (nth i (CTMP.ts v) 0)
                             (nth i (CTMP.history v) state0)) /\
                    0 < r /\
                    (CTMP.truthy maxrate = true -> r < maxrate)).
  assert (HI : I v).
  { apply (CTMP_while_ind fun_ maxrate tmax I I) in Hw.
    - exact (proj2 Hw).
    - intros u u' (ts0 & hs0 & Hts & Hhs & Hlen & Hpath) _ Hb.
      apply CTMP_body_Continue in Hb. destruct Hb as [x [[Hin _] Hu']].
      apply waiting_times_keys in Hin. destruct Hin as [r Hr].
      apply CTMP_candidates_In in Hr.
      pose proof (f_equal CTMP.t Hu') as Ht.
      pose proof (f_equal CTMP.ts Hu') as Hts'.
      pose proof (f_equal CTMP.history Hu') as Hhs'.
      cbn [CTMP.moved CTMP.t CTMP.ts CTMP.history] in Ht, Hts', Hhs'.
      exists (CTMP.ts u), (CTMP.history u).
      split; [rewrite Hts', Ht; reflexivity|].
      split; [exact Hhs'|].
      split; [rewrite Hts, Hhs, !length_app; cbn; lia|].
      intros i Hi. rewrite Hhs', length_app in Hi. cbn [length] in Hi.
      rewrite Hhs', Hts'.
      assert (Hl : length (CTMP.ts u) = length (CTMP.history u))
        by (rewrite Hts, Hhs, !length_app; cbn; lia).
      destruct (Nat.eq_dec (S i) (length (CTMP.history u))) as [Heq|Hne].
      + assert (Hi' : i = length hs0)
          by (rewrite Hhs, length_app in Heq; cbn in Heq; lia).
        assert (HA : nth (S i) (CTMP.history u ++ [CTMP.state u']) state0 =
                     CTMP.state u')
          by (rewrite Heq; apply nth_middle).
        assert (HB : nth i (CTMP.ts u ++ [CTMP.t u + x]) 0 = CTMP.t u).
        { rewrite app_nth1 by lia. rewrite Hts, Hi', <- Hlen. apply nth_middle. }
        assert (HC : nth i (CTMP.history u ++ [CTMP.state u']) state0 =
                     CTMP.state u).
        { rewrite app_nth1 by lia. rewrite Hhs, Hi'. apply nth_middle. }
        rewrite HA, HB, HC. exists r. exact Hr.
      + rewrite !app_nth1 by lia. apply Hpath. lia.
    - intros u u' HI _ Hb. apply CTMP_body_Break in Hb.
      destruct Hb as (Ht & Hs & Hts & Hhs & _).
      unfold I in *. rewrite Ht, Hs, Hts, Hhs. exact HI.
    - intros u HI _. exact HI.
    - exists [], []. cbn. repeat split. intros i Hi. lia. }
  destruct HI as (ts0 & hs0 & _ & _ & _ & Hpath). exact Hpath.
Qed.

Lemma CTMP_history_path_witness :
  exists r,
    In (nth 1 [2%Z; 1%Z; 0%Z] 2%Z, r)
       (decay (nth 0 [0; 24 # 20; 700 # 200] 0) (nth 0 [2%Z; 1%Z; 0%Z] 2%Z)) /\
    0 < r /\
    (CTMP.truthy 1000000 = true -> r < 1000000).
Proof.
  apply (CTMP_history_path decay 1000000 3 0 10 2%Z (draws [2.4; 2.3])
           [0; 24 # 20; 700 # 200] [2%Z; 1%Z; 0%Z] []).
  - vm_compute. reflexivity.
  - cbn. lia.
Defined.

(** A property of states that the initial state has and that every
    transition of positive rate (below the ceiling, when one is set)
    keeps holds of every state of the returned trajectory. *)
Lemma CTMP_history_Forall {State : Type}
        (fun_ : Q -> State -> dict State Q) (maxrate : Q) (fuel : nat)
        (tmin tmax : Q) (state0 : State) (g : Rng)
        (ts : list Q) (history : list State) (w : list CTMP.warning)
        (P : State -> Prop) :
  P state0 ->
  (forall t s k r,
      P s -> In (k, r) (fun_ t s) -> 0 < r ->
      (CTMP.truthy maxrate = true -> r < maxrate) -> P k) ->
  CTMP.evolution fun_ maxrate fuel (tmin, tmax) state0 None g =
    Some (CTMP.Outcome (Ok (ts, history)) w) ->
  Forall P history.
Proof.
  intros H0 Hstep Hev. apply CTMP_evolution_returned in Hev.
  destruct Hev as [v (Hw & _ & <- & _)].
  set (I := fun u : CTMP.vars State =>
              P (CTMP.state u) /\ Forall P (CTMP.history u)).
  apply (CTMP_while_ind fun_ maxrate tmax I I) in Hw.
  - exact (proj2 (proj2 Hw)).
  - intros u u' [Hs Hh] _ Hb.
    apply CTMP_body_Continue in Hb. destruct Hb as [x [[Hin _] Hu']].
    apply waiting_times_keys in Hin. destruct Hin as [r Hr].
    apply CTMP_candidates_In in Hr. destruct Hr as (Hr1 & Hr2 & Hr3).
    pose proof (Hstep _ _ _ _ Hs Hr1 Hr2 Hr3) as Hk.
    pose proof (f_equal CTMP.history Hu') as Hhs'.
    cbn [CTMP.moved CTMP.history] in Hhs'.
    split; [exact Hk|]. rewrite Hhs'. apply Forall_app. split; [exact Hh|].
    constructor; [exact Hk|constructor].
  - intros u u' HI _ Hb. apply CTMP_body_Break in Hb.
    destruct Hb as (_ & Hs & _ & Hhs & _).
    unfold I in *. rewrite Hs, Hhs. exact HI.
  - intros u HI _. exact HI.
  - split; [exact H0|]. constructor; [exact H0|constructor].
Qed.

(** Only the last recorded time can be at or beyond [tmax]: the loop
    takes a step only from a time below [tmax]. *)
Theorem CTMP_times_below_tmax {State : Type}
        (fun_ : Q -> State -> dict State Q) (maxrate : Q) (fuel : nat)
        (tmin tmax : Q) (state0 : State) (g : Rng)
        (ts : list Q) (history : list State) (w : list CTMP.warning) :
  CTMP.evolution fun_ maxrate fuel (tmin, tmax) state0 None g =
    Some (CTMP.Outcome (Ok (ts, history)) w) ->
  Forall (fun x => x < tmax) (removelast ts).
Proof.
  intro Hev. apply CTMP_evolution_returned in Hev.
  destruct Hev as [v (Hw & <- & _ & _)].
  set (I := fun u : CTMP.vars State =>
              exists ts0, CTMP.ts u = ts0 ++ [CTMP.t u] /\
                          Forall (fun x => x < tmax) ts0).
  apply (CTMP_while_ind fun_ maxrate tmax I I) in Hw.
  - destruct Hw as [_ (ts0 & Hts & Hall)].
    cbn [snd] in Hts. rewrite Hts, removelast_last. exact Hall.
  - intros u u' (ts0 & Hts & Hall) Ht Hb.
    apply CTMP_body_Continue in Hb. destruct Hb as [x [_ Hu']].
    pose proof (f_equal CTMP.t Hu') as Ht'.
    pose proof (f_equal CTMP.ts Hu') as Hts'.
    cbn [CTMP.moved CTMP.t CTMP.ts] in Ht', Hts'.
    exists (CTMP.ts u). split; [rewrite Hts', Ht'; reflexivity|].
    rewrite Hts. apply Forall_app. split; [exact Hall|].
    constructor; [apply Qltb_true; exact Ht|constructor].
  - intros u u' HI _ Hb. apply CTMP_body_Break in Hb.
    destruct Hb as (Ht & _ & Hts & _).
    unfold I in *. rewrite Ht, Hts. exact HI.
  - intros u HI _. exact HI.
  - exists []. split; [reflexivity|constructor].
Qed.

Lemma CTMP_times_below_tmax_witness :
  Forall (fun x => x < 2) (removelast [0; 24 # 20; 700 # 200]).
Proof.
  apply (CTMP_times_below_tmax decay 1000000 3 0 2 2%Z (draws [2.4; 2.3])
           [0; 24 # 20; 700 # 200] [2%Z; 1%Z; 0%Z] []).
  vm_compute. reflexivity.
Defined.

Lemma CTMP_evolution_trajectory_witness :
  hd_error (combine [0; 24 # 20; 700 # 200] [2%Z; 1%Z; 0%Z]) = Some (0, 2%Z) /\
  length [0; 24 # 20; 700 # 200] = length [2%Z; 1%Z; 0%Z] /\
  StronglySorted Qlt [0; 24 # 20; 700 # 200].
Proof.
  apply (CTMP_evolution_trajectory decay 1000000 3 0 10 2%Z
           (draws [2.4; 2.3]) [0; 24 # 20; 700 # 200] [2%Z; 1%Z; 0%Z] []).
  - intro n. unfold draws.
    destruct n as [|[|[|n]]]; cbn; try reflexivity; destruct n; reflexivity.
  - vm_compute. reflexivity.
Defined.

Lemma positive_rates_nil {State : Type} (d : dict State Q) :
  (forall k r, In (k, r) d -> r <= 0) -> positive_rates d = [].
Proof.
  intro H. induction d as [|[k r] d IH]; [reflexivity|].
  unfold positive_rates in *. cbn [filter snd].
  replace (Qltb 0 r) with false.
  - apply IH. intros k' r' Hin. apply (H k'). right. exact Hin.
  - symmetry. apply Qltb_false. apply (H k). left. reflexivity.
Qed.

(** A run that cannot start returns the initial entry alone, with no
    warning: when [tmax <= tmin], or when no transition from the initial
    state has a positive rate (an empty map, or zero and negative rates,
    which are ignored rather than rejected). *)
Theorem CTMP_immediate_return {State : Type}
        (fun_ : Q -> State -> dict State Q) (maxrate : Q) (fuel : nat)
        (tmin tmax : Q) (state0 : State) (g : Rng) :
  tmax <= tmin \/ (forall k r, In (k, r) (fun_ tmin state0) -> r <= 0) ->
  CTMP.evolution fun_ maxrate (S fuel) (tmin, tmax) state0 None g =
    Some (CTMP.Outcome (Ok ([tmin], [state0])) []).
Proof.
  intro H. unfold CTMP.evolution. cbn [CTMP.while].
  destruct (Qltb (CTMP.t (CTMP.init tmin state0 g)) tmax) eqn:Et.
  - destruct H as [H|H].
    + apply Qltb_true in Et. cbn in Et.
      exfalso. exact (Qlt_not_le _ _ Et H).
    + rewrite CTMP_body_unfold. cbn [CTMP.init CTMP.t CTMP.state].
      rewrite (positive_rates_nil _ H). reflexivity.
  - reflexivity.
Qed.

Lemma CTMP_immediate_return_witness :
  CTMP.evolution (fun _ _ => [(1%Z, 0); (2%Z, -3)]) 10 1 (0, 5) 0%Z None ones =
    Some (CTMP.Outcome (Ok ([0], [0%Z])) []).
Proof.
  apply (CTMP_immediate_return (fun _ _ => [(1%Z, 0); (2%Z, -3)]) 10 0 0 5
           0%Z ones).
  right. intros k r [H|[H|[]]]; inversion H; subst; discriminate.
Defined.

(** The warning is issued only for the reason it states: a run returns
    with no warning, or with exactly one, and then a ceiling is set, the
    warning carries the last recorded time, and at the last recorded time
    and state some transition has a positive rate and every positive
    rate is [maxrate] or more. *)
Theorem CTMP_warning_only_at_ceiling {State : Type}
        (fun_ : Q -> State -> dict State Q) (maxrate : Q) (fuel : nat)
        (tmin tmax : Q) (state0 : State) (g : Rng)
        (ts : list Q) (history : list State) (w : list CTMP.warning) :
  CTMP.evolution fun_ maxrate fuel (tmin, tmax) state0 None g =
    Some (CTMP.Outcome (Ok (ts, history)) w) ->
  w = [] \/
  (CTMP.truthy maxrate = true /\
   w = [CTMP.MaxRateExceeded maxrate (last ts tmin)] /\
   (exists k r, In (k, r) (fun_ (last ts tmin) (last history state0)) /\ 0 < r) /\
   forall k r, In (k, r) (fun_ (last ts tmin) (last history state0)) ->
               0 < r -> maxrate <= r).
Proof.
  intro Hev. apply CTMP_evolution_returned in Hev.
  destruct Hev as [v (Hw & <- & <- & <-)].
  set (I := fun u : CTMP.vars State =>
              CTMP.warned u = [] /\
              last (CTMP.ts u) tmin = CTMP.t u /\
              last (CTMP.history u) state0 = CTMP.state u).
  set (R := fun u : CTMP.vars State =>
              CTMP.warned u = [] \/
              (CTMP.truthy maxrate = true /\
               CTMP.warned u =
                 [CTMP.MaxRateExceeded maxrate (last (CTMP.ts u) tmin)] /\
               (exists k r,
                   In (k, r) (fun_ (last (CTMP.ts u) tmin)
                                   (last (CTMP.history u) state0)) /\ 0 < r) /\
               forall k r,
                 In (k, r) (fun_ (last (CTMP.ts u) tmin)
                                 (last (CTMP.history u) state0)) ->
                 0 < r -> maxrate <= r)).
  apply (CTMP_while_ind fun_ maxrate tmax I R) in Hw.
  - exact (proj2 Hw).
  - intros u u' (Hwn & Hlt & Hls) _ Hb.
    apply CTMP_body_Continue in Hb. destruct Hb as [x [_ Hu']].
    rewrite Hu'. unfold I, CTMP.moved; cbn.
    rewrite !last_last. repeat split. exact Hwn.
  - intros u u' (Hwn & Hlt & Hls) _ Hb. apply CTMP_body_Break in Hb.
    destruct Hb as (Ht & Hs & Hts & Hhs & _ & [Hwarn|Hwarn]).
    + left. congruence.
    + right. destruct Hwarn as (Htr & Hcand & Hpos & Hwarn).
      rewrite Hts, Hhs, Hlt, Hls.
      split; [exact Htr|]. split; [rewrite Hwarn, Hwn; reflexivity|]. split.
      * destruct (positive_rates (fun_ (CTMP.t u) (CTMP.state u)))
          as [|[k r] ps] eqn:Ep; [congruence|].
        exists k, r. apply positive_rates_In. rewrite Ep. left. reflexivity.
      * intros k r Hin Hr.
        destruct (Qlt_le_dec r maxrate) as [Hlt'|Hle]; [|exact Hle].
        exfalso.
        assert (Hc : In (k, r) (CTMP.candidates fun_ maxrate u))
          by (apply CTMP_candidates_In; repeat split; try assumption;
              intros _; assumption).
        rewrite Hcand in Hc. exact Hc.
  - intros u (Hwn & _) _. left. exact Hwn.
  - repeat split.
Qed.

Lemma CTMP_warning_only_at_ceiling_witness :
  [CTMP.MaxRateExceeded 10 (0 + 1 / (6 * inject_Z 1) * 1)] = [] \/
  (CTMP.truthy 10 = true /\
   [CTMP.MaxRateExceeded 10 (0 + 1 / (6 * inject_Z 1) * 1)] =
     [CTMP.MaxRateExceeded 10 (last [0; 0 + 1 / (6 * inject_Z 1) * 1] 0)] /\
   (exists k r,
       In (k, r) (growth (last [0; 0 + 1 / (6 * inject_Z 1) * 1] 0)
                         (last [1%Z; 2%Z] 1%Z)) /\ 0 < r) /\
   forall k r,
     In (k, r) (growth (last [0; 0 + 1 / (6 * inject_Z 1) * 1] 0)
                       (last [1%Z; 2%Z] 1%Z)) ->
     0 < r -> 10 <= r).
Proof.
  apply (CTMP_warning_only_at_ceiling growth 10 2 0 5 1%Z ones
           [0; 0 + 1 / (6 * inject_Z 1) * 1] [1%Z; 2%Z]
           [CTMP.MaxRateExceeded 10 (0 + 1 / (6 * inject_Z 1) * 1)]).
  reflexivity.
Defined.

(** ** Resampling with [interp1d] *)

Lemma CTMP_evolution_resample {State : Type}
      (fun_ : Q -> State -> dict State Q) (maxrate : Q) (fuel : nat)
      (tmin tmax : Q) (state0 : State) (g : Rng)
      (ts : list Q) (history : list State) (w : list CTMP.warning)
      (qs : list Q) :
  CTMP.evolution fun_ maxrate fuel (tmin, tmax) state0 None g =
    Some (CTMP.Outcome (Ok (ts, history)) w) ->
  CTMP.evolution fun_ maxrate fuel (tmin, tmax) state0 (Some qs) g =
    Some (CTMP.Outcome
            (ys <- mapM (CTMP.interp1d_previous ts history) qs ;; Ok (qs, ys))
            w).
Proof.
  unfold CTMP.evolution.
  destruct (CTMP.while fun_ maxrate fuel tmax (CTMP.init tmin state0 g))
    as [[[e|] v]|]; try discriminate.
  intro H. inversion H; subst. reflexivity.
Qed.

Lemma CTMP_evolution_head {State : Type}
      (fun_ : Q -> State -> dict State Q) (maxrate : Q) (fuel : nat)
      (tmin tmax : Q) (state0 : State) (g : Rng)
      (ts : list Q) (history : list State) (w : list CTMP.warning) :
  CTMP.evolution fun_ maxrate fuel (tmin, tmax) state0 None g =
    Some (CTMP.Outcome (Ok (ts, history)) w) ->
  exists ts' history',
    ts = tmin :: ts' /\ history = state0 :: history' /\
    length ts' = length history'.
Proof.
  intro Hev. apply CTMP_evolution_returned in Hev.
  destruct Hev as [v (Hw & <- & <- & _)].
  set (I := fun u : CTMP.vars State =>
              exists ts' history',
                CTMP.ts u = tmin :: ts' /\
                CTMP.history u = state0 :: history' /\
                length ts' = length history').
  apply (CTMP_while_ind fun_ maxrate tmax I I) in Hw.
  - exact (proj2 Hw).
  - intros u u' (ts' & hs' & Hts & Hhs & Hlen) _ Hb.
    apply CTMP_body_Continue in Hb. destruct Hb as [x [_ Hu']].
    rewrite Hu'. unfold I, CTMP.moved; cbn. rewrite Hts, Hhs.
    exists (ts' ++ [CTMP.t u + x]), (hs' ++ [CTMP.state u']).
    repeat split. rewrite !length_app, Hlen. reflexivity.
  - intros u u' HI _ Hb. apply CTMP_body_Break in Hb.
    destruct Hb as (_ & _ & Hts & Hhs & _).
    unfold I in *. rewrite Hts, Hhs. exact HI.
  - intros u HI _. exact HI.
  - exists [], []. repeat split.
Qed.

Lemma interp1d_previous_raises {State : Type} (x : list Q) (y : list State)
      (q : Q) (e : exn) :
  CTMP.interp1d_previous x y q = Raise e -> e = ValueError.
Proof.
  unfold CTMP.interp1d_previous.
  destruct (negb (Nat.eqb (length x) (length y))); [congruence|].
  destruct x as [|x0 x]; [congruence|].
  destruct y as [|y0 y]; [congruence|].
  destruct (Qltb q x0); [congruence|].
  destruct (Qltb (last (x0 :: x) x0) q); [congruence|discriminate].
Qed.

Lemma mapM_raises {A B : Type} (f : A -> result B) (l : list A) (e : exn) :
  (forall x e', f x = Raise e' -> e' = e) ->
  (exists x, In x l /\ f x = Raise e) ->
  mapM f l = Raise e.
Proof.
  intros Honly. induction l as [|a l IH]; intros [x [Hin Hx]]; [destruct Hin|].
  cbn [mapM]. destruct (f a) as [b|e'] eqn:Ea; cbn [bind].
  - destruct Hin as [->|Hin]; [congruence|].
    rewrite IH by (exists x; split; assumption). reflexivity.
  - rewrite (Honly a e' Ea). reflexivity.
Qed.

(** Resampling outside the recorded times fails: when some time of
    [t_eval] is before [tmin] or after the last recorded time, the call
    with [t_eval] raises [ValueError] where the call without it returns
    the trajectory.  A run ends before [tmax] when it is absorbed or
    stopped by the ceiling. *)
Theorem CTMP_resample_out_of_range {State : Type}
        (fun_ : Q -> State -> dict State Q) (maxrate : Q) (fuel : nat)
        (tmin tmax : Q) (state0 : State) (g : Rng)
        (ts : list Q) (history : list State) (w : list CTMP.warning)
        (qs : list Q) :
  CTMP.evolution fun_ maxrate fuel (tmin, tmax) state0 None g =
    Some (CTMP.Outcome (Ok (ts, history)) w) ->
  (exists q, In q qs /\ (q < tmin \/ last ts tmin < q)) ->
  CTMP.evolution fun_ maxrate fuel (tmin, tmax) state0 (Some qs) g =
    Some (CTMP.Outcome (Raise ValueError) w).
Proof.
  intros Hev [q [Hin Hq]].
  rewrite (CTMP_evolution_resample _ _ _ _ _ _ _ _ _ _ qs Hev).
  apply CTMP_evolution_head in Hev.
  destruct Hev as (ts' & hs' & -> & -> & Hlen).
  rewrite (mapM_raises _ qs ValueError); [reflexivity| |].
  - intros x e. apply interp1d_previous_raises.
  - exists q. split; [exact Hin|].
    unfold CTMP.interp1d_previous. cbn [length]. rewrite Hlen, Nat.eqb_refl.
    cbn [negb].
    destruct (Qltb q tmin) eqn:E1; [reflexivity|].
    destruct Hq as [Hq|Hq].
    + apply Qltb_true in Hq. congruence.
    + apply Qltb_true in Hq. rewrite Hq. reflexivity.
Qed.

Lemma CTMP_resample_out_of_range_witness :
  CTMP.evolution decay 1000000 3 (0, 10) 2%Z (Some [1; 7]) (draws [2.4; 2.3]) =
    Some (CTMP.Outcome (Raise ValueError) []).
Proof.
  apply (CTMP_resample_out_of_range decay 1000000 3 0 10 2%Z
           (draws [2.4; 2.3]) [0; 24 # 20; 700 # 200] [2%Z; 1%Z; 0%Z] []
           [1; 7]).
  - vm_compute. reflexivity.
  - exists 7. split; [right; left; reflexivity|].
    right. reflexivity.
Defined.

(** In an ascending list the entries at or below [q] come first. *)
Lemma count_le_sorted (q : Q) (l : list Q) :
  StronglySorted Qlt l ->
  let c := length (filter (fun xi => Qle_bool xi q) l) in
  (c <= length l)%nat /\
  (forall i, (i < c)%nat -> nth i l 0 <= q) /\
  (forall i, (c <= i < length l)%nat -> q < nth i l 0).
Proof.
  induction 1 as [|a l Hs IH Ha]; cbn [filter length].
  - repeat split; intros; lia.
  - destruct IH as (IH1 & IH2 & IH3).
    destruct (Qle_bool a q) eqn:E.
    + apply Qle_bool_iff in E. cbn [length]. repeat split.
      * lia.
      * intros [|i] Hi; [exact E|]. cbn [nth]. apply IH2. lia.
      * intros [|i] Hi; [lia|]. cbn [nth]. apply IH3. lia.
    + assert (Hq : q < a).
      { apply Qnot_le_lt. intro Hle. apply Qle_bool_iff in Hle. congruence. }
      assert (Hnil : filter (fun xi => Qle_bool xi q) l = []).
      { clear IH1 IH2 IH3 Hs. induction l as [|b l IHl]; [reflexivity|].
        inversion Ha as [|? ? Hab Hal]; subst. cbn [filter].
        replace (Qle_bool b q) with false; [apply IHl; exact Hal|].
        symmetry. destruct (Qle_bool b q) eqn:Eb; [|reflexivity].
        apply Qle_bool_iff in Eb. exfalso.
        apply (Qlt_irrefl q).
        eapply Qlt_le_trans; [exact Hq|].
        eapply Qle_trans; [apply Qlt_le_weak; exact Hab|exact Eb]. }
      rewrite Hnil in *. cbn [length] in *. repeat split.
      * lia.
      * intros i Hi. lia.
      * intros [|i] Hi; [exact Hq|]. cbn [nth]. apply IH3. lia.
Qed.

(** Resampling inside the recorded times: with positive variates, when
    every time of [t_eval] lies between [tmin] and the last recorded
    time, the call returns [t_eval] and, for each of its times, the state
    recorded at the last event at or before it. *)
Theorem CTMP_resample_in_range {State : Type}
        (fun_ : Q -> State -> dict State Q) (maxrate : Q) (fuel : nat)
        (tmin tmax : Q) (state0 : State) (g : Rng)
        (ts : list Q) (history : list State) (w : list CTMP.warning)
        (qs : list Q) :
  (forall n, 0 < g n) ->
  CTMP.evolution fun_ maxrate fuel (tmin, tmax) state0 None g =
    Some (CTMP.Outcome (Ok (ts, history)) w) ->
  Forall (fun q => tmin <= q /\ q <= last ts tmin) qs ->
  exists ys,
    CTMP.evolution fun_ maxrate fuel (tmin, tmax) state0 (Some qs) g =
      Some (CTMP.Outcome (Ok (qs, ys)) w) /\
    Forall2
      (fun q y =>
         exists i,
           (i < length ts)%nat /\ y = nth i history state0 /\
           nth i ts 0 <= q /\
           ((S i < length ts)%nat -> q < nth (S i) ts 0))
      qs ys.
Proof.
  intros Hg Hev Hqs.
  rewrite (CTMP_evolution_resample _ _ _ _ _ _ _ _ _ _ qs Hev).
  assert (Hsorted : StronglySorted Qlt ts).
  { apply CTMP_evolution_returned in Hev.
    destruct Hev as [v (Hw & <- & _ & _)].
    apply trajectory_inv_while with (tmin := tmin) (state0 := state0) in Hw;
      [|apply trajectory_inv_init; exact Hg].
    apply Hw. }
  apply CTMP_evolution_head in Hev.
  destruct Hev as (ts' & hs' & -> & -> & Hlen).
  assert (Hone : forall q,
             tmin <= q /\ q <= last (tmin :: ts') tmin ->
             exists i,
               CTMP.interp1d_previous (tmin :: ts') (state0 :: hs') q =
                 Ok (nth i (state0 :: hs') state0) /\
               (i < length (tmin :: ts'))%nat /\
               nth i (tmin :: ts') 0 <= q /\
               ((S i < length (tmin :: ts'))%nat ->
                q < nth (S i) (tmin :: ts') 0)).
  { intros q [Hlo Hhi].
    unfold CTMP.interp1d_previous. cbn [length]. rewrite Hlen, Nat.eqb_refl.
    cbn [negb].
    replace (Qltb q tmin) with false by (symmetry; apply Qltb_false; exact Hlo).
    replace (Qltb (last (tmin :: ts') tmin) q) with false
      by (symmetry; apply Qltb_false; exact Hhi).
    destruct (count_le_sorted q (tmin :: ts') Hsorted) as (Hc1 & Hc2 & Hc3).
    set (c := length (filter (fun xi => Qle_bool xi q) (tmin :: ts'))) in *.
    assert (Hc0 : (1 <= c)%nat).
    { unfold c. cbn [filter].
      replace (Qle_bool tmin q) with true
        by (symmetry; apply Qle_bool_iff; exact Hlo).
      cbn. lia. }
    cbn [length] in Hc1, Hc3.
    replace (Nat.pred (Nat.max 1 (Nat.min c (S (length hs')))))
      with (c - 1)%nat by lia.
    exists (c - 1)%nat. split; [reflexivity|]. cbn [length].
    split; [lia|]. split; [apply Hc2; lia|].
    intro Hi. apply Hc3. lia. }
  clear Hsorted.
  induction Hqs as [|q qs Hq Hqs IH].
  - exists []. split; [reflexivity|constructor].
  - destruct IH as [ys [Hm Hall]].
    destruct (Hone q Hq) as [i (Hi1 & Hi2 & Hi3 & Hi4)].
    exists (nth i (state0 :: hs') state0 :: ys).
    cbn [mapM]. rewrite Hi1. cbn [bind].
    destruct (mapM (CTMP.interp1d_previous (tmin :: ts') (state0 :: hs')) qs)
      as [ys'|e] eqn:Em; cbn [bind] in Hm |- *; [|discriminate].
    inversion Hm; subst. split; [reflexivity|].
    constructor; [|exact Hall].
    exists i. repeat split; assumption.
Qed.

Lemma CTMP_resample_in_range_witness :
  exists ys,
    CTMP.evolution decay 1000000 3 (0, 10) 2%Z (Some [0; 1; 1.2; 2; 3.5])
                   (draws [2.4; 2.3]) =
      Some (CTMP.Outcome (Ok ([0; 1; 1.2; 2; 3.5], ys)) []) /\
    Forall2
      (fun q y =>
         exists i,
           (i < 3)%nat /\
           y = nth i [2%Z; 1%Z; 0%Z] 2%Z /\
           nth i [0; 24 # 20; 700 # 200] 0 <= q /\
           ((S i < 3)%nat ->
            q < nth (S i) [0; 24 # 20; 700 # 200] 0))
      [0; 1; 1.2; 2; 3.5] ys.
Proof.
  apply (CTMP_resample_in_range decay 1000000 3 0 10 2%Z
           (draws [2.4; 2.3]) [0; 24 # 20; 700 # 200] [2%Z; 1%Z; 0%Z] []
           [0; 1; 1.2; 2; 3.5]).
  - intro n. unfold draws.
    destruct n as [|[|[|n]]]; cbn; try reflexivity; destruct n; reflexivity.
  - vm_compute. reflexivity.
  - repeat constructor; cbn; unfold Qle; cbn; lia.
Defined.

(** ** Runs of the earlier [evolution] *)

Lemma CTMP0_first_entry_witness :
  hd_error [(0, 1%Z); (-1 # 2, 0%Z)] = Some (0, 1%Z).
Proof.
  apply (CTMP0_first_entry decay 2 (CTMP0.Times [-1; 1]) 1%Z (draws [1 # 2])).
  vm_compute. reflexivity.
Defined.

Lemma CTMP0_body_no_Throw {State : Type} (fun_ : Q -> State -> dict State Q)
      (v v' : CTMP0.vars State) (e : exn) :
  CTMP0.body fun_ v <> CTMP0.Throw e v'.
Proof.
  unfold CTMP0.body.
  destruct (positive_rates (fun_ (CTMP0.t v) (CTMP0.state v))) as [|p ps];
    [discriminate|].
  pose proof (times_to_move_fst (p :: ps) (CTMP0.rng v)) as Hfst.
  destruct (times_to_move (p :: ps) (CTMP0.rng v)) as [times g'].
  cbn [fst] in Hfst. subst times.
  destruct (py_min_nonempty (waiting_times (p :: ps) (CTMP0.rng v)))
    as [k [x E]].
  - intro Hnil. apply (f_equal (@length _)) in Hnil.
    rewrite waiting_times_length in Hnil. discriminate.
  - rewrite E. discriminate.
Qed.

Lemma CTMP0_while_ind {State : Type} (fun_ : Q -> State -> dict State Q)
      (tlast : Q) (I : CTMP0.vars State -> Prop) :
  (forall v v', I v -> Qltb (CTMP0.t v) tlast = true ->
                CTMP0.body fun_ v = CTMP0.Continue v' -> I v') ->
  forall fuel v r,
    I v -> CTMP0.while fun_ fuel tlast v = Some r ->
    fst r = None /\ I (snd r).
Proof.
  intros Hc. induction fuel as [|fuel IH]; intros v r Hv;
    cbn [CTMP0.while]; [discriminate|].
  destruct (Qltb (CTMP0.t v) tlast) eqn:Et.
  - destruct (CTMP0.body fun_ v) as [v1|v1|e v1] eqn:Ebody.
    + apply CTMP0_body_Break in Ebody. subst v1.
      intro H. inversion H; subst. cbn. split; [reflexivity|exact Hv].
    + apply IH. eapply Hc; eassumption.
    + exfalso. exact (CTMP0_body_no_Throw _ _ _ _ Ebody).
  - intro H. inversion H; subst. cbn. split; [reflexivity|exact Hv].
Qed.

Lemma CTMP0_evolution_returned {State : Type}
      (fun_ : Q -> State -> dict State Q) (fuel : nat) (ts : CTMP0.ts_arg)
      (state0 : State) (g : Rng) (traj : list (Q * State)) :
  CTMP0.evolution fun_ fuel ts state0 None g = Some (Ok traj) ->
  exists a t0 tlast v,
    CTMP0.times_of ts = Ok a /\ getitem a 0 = Ok t0 /\
    getitem a (-1) = Ok tlast /\
    CTMP0.while fun_ fuel tlast (CTMP0.init t0 state0 g) = Some (None, v) /\
    CTMP0.history v = traj.
Proof.
  unfold CTMP0.evolution.
  destruct (CTMP0.times_of ts) as [a|e] eqn:Ea; cbn [bind]; [|discriminate].
  destruct (getitem a 0) as [t0|e] eqn:E0; cbn [bind]; [|discriminate].
  destruct (getitem a (-1)) as [tlast|e] eqn:E1; cbn [bind]; [|discriminate].
  destruct (CTMP0.while fun_ fuel tlast (CTMP0.init t0 state0 g))
    as [[[e|] v]|] eqn:Hw; try discriminate.
  intro H. inversion H; subst.
  exists a, t0, tlast, v. repeat split; assumption.
Qed.

Lemma CTMP0_evolution_resample {State : Type}
      (fun_ : Q -> State -> dict State Q) (fuel : nat) (ts : CTMP0.ts_arg)
      (state0 : State) (g : Rng) (traj : list (Q * State)) (qs : list Q) :
  CTMP0.evolution fun_ fuel ts state0 None g = Some (Ok traj) ->
  CTMP0.evolution fun_ fuel ts state0 (Some qs) g =
    Some (CTMP0.resampled_history traj qs).
Proof.
  unfold CTMP0.evolution.
  destruct (a <- CTMP0.times_of ts ;; t0 <- getitem a 0 ;;
            tlast <- getitem a (-1) ;; Ok (t0, tlast)) as [[t0 tlast]|e];
    [|discriminate].
  destruct (CTMP0.while fun_ fuel tlast (CTMP0.init t0 state0 g))
    as [[[e|] v]|]; try discriminate.
  intro H. inversion H; subst. reflexivity.
Qed.

(** A sampled waiting time is not negative when the rates are positive
    and the variates are not negative. *)
Lemma waiting_times_nonneg {State : Type} (cands : dict State Q) :
  forall g,
    (forall n, 0 <= g n) ->
    (forall k r, In (k, r) cands -> 0 < r) ->
    forall k x, In (k, x) (waiting_times cands g) -> 0 <= x.
Proof.
  intros g Hg Hr k x Hin.
  unfold waiting_times in Hin.
  apply in_map_iff in Hin. destruct Hin as [[u [k' r]] [Heq Hin]].
  cbn [fst snd] in Heq. inversion Heq; subst; clear Heq.
  pose proof (in_combine_l _ _ _ _ Hin) as Hu.
  pose proof (in_combine_r _ _ _ _ Hin) as Hc.
  apply in_map_iff in Hu. destruct Hu as [n [Hn _]]. subst u.
  apply Qmult_le_0_compat; [|apply Hg].
  unfold Qdiv. rewrite Qmult_1_l.
  apply Qlt_le_weak. apply Qinv_lt_0_compat. exact (Hr _ _ Hc).
Qed.

Lemma StronglySorted_Qle_snoc (l : list Q) (a : Q) :
  StronglySorted Qle l ->
  Forall (fun y => y <= a) l ->
  StronglySorted Qle (l ++ [a]).
Proof.
  induction 1 as [|y l Hs IH Hy]; intro Hall; cbn [app].
  - constructor; constructor.
  - inversion Hall as [|? ? Hya Hla]; subst.
    constructor; [apply IH; exact Hla|].
    apply Forall_app. split; [exact Hy|].
    constructor; [exact Hya|constructor].
Qed.

(** When the first of the times [ts] is not negative (it is 0 when [ts]
    is a number) and no variate is negative, the trajectory the earlier
    [evolution] returns starts at time 0 in the initial state and its
    times never decrease.  (They need not increase: a step adds a waiting
    time that is not negative, and on doubles a small one can leave the
    time as it was.) *)
Theorem CTMP0_times_never_decrease {State : Type}
        (fun_ : Q -> State -> dict State Q) (fuel : nat) (ts : CTMP0.ts_arg)
        (state0 : State) (g : Rng) (t0 : Q) (traj : list (Q * State)) :
  (forall n, 0 <= g n) ->
  (a <- CTMP0.times_of ts ;; getitem a 0) = Ok t0 ->
  0 <= t0 ->
  CTMP0.evolution fun_ fuel ts state0 None g = Some (Ok traj) ->
  hd_error traj = Some (0, state0) /\
  StronglySorted Qle (map fst traj).
Proof.
  intros Hg Ht0 Hpos Hev.
  apply CTMP0_evolution_returned in Hev.
  destruct Hev as (a & t0' & tlast & v & Ha & Hfirst & _ & Hw & <-).
  rewrite Ha in Ht0. cbn [bind] in Ht0. rewrite Hfirst in Ht0.
  inversion Ht0; subst t0'. clear Ht0.
  set (I := fun u : CTMP0.vars State =>
              hd_error (CTMP0.history u) = Some (0, state0) /\
              StronglySorted Qle (map fst (CTMP0.history u)) /\
              Forall (fun x => x <= CTMP0.t u) (map fst (CTMP0.history u)) /\
              (forall n, 0 <= CTMP0.rng u n)).
  apply (CTMP0_while_ind fun_ tlast I) in Hw.
  - destruct Hw as [_ (H1 & H2 & _)]. split; assumption.
  - intros u u' (Hhd & Hsort & Hle & Hrng) _ Hb.
    apply CTMP0_body_Continue in Hb. destruct Hb as [x [[Hin _] Hu']].
    assert (Hx : 0 <= x).
    { apply (waiting_times_nonneg
               (positive_rates (fun_ (CTMP0.t u) (CTMP0.state u)))
               (CTMP0.rng u) Hrng) with (k := CTMP0.state u'); [|exact Hin].
      intros k r Hk. apply positive_rates_In in Hk. tauto. }
    assert (Hstep : CTMP0.t u <= CTMP0.t u + x).
    { rewrite <- (Qplus_0_r (CTMP0.t u)) at 1. apply Qplus_le_r. exact Hx. }
    assert (Hall : Forall (fun y => y <= CTMP0.t u + x)
                          (map fst (CTMP0.history u))).
    { eapply Forall_impl; [|exact Hle].
      intros y Hy. cbn in Hy. eapply Qle_trans; [exact Hy|exact Hstep]. }
    rewrite Hu'. unfold I; cbn. rewrite map_app. cbn [map fst].
    repeat split.
    + apply hd_error_snoc. exact Hhd.
    + apply StronglySorted_Qle_snoc; [exact Hsort|exact Hall].
    + apply Forall_app. split; [exact Hall|].
      constructor; [apply Qle_refl|constructor].
    + intro n. rewrite times_to_move_snd. apply Hrng.
  - unfold I, CTMP0.init; cbn. repeat split.
    + constructor; constructor.
    + constructor; [exact Hpos|constructor].
    + exact Hg.
Qed.

Lemma CTMP0_times_never_decrease_witness :
  hd_error [(0, 2%Z); (24 # 20, 1%Z); (700 # 200, 0%Z)] = Some (0, 2%Z) /\
  StronglySorted Qle (map fst [(0, 2%Z); (24 # 20, 1%Z); (700 # 200, 0%Z)]).
Proof.
  apply (CTMP0_times_never_decrease decay 3 (CTMP0.Times [0; 10]) 2%Z
           (draws [2.4; 2.3]) 0
           [(0, 2%Z); (24 # 20, 1%Z); (700 # 200, 0%Z)]).
  - intro n. unfold draws.
    destruct n as [|[|[|n]]]; cbn; try discriminate; destruct n; discriminate.
  - reflexivity.
  - apply Qle_refl.
  - vm_compute. reflexivity.
Defined.

Lemma resample_one {State : Type} (history : list (Q * State)) (q : Q) :
  (exists h, In h history /\ fst h <= q) ->
  exists tq s,
    (last_event <- py_max (filter (fun h => Qle_bool (fst h) q) history) ;;
     Ok (q, snd last_event)) = Ok (q, s) /\
    In (tq, s) history /\ tq <= q /\
    forall h, In h history -> fst h <= q -> fst h <= tq.
Proof.
  intros [h0 [Hin0 Hle0]].
  set (before := filter (fun h => Qle_bool (fst h) q) history).
  assert (Hbefore : forall h, In h before <-> In h history /\ fst h <= q).
  { intro h. unfold before. rewrite filter_In, Qle_bool_iff. reflexivity. }
  destruct before as [|b rest] eqn:Eb.
  - exfalso. apply (proj2 (Hbefore h0)). split; assumption.
  - cbn [py_max bind].
    destruct (max_from_spec rest b) as [Hin Hmax].
    destruct (max_from b rest) as [tq s] eqn:Em.
    exists tq, s. cbn [snd fst] in *.
    apply Hbefore in Hin. destruct Hin as [Hin Hle].
    repeat split; try assumption.
    intros h Hh Hhq. apply (Hmax h). apply Hbefore. split; assumption.
Qed.

(** Resampling at times that are not negative always succeeds, also after
    the last event: the call returns the times asked for, each with the
    state of a latest event at or before it.  (The first event is at
    time 0.) *)
Theorem CTMP0_resample_nonnegative {State : Type}
        (fun_ : Q -> State -> dict State Q) (fuel : nat) (ts : CTMP0.ts_arg)
        (state0 : State) (g : Rng) (traj : list (Q * State)) (qs : list Q) :
  CTMP0.evolution fun_ fuel ts state0 None g = Some (Ok traj) ->
  Forall (fun q => 0 <= q) qs ->
  exists r,
    CTMP0.evolution fun_ fuel ts state0 (Some qs) g = Some (Ok r) /\
    map fst r = qs /\
    Forall2
      (fun q e =>
         exists tq,
           In (tq, snd e) traj /\ tq <= q /\
           forall h, In h traj -> fst h <= q -> fst h <= tq)
      qs r.
Proof.
  intros Hev Hqs.
  rewrite (CTMP0_evolution_resample _ _ _ _ _ _ qs Hev).
  assert (Hhd : In (0, state0) traj).
  { pose proof (CTMP0_while_hd fun_) as Hhd.
    apply CTMP0_evolution_returned in Hev.
    destruct Hev as (a & t0 & tlast & v & _ & _ & _ & Hw & <-).
    apply (Hhd tlast (0, state0)) in Hw; [|reflexivity].
    destruct (CTMP0.history v); [discriminate|].
    inversion Hw; subst. left. reflexivity. }
  unfold CTMP0.resampled_history.
  induction Hqs as [|q qs Hq Hqs IH].
  - exists []. repeat split. constructor.
  - destruct IH as [r (Hr & Hfst & Hall)].
    destruct (resample_one traj q) as [tq [s (H1 & H2 & H3 & H4)]].
    { exists (0, state0). split; [exact Hhd|exact Hq]. }
    exists ((q, s) :: r). cbn [mapM]. rewrite H1. cbn [bind].
    inversion Hr as [Hr']. rewrite Hr'. cbn [bind map fst].
    split; [reflexivity|]. split; [rewrite Hfst; reflexivity|].
    constructor; [|exact Hall].
    exists tq. cbn [snd]. repeat split; assumption.
Qed.

Lemma CTMP0_resample_nonnegative_witness :
  exists r,
    CTMP0.evolution decay 3 (CTMP0.Times [0; 10]) 2%Z (Some [0; 1; 5])
                    (draws [2.4; 2.3]) = Some (Ok r) /\
    map fst r = [0; 1; 5] /\
    Forall2
      (fun q e =>
         exists tq,
           In (tq, snd e) [(0, 2%Z); (24 # 20, 1%Z); (700 # 200, 0%Z)] /\
           tq <= q /\
           forall h,
             In h [(0, 2%Z); (24 # 20, 1%Z); (700 # 200, 0%Z)] ->
             fst h <= q -> fst h <= tq)
      [0; 1; 5] r.
Proof.
  apply (CTMP0_resample_nonnegative decay 3 (CTMP0.Times [0; 10]) 2%Z
           (draws [2.4; 2.3])
           [(0, 2%Z); (24 # 20, 1%Z); (700 # 200, 0%Z)] [0; 1; 5]).
  - vm_compute. reflexivity.
  - repeat constructor; unfold Qle; cbn; lia.
Defined.

(** Resampling at a negative time fails: when the first of the times
    [ts] is not negative and the variates are positive, every event is at
    a time that is not negative, [max] is given an empty list and the
    call raises [ValueError]. *)
Theorem CTMP0_resample_negative {State : Type}
        (fun_ : Q -> State -> dict State Q) (fuel : nat) (ts : CTMP0.ts_arg)
        (state0 : State) (g : Rng) (t0 : Q) (traj : list (Q * State))
        (qs : list Q) :
  (forall n, 0 < g n) ->
  (a <- CTMP0.times_of ts ;; getitem a 0) = Ok t0 ->
  0 <= t0 ->
  CTMP0.evolution fun_ fuel ts state0 None g = Some (Ok traj) ->
  (exists q, In q qs /\ q < 0) ->
  CTMP0.evolution fun_ fuel ts state0 (Some qs) g = Some (Raise ValueError).
Proof.
  intros Hg Ht0 Hpos Hev [q [Hin Hq]].
  rewrite (CTMP0_evolution_resample _ _ _ _ _ _ qs Hev).
  assert (Hnonneg : Forall (fun h => 0 <= fst h) traj).
  { apply CTMP0_evolution_returned in Hev.
    destruct Hev as (a & t0' & tlast & v & Ha & Hfirst & _ & Hw & <-).
    rewrite Ha in Ht0. cbn [bind] in Ht0. rewrite Hfirst in Ht0.
    inversion Ht0; subst t0'. clear Ht0.
    set (I := fun u : CTMP0.vars State =>
                0 <= CTMP0.t u /\
                Forall (fun h => 0 <= fst h) (CTMP0.history u) /\
                (forall n, 0 < CTMP0.rng u n)).
    apply (CTMP0_while_ind fun_ tlast I) in Hw.
    - apply Hw.
    - intros u u' (Ht & Hall & Hrng) _ Hb.
      apply CTMP0_body_Continue in Hb. destruct Hb as [x [[Hx _] Hu']].
      assert (Hx0 : 0 < x).
      { apply (waiting_times_positive
                 (positive_rates (fun_ (CTMP0.t u) (CTMP0.state u)))
                 (CTMP0.rng u) Hrng) with (k := CTMP0.state u'); [|exact Hx].
        intros k r Hk. apply positive_rates_In in Hk. tauto. }
      assert (Hsum : 0 <= CTMP0.t u + x).
      { rewrite <- (Qplus_0_r 0).
        apply Qplus_le_compat; [exact Ht|apply Qlt_le_weak; exact Hx0]. }
      rewrite Hu'. unfold I; cbn. repeat split.
      + exact Hsum.
      + apply Forall_app. split; [exact Hall|].
        constructor; [exact Hsum|constructor].
      + intro n. rewrite times_to_move_snd. apply Hrng.
    - unfold I, CTMP0.init; cbn. repeat split.
      + exact Hpos.
      + constructor; [apply Qle_refl|constructor].
      + exact Hg. }
  unfold CTMP0.resampled_history.
  rewrite (mapM_raises _ qs ValueError); [reflexivity| |].
  - intros x e.
    destruct (py_max (filter (fun h => Qle_bool (fst h) x) traj))
      as [m|e'] eqn:E; cbn [bind]; [discriminate|].
    destruct (filter (fun h => Qle_bool (fst h) x) traj); cbn in E;
      [|discriminate].
    congruence.
  - exists q. split; [exact Hin|].
    replace (filter (fun h => Qle_bool (fst h) q) traj) with (@nil (Q * State));
      [reflexivity|].
    symmetry. clear Hev.
    induction Hnonneg as [|h traj Hh Hall IH]; [reflexivity|].
    cbn [filter].
    replace (Qle_bool (fst h) q) with false; [exact IH|].
    symmetry. destruct (Qle_bool (fst h) q) eqn:E; [|reflexivity].
    apply Qle_bool_iff in E. exfalso.
    apply (Qlt_irrefl q).
    eapply Qlt_le_trans; [exact Hq|].
    eapply Qle_trans; [exact Hh|exact E].
Qed.

Lemma CTMP0_resample_negative_witness :
  CTMP0.evolution decay 3 (CTMP0.Times [0; 10]) 2%Z (Some [1; -1])
                  (draws [2.4; 2.3]) = Some (Raise ValueError).
Proof.
  apply (CTMP0_resample_negative decay 3 (CTMP0.Times [0; 10]) 2%Z
           (draws [2.4; 2.3]) 0
           [(0, 2%Z); (24 # 20, 1%Z); (700 # 200, 0%Z)] [1; -1]).
  - intro n. unfold draws.
    destruct n as [|[|[|n]]]; cbn; try reflexivity; destruct n; reflexivity.
  - reflexivity.
  - apply Qle_refl.
  - vm_compute. reflexivity.
  - exists (-1). split; [right; left; reflexivity|reflexivity].
Defined.

(** A property of states that the initial state has and that every
    transition of positive rate keeps holds of every state of the
    trajectory the earlier [evolution] returns. *)
Theorem CTMP0_history_invariant {State : Type}
        (fun_ : Q -> State -> dict State Q) (fuel : nat) (ts : CTMP0.ts_arg)
        (state0 : State) (g : Rng) (traj : list (Q * State))
        (P : State -> Prop) :
  P state0 ->
  (forall t s k r, P s -> In (k, r) (fun_ t s) -> 0 < r -> P k) ->
  CTMP0.evolution fun_ fuel ts state0 None g = Some (Ok traj) ->
  Forall (fun h => P (snd h)) traj.
Proof.
  intros H0 Hstep Hev. apply CTMP0_evolution_returned in Hev.
  destruct Hev as (a & t0 & tlast & v & _ & _ & _ & Hw & <-).
  set (I := fun u : CTMP0.vars State =>
              P (CTMP0.state u) /\
              Forall (fun h => P (snd h)) (CTMP0.history u)).
  apply (CTMP0_while_ind fun_ tlast I) in Hw.
  - apply Hw.
  - intros u u' [Hs Hh] _ Hb.
    apply CTMP0_body_Continue in Hb. destruct Hb as [x [[Hin _] Hu']].
    apply waiting_times_keys in Hin. destruct Hin as [r Hr].
    apply positive_rates_In in Hr. destruct Hr as [Hr1 Hr2].
    pose proof (Hstep _ _ _ _ Hs Hr1 Hr2) as Hk.
    pose proof (f_equal CTMP0.history Hu') as Hhs'.
    cbn [CTMP0.history] in Hhs'.
    split; [exact Hk|]. rewrite Hhs'. apply Forall_app. split; [exact Hh|].
    constructor; [exact Hk|constructor].
  - split; [exact H0|]. constructor; [exact H0|constructor].
Qed.

Lemma CTMP0_history_invariant_witness :
  Forall (fun h : Q * Z => (0 <= snd h)%Z)
         [(0, 2%Z); (24 # 20, 1%Z); (700 # 200, 0%Z)].
Proof.
  apply (CTMP0_history_invariant decay 3 (CTMP0.Times [0; 10]) 2%Z
           (draws [2.4; 2.3])
           [(0, 2%Z); (24 # 20, 1%Z); (700 # 200, 0%Z)]
           (fun s => (0 <= s)%Z)).
  - lia.
  - intros t s k r Hs [H|[]] Hr. inversion H; subst.
    unfold Qlt in Hr. cbn in Hr. lia.
  - vm_compute. reflexivity.
Defined.

(** ** The transition functions of the demos *)

Lemma dict_set_In {K V : Type} (eqb : K -> K -> bool) (d : dict K V)
      (k0 : K) (v0 : V) (k : K) (v : V) :
  (forall a b, eqb a b = true -> a = b) ->
  In (k, v) (dict_set eqb d k0 v0) -> In (k, v) d \/ (k, v) = (k0, v0).
Proof.
  intro Hsound. induction d as [|[k' v'] d IH]; cbn [dict_set].
  - intros [H|[]]. right. congruence.
  - destruct (eqb k' k0) eqn:E.
    + apply Hsound in E. subst k'.
      intros [H|H]; [right; congruence|left; right; exact H].
    + intros [H|H]; [left; left; exact H|].
      destruct (IH H) as [H'|H']; [left; right; exact H'|right; exact H'].
Qed.

Lemma dict_of_In {K V : Type} (eqb : K -> K -> bool) (items : list (K * V))
      (k : K) (v : V) :
  (forall a b, eqb a b = true -> a = b) ->
  In (k, v) (dict_of eqb items) -> In (k, v) items.
Proof.
  intro Hsound. unfold dict_of.
  assert (H : forall d, In (k, v) (fold_left
                                     (fun d kv => dict_set eqb d (fst kv) (snd kv))
                                     items d) ->
                        In (k, v) d \/ In (k, v) items).
  { induction items as [|[k0 v0] items IH]; intros d Hin; cbn in *.
    - left. exact Hin.
    - destruct (IH _ Hin) as [H|H]; [|right; right; exact H].
      destruct (dict_set_In eqb d k0 v0 k v Hsound H) as [H'|H'].
      + left. exact H'.
      + right. left. congruence. }
  intro Hin. destruct (H [] Hin) as [[]|Hitems]. exact Hitems.
Qed.

Lemma Zeqb_sound (a b : Z) : (a =? b)%Z = true -> a = b.
Proof. apply Z.eqb_eq. Qed.

Lemma queue_eqb_sound (a b : queue_state) : queue_eqb a b = true -> a = b.
Proof.
  destruct a as [[a1 a2] a3], b as [[b1 b2] b3]. cbn.
  rewrite !andb_true_iff, !Z.eqb_eq. intros [[-> ->] ->]. reflexivity.
Qed.

Lemma rate_positive (a : Q) (z : Z) :
  0 <= a -> 0 < a * inject_Z z -> (0 < z)%Z.
Proof.
  destruct a as [n d]. unfold Qle, Qlt, Qmult, inject_Z. cbn.
  intros Ha H. nia.
Qed.

(** The queue keeps its shape along every run from the empty state
    [(0, 0, 0)], for a service rate and a number of servers that are not
    negative: no count goes below zero, no more than [n_servers] tickets
    are in progress, and tickets wait only while every server is busy. *)
Theorem queueing_process_invariant (in_rate out_rate : Q) (n_servers : Z)
        (maxrate : Q) (fuel : nat) (tmin tmax : Q) (g : Rng)
        (ts : list Q) (history : list queue_state) (w : list CTMP.warning) :
  0 <= out_rate ->
  (0 <= n_servers)%Z ->
  CTMP.evolution (queueing_transition_fun in_rate out_rate n_servers) maxrate
                 fuel (tmin, tmax) (0%Z, 0%Z, 0%Z) None g =
    Some (CTMP.Outcome (Ok (ts, history)) w) ->
  Forall (fun s : queue_state =>
            let '(todo, inprog, done) := s in
            (0 <= todo /\ 0 <= inprog <= n_servers /\ 0 <= done /\
             (0 < todo -> inprog = n_servers))%Z)
         history.
Proof.
  intros Hout Hn.
  apply CTMP_history_Forall.
  - cbn. lia.
  - intros t [[todo inprog] done] k r HP Hin Hr _.
    unfold queueing_transition_fun in Hin.
    assert (Harrive :
              forall k' r',
                In (k', r')
                   (if (inprog =? n_servers)%Z
                    then dict_set queue_eqb [] ((todo + 1)%Z, inprog, done)
                                  in_rate
                    else dict_set queue_eqb [] (todo, (inprog + 1)%Z, done)
                                  in_rate) ->
                let '(todo', inprog', done') := k' in
                (0 <= todo' /\ 0 <= inprog' <= n_servers /\ 0 <= done' /\
                 (0 < todo' -> inprog' = n_servers))%Z).
    { intros k' r' Hin'.
      destruct (inprog =? n_servers)%Z eqn:E; cbn in Hin';
        destruct Hin' as [Hin'|[]]; inversion Hin'; subst.
      - apply Z.eqb_eq in E. lia.
      - apply Z.eqb_neq in E. lia. }
    destruct (0 <? todo)%Z eqn:E;
      (apply dict_set_In in Hin; [|exact queue_eqb_sound]);
      (destruct Hin as [Hin|Hin]; [exact (Harrive _ _ Hin)|]);
      inversion Hin; subst.
    + apply Z.ltb_lt in E. lia.
    + apply Z.ltb_ge in E. apply rate_positive in Hr; [|exact Hout]. lia.
Qed.

(** Immigration and death: with a death rate [beta] that is not negative
    the population, started at a count that is not negative, never goes
    below zero, in [immigration_death_demo] and in
    [immigration_2_or_3_death_demo]. *)
Theorem immigration_death_nonnegative (l_1 l_2 l_3 beta : Q) (s0 : Z)
        (maxrate : Q) (fuel : nat) (tmin tmax : Q) (g : Rng)
        (ts : list Q) (history : list Z) (w : list CTMP.warning)
        (ts' : list Q) (history' : list Z) (w' : list CTMP.warning) :
  0 <= beta ->
  (0 <= s0)%Z ->
  (CTMP.evolution (immigration_death l_1 l_2 beta) maxrate fuel (tmin, tmax)
                  s0 None g = Some (CTMP.Outcome (Ok (ts, history)) w) ->
   Forall (fun s => (0 <= s)%Z) history) /\
  (CTMP.evolution (immigration_2_or_3_death l_2 l_3 beta) maxrate fuel
                  (tmin, tmax) s0 None g =
     Some (CTMP.Outcome (Ok (ts', history')) w') ->
   Forall (fun s => (0 <= s)%Z) history').
Proof.
  intros Hbeta Hs0. split.
  - apply CTMP_history_Forall; [exact Hs0|].
    intros t s k r HP Hin Hr _.
    apply dict_of_In in Hin; [|exact Zeqb_sound].
    destruct Hin as [H|[H|[H|[]]]]; inversion H; subst; try lia.
    apply rate_positive in Hr; [lia|exact Hbeta].
  - apply CTMP_history_Forall; [exact Hs0|].
    intros t s k r HP Hin Hr _.
    apply dict_of_In in Hin; [|exact Zeqb_sound].
    destruct Hin as [H|[H|[H|[]]]]; inversion H; subst; try lia.
    apply rate_positive in Hr; [lia|exact Hbeta].
Qed.

(** Immigration with the death rate [s * (s - 1)]: a population that
    starts at a count that is not negative never goes below zero, and one
    that starts at one or more never dies out, the death rate being zero
    at [s = 1]. *)
Theorem immigration_nonlinear_death_survives (r : Q) (s0 : Z)
        (maxrate : Q) (fuel : nat) (tmin tmax : Q) (g : Rng)
        (ts : list Q) (history : list Z) (w : list CTMP.warning) :
  CTMP.evolution (immigration_nonlinear_death r) maxrate fuel (tmin, tmax)
                 s0 None g = Some (CTMP.Outcome (Ok (ts, history)) w) ->
  ((0 <= s0)%Z -> Forall (fun s => (0 <= s)%Z) history) /\
  ((1 <= s0)%Z -> Forall (fun s => (1 <= s)%Z) history).
Proof.
  intro Hev. split; intro Hs0.
  - revert Hev. apply CTMP_history_Forall; [exact Hs0|].
    intros t s k r' HP Hin Hr _.
    apply dict_of_In in Hin; [|exact Zeqb_sound].
    destruct Hin as [H|[H|[]]]; inversion H; subst; try lia.
    unfold Qlt in Hr. cbn in Hr. nia.
  - revert Hev. apply CTMP_history_Forall; [exact Hs0|].
    intros t s k r' HP Hin Hr _.
    apply dict_of_In in Hin; [|exact Zeqb_sound].
    destruct Hin as [H|[H|[]]]; inversion H; subst; try lia.
    unfold Qlt in Hr. cbn in Hr. nia.
Qed.

Lemma queueing_process_invariant_witness :
  Forall (fun s : queue_state =>
            let '(todo, inprog, done) := s in
            (0 <= todo /\ 0 <= inprog <= 1 /\ 0 <= done /\
             (0 < todo -> inprog = 1))%Z)
         [(0%Z, 0%Z, 0%Z); (0%Z, 1%Z, 0%Z); (1%Z, 1%Z, 0%Z); (2%Z, 1%Z, 0%Z)].
Proof.
  apply (queueing_process_invariant 1 1 1 1000000 5 0 3 ones [0; 1; 2; 3]
           [(0%Z, 0%Z, 0%Z); (0%Z, 1%Z, 0%Z); (1%Z, 1%Z, 0%Z); (2%Z, 1%Z, 0%Z)]
           []).
  - discriminate.
  - lia.
  - vm_compute. reflexivity.
Defined.

Lemma immigration_death_nonnegative_witness :
  Forall (fun s => (0 <= s)%Z) [0%Z; 1%Z; 0%Z; 1%Z] /\
  Forall (fun s => (0 <= s)%Z) [0%Z; 2%Z; 1%Z; 3%Z; 2%Z; 1%Z].
Proof.
  pose proof (immigration_death_nonnegative
                1 1 1 1 0 1000000 10 0 3 (draws [1; 3; 3; 3; 1])
                [0; 1; 2; 3] [0%Z; 1%Z; 0%Z; 1%Z] []
                [0; 1; 3 # 2; 5 # 2; 17 # 6; 40 # 12]
                [0%Z; 2%Z; 1%Z; 3%Z; 2%Z; 1%Z] []
                ltac:(discriminate) ltac:(lia)) as [H1 H2].
  split.
  - apply H1. vm_compute. reflexivity.
  - apply H2. vm_compute. reflexivity.
Defined.

Lemma immigration_nonlinear_death_survives_witness :
  ((0 <= 1)%Z -> Forall (fun s => (0 <= s)%Z) [1%Z; 2%Z; 3%Z]) /\
  ((1 <= 1)%Z -> Forall (fun s => (1 <= s)%Z) [1%Z; 2%Z; 3%Z]).
Proof.
  apply (immigration_nonlinear_death_survives 2 1 1000000 5 0 1 ones
           [0; 1 # 2; 4 # 4] [1%Z; 2%Z; 3%Z] []).
  vm_compute. reflexivity.
Defined.

(** ** The singular demo *)





(** ** More on [discretise] and [d4dx4_mat] *)

(** A boundary-condition tag other than the supported ones is refused
    with [ValueError], by [discretise] (once the grid is built, so for
    two points or more) and by [d4dx4_mat]. *)
Theorem unsupported_bcs (xa xb : Q) (nx : Z) (dx : number) (bcs : string) :
  (2 <= nx)%Z ->
  bcs <> "periodic"%string ->
  bcs <> "dirichlet"%string ->
  bcs <> "neumann"%string ->
  discretise xa xb nx bcs = Raise ValueError /\
  d4dx4_mat nx dx bcs = Raise ValueError.
Proof.
  intros Hnx Hp Hd Hn.
  apply String.eqb_neq in Hp, Hd, Hn. split.
  - unfold discretise.
    destruct (linspace_ends xa xb nx Hnx)
      as [a (Hlin & _ & H0 & [x1 H1] & _)].
    rewrite Hlin. cbn [bind]. rewrite H1. cbn [bind]. rewrite H0. cbn [bind].
    rewrite Hp, Hd, Hn. reflexivity.
  - unfold d4dx4_mat.
    replace (nx <? 0)%Z with false by (symmetry; apply Z.ltb_ge; lia).
    rewrite Hd, Hp. reflexivity.
Qed.

Lemma unsupported_bcs_witness :
  discretise 0 1 5 "robin" = Raise ValueError /\
  d4dx4_mat 5 (NpFloat 1) "robin" = Raise ValueError.
Proof.
  apply (unsupported_bcs 0 1 5 (NpFloat 1) "robin");
    [lia|discriminate|discriminate|discriminate].
Defined.

(** The one-sided boundary rows need four columns: with two or three
    grid points [discretise] raises [ValueError] under the Dirichlet and
    the Neumann tag, and so does the [discretise] of the Orr-Sommerfeld
    notebook, which always writes those rows. *)
Theorem discretise_needs_four_points (xa xb : Q) (nx : Z) :
  (2 <= nx < 4)%Z ->
  discretise xa xb nx "dirichlet" = Raise ValueError /\
  discretise xa xb nx "neumann" = Raise ValueError /\
  OrrSommerfeld.discretise xa xb nx = Raise ValueError.
Proof.
  intro H.
  assert (Hcases : nx = 2%Z \/ nx = 3%Z) by lia.
  destruct Hcases as [-> | ->]; repeat split; reflexivity.
Qed.

Lemma discretise_needs_four_points_witness :
  discretise 0 1 3 "dirichlet" = Raise ValueError /\
  discretise 0 1 3 "neumann" = Raise ValueError /\
  OrrSommerfeld.discretise 0 1 3 = Raise ValueError.
Proof.
  apply (discretise_needs_four_points 0 1 3). lia.
Defined.

(** The points of [np.linspace] one by one. *)
Lemma linspace_points (start stop : Q) (num : Z) :
  (2 <= num)%Z ->
  exists a,
    linspace start stop num = Ok a /\
    length a = Z.to_nat num /\
    (forall i, (S i < Z.to_nat num)%nat ->
               nth i a 0 =
               inject_Z (Z.of_nat i) * ((stop - start) / inject_Z (num - 1))
               + start) /\
    nth (Z.to_nat num - 1) a 0 = stop /\
    last a 0 = stop.
Proof.
  intro Hnum. unfold linspace.
  replace (num <? 0)%Z with false by (symmetry; apply Z.ltb_ge; lia).
  replace (1 <? num)%Z with true by (symmetry; apply Z.ltb_lt; lia).
  set (f := fun i => inject_Z (Z.of_nat i) *
                     ((stop - start) / inject_Z (num - 1)) + start).
  set (n := Z.to_nat num).
  assert (Hn : (2 <= n)%nat) by lia.
  eexists. split; [reflexivity|].
  assert (Hrl : removelast (map f (seq 0 n)) = map f (seq 0 (n - 1))).
  { replace n with (S (n - 1)) at 1 by lia.
    rewrite seq_S, map_app. cbn [map]. apply removelast_last. }
  rewrite Hrl.
  assert (Hlen : length (map f (seq 0 (n - 1))) = (n - 1)%nat)
    by (rewrite length_map, length_seq; reflexivity).
  split; [rewrite length_app, Hlen; cbn; lia|]. split.
  - intros i Hi. rewrite app_nth1 by lia.
    rewrite (nth_map_seq f (n - 1) i 0) by lia. reflexivity.
  - split; [|apply last_last].
    rewrite app_nth2 by lia. rewrite Hlen, Nat.sub_diag. reflexivity.
Qed.

Lemma getitem_Ok_nth {A : Type} (l : list A) (i : nat) (x d : A) :
  getitem l (Z.of_nat i) = Ok x -> (i < length l)%nat /\ x = nth i l d.
Proof.
  unfold getitem.
  destruct (index (length l) (Z.of_nat i)) as [j|e] eqn:E; cbn [bind];
    [|discriminate].
  pose proof (index_lt _ _ _ E) as Hj.
  assert (Hji : j = i).
  { destruct (Z.ltb_spec (Z.of_nat i) (Z.of_nat (length l))) as [Hlt|Hge].
    - rewrite index_nonneg in E by lia. inversion E. lia.
    - exfalso. unfold index in E. cbv zeta in E.
      assert (E0 : (Z.of_nat i <? 0)%Z = false) by (apply Z.ltb_ge; lia).
      rewrite E0 in E. cbv iota in E. rewrite E0 in E.
      replace (Z.of_nat (length l) <=? Z.of_nat i)%Z with true in E
        by (symmetry; apply Z.leb_le; lia).
      discriminate E. }
  subst j. rewrite (nth_error_nth' l d Hj).
  intro H. inversion H. split; [exact Hj|reflexivity].
Qed.

(** What every branch of [discretise] returns as [xs] and [dx]. *)
Lemma discretise_Ok_grid (xa xb : Q) (nx : Z) (bcs : string) (g : grid) :
  discretise xa xb nx bcs = Ok g ->
  exists a,
    linspace xa xb nx = Ok a /\ (1 < length a)%nat /\
    xs g = a /\ dx g = nth 1 a 0 - nth 0 a 0.
Proof.
  unfold discretise.
  destruct (linspace xa xb nx) as [a|e] eqn:Ea; cbn [bind]; [|discriminate].
  destruct (getitem a 1) as [x1|e] eqn:E1; cbn [bind]; [|discriminate].
  destruct (getitem a 0) as [x0|e] eqn:E0; cbn [bind]; [|discriminate].
  apply (getitem_Ok_nth a 1 x1 0) in E1. destruct E1 as [Hlen ->].
  apply (getitem_Ok_nth a 0 x0 0) in E0. destruct E0 as [_ ->].
  intro H. exists a. split; [reflexivity|]. split; [exact Hlen|].
  destruct (String.eqb bcs "periodic").
  { inversion H; subst. split; reflexivity. }
  destruct (String.eqb bcs "dirichlet").
  { destruct (one_sided _ _ _) as [dd|e]; cbn [bind] in H; [|discriminate].
    inversion H; subst. split; reflexivity. }
  destruct (String.eqb bcs "neumann"); [|discriminate].
  destruct (assign_row _ 0 _) as [e1|e]; cbn [bind] in H; [|discriminate].
  destruct (assign_row _ (-1) _) as [e2|e]; cbn [bind] in H; [|discriminate].
  destruct (one_sided _ _ _) as [dd|e]; cbn [bind] in H; [|discriminate].
  inversion H; subst. split; reflexivity.
Qed.

(** The grid invariant: whenever [discretise] returns, there are two
    points or more, [xs] has [nx] points, the first is [xa] and the last
    is [xb] itself, and [dx] is the gap between the first two points,
    [xs[1] - xs[0]]. *)
Theorem discretise_grid (xa xb : Q) (nx : Z) (bcs : string) (g : grid) :
  discretise xa xb nx bcs = Ok g ->
  (2 <= nx)%Z /\
  length (xs g) = Z.to_nat nx /\
  nth 0 (xs g) 0 == xa /\
  last (xs g) 0 = xb /\
  dx g = nth 1 (xs g) 0 - nth 0 (xs g) 0.
Proof.
  intro H. apply discretise_Ok_grid in H.
  destruct H as [a (Hlin & Hlen & Hxs & Hdx)].
  assert (Hnx : (2 <= nx)%Z).
  { unfold linspace in Hlin.
    destruct (nx <? 0)%Z eqn:E; [discriminate|]. apply Z.ltb_ge in E.
    inversion Hlin as [Ha]. clear Hlin.
    destruct (1 <? nx)%Z eqn:E1; [apply Z.ltb_lt in E1; lia|].
    apply Z.ltb_ge in E1. rewrite <- Ha, length_map, length_seq in Hlen. lia. }
  destruct (linspace_points xa xb nx Hnx)
    as [a' (Hlin' & Hlen' & Hpts & _ & Hlast)].
  rewrite Hlin in Hlin'. inversion Hlin'; subst a'. clear Hlin'.
  rewrite Hxs. repeat split.
  - exact Hnx.
  - exact Hlen'.
  - rewrite (Hpts 0%nat) by lia.
    change (inject_Z (Z.of_nat 0)) with 0. ring.
  - exact Hlast.
  - exact Hdx.
Qed.

Lemma discretise_grid_witness :
  exists g,
    discretise 1 2 6 "dirichlet" = Ok g /\
    (2 <= 6)%Z /\
    length (xs g) = Z.to_nat 6 /\
    nth 0 (xs g) 0 == 1 /\
    last (xs g) 0 = 2 /\
    dx g = nth 1 (xs g) 0 - nth 0 (xs g) 0.
Proof.
  eexists. split; [vm_compute; reflexivity|].
  apply (discretise_grid 1 2 6 "dirichlet").
  vm_compute. reflexivity.
Defined.

(** ** The periodic operators *)

Lemma nth_map2 {A B C : Type} (f : A -> B -> C) (a : list A) :
  forall (b : list B) (i : nat) (da : A) (db : B) (dc : C),
    length a = length b -> (i < length a)%nat ->
    nth i (map2 f a b) dc = f (nth i a da) (nth i b db).
Proof.
  induction a as [|x a IH]; intros [|y b] i da db dc Hlen Hi; cbn in *;
    try lia.
  destruct i as [|i]; [reflexivity|].
  apply IH; lia.
Qed.

Lemma entry_map2 (f : Q -> Q -> Q) (n : nat) (a b : matrix) (i j : nat) :
  square n a -> square n b -> (i < n)%nat -> (j < n)%nat ->
  nth j (nth i (map2 (map2 f) a b) []) 0 =
  f (nth j (nth i a []) 0) (nth j (nth i b []) 0).
Proof.
  intros Ha Hb Hi Hj.
  rewrite (nth_map2 (map2 f) a b i [] [] []).
  - apply nth_map2.
    + rewrite (square_row n a i Ha Hi), (square_row n b i Hb Hi). reflexivity.
    + rewrite (square_row n a i Ha Hi). exact Hj.
  - destruct Ha as [-> _], Hb as [-> _]. reflexivity.
  - destruct Ha as [-> _]. exact Hi.
Qed.

Lemma entry_map (f : Q -> Q) (n : nat) (a : matrix) (i j : nat) :
  square n a -> (i < n)%nat -> (j < n)%nat ->
  nth j (nth i (map (map f) a) []) 0 = f (nth j (nth i a []) 0).
Proof.
  intros Ha Hi Hj.
  assert (Hrow : nth i (map (map f) a) [] = map f (nth i a [])).
  { change (@nil Q) with (map f []) at 1. apply map_nth. }
  rewrite Hrow.
  rewrite (nth_indep _ 0 (f 0))
    by (rewrite length_map, (square_row n a i Ha Hi); exact Hj).
  apply map_nth.
Qed.

(** Entry [(i, j)] of [np.roll(np.eye(n), shift, 1)]. *)
Lemma roll_eye_entry (n : nat) (shift : Z) (i j : nat) :
  (i < n)%nat -> (j < n)%nat ->
  nth j (nth i (np_roll (np_eye n) shift) []) 0 =
  if Nat.eqb i (Z.to_nat ((Z.of_nat j - shift) mod Z.of_nat n)) then 1 else 0.
Proof.
  intros Hi Hj. unfold np_roll.
  assert (Hrow : nth i (map (roll_row shift) (np_eye n)) [] =
                 roll_row shift (nth i (np_eye n) [])).
  { change (@nil Q) with (roll_row shift []) at 1. apply map_nth. }
  rewrite Hrow. unfold roll_row.
  rewrite (square_row n (np_eye n) i (np_eye_square n) Hi).
  rewrite (nth_map_seq _ n j 0 Hj).
  apply np_eye_entry; [exact Hi|].
  pose proof (Z.mod_pos_bound (Z.of_nat j - shift) (Z.of_nat n)). lia.
Qed.






(** ** [d4dx4_mat] outside the notebooks' use *)

(** With its default [dx = 1], or any other Python int, [d4dx4_mat]
    cannot build the Dirichlet matrix: row 0 is zeroed, and then the tuple
    [(1, -4, 6, -4, 1)] is divided by the int [dx**4], which raises
    [TypeError]. *)
Theorem d4dx4_int_dx_raises (nx z : Z) :
  (1 <= nx)%Z ->
  d4dx4_mat nx (PyInt z) "dirichlet" = Raise TypeError.
Proof.
  intro Hnx. unfold d4dx4_mat.
  replace (nx <? 0)%Z with false by (symmetry; apply Z.ltb_ge; lia).
  change (String.eqb "dirichlet" "dirichlet") with true. cbv iota.
  set (n := Z.to_nat nx).
  set (m := mdiv _ _).
  assert (Hm : square n m).
  { unfold m. apply mdiv_square.
    repeat (apply madd_square || apply msub_square || apply mscale_square
            || apply np_roll_square || apply np_eye_square). }
  assert (Hi : index n 0 = Ok 0%nat) by (apply index_nonneg; lia).
  rewrite (assign_zero_all n m 0 0 Hm Hi).
  reflexivity.
Qed.

Lemma d4dx4_int_dx_raises_witness :
  d4dx4_mat 7 (PyInt 1) "dirichlet" = Raise TypeError.
Proof.
  apply (d4dx4_int_dx_raises 7 1). lia.
Defined.

(** The forward stencil of row 0 needs five columns: with one to four
    grid points the Dirichlet branch of [d4dx4_mat] raises [ValueError],
    and with none [IndexError], there being no row 0. *)
Theorem d4dx4_needs_five_points (nx : Z) (q : Q) :
  (0 <= nx < 5)%Z ->
  d4dx4_mat nx (NpFloat q) "dirichlet" =
  Raise (if (nx =? 0)%Z then IndexError else ValueError).
Proof.
  intro H.
  assert (Hcases : nx = 0%Z \/ nx = 1%Z \/ nx = 2%Z \/ nx = 3%Z \/ nx = 4%Z)
    by lia.
  destruct Hcases as [-> | [-> | [-> | [-> | ->]]]]; reflexivity.
Qed.

Lemma d4dx4_needs_five_points_witness :
  d4dx4_mat 4 (NpFloat 1) "dirichlet" =
  Raise (if (4 =? 0)%Z then IndexError else ValueError).
Proof.
  apply (d4dx4_needs_five_points 4 1). lia.
Defined.

(** ** Why a run ends *)

(** A run of [evolution] ends for one of three reasons: the last recorded
    time has reached [tmax]; no transition from the last recorded state
    has a positive rate; or every positive rate there is at the ceiling
    or above, and then the warning has been issued. *)
Theorem CTMP_stop_reason {State : Type}
        (fun_ : Q -> State -> dict State Q) (maxrate : Q) (fuel : nat)
        (tmin tmax : Q) (state0 : State) (g : Rng)
        (ts : list Q) (history : list State) (w : list CTMP.warning) :
  CTMP.evolution fun_ maxrate fuel (tmin, tmax) state0 None g =
    Some (CTMP.Outcome (Ok (ts, history)) w) ->
  tmax <= last ts tmin \/
  (forall k r, In (k, r) (fun_ (last ts tmin) (last history state0)) ->
               r <= 0) \/
  w = [CTMP.MaxRateExceeded maxrate (last ts tmin)].
Proof.
  intro Hev. apply CTMP_evolution_returned in Hev.
  destruct Hev as [v (Hw & <- & <- & <-)].
  set (I := fun u : CTMP.vars State =>
              CTMP.warned u = [] /\
              last (CTMP.ts u) tmin = CTMP.t u /\
              last (CTMP.history u) state0 = CTMP.state u).
  set (R := fun u : CTMP.vars State =>
              tmax <= last (CTMP.ts u) tmin \/
              (forall k r,
                  In (k, r) (fun_ (last (CTMP.ts u) tmin)
                                  (last (CTMP.history u) state0)) ->
                  r <= 0) \/
              CTMP.warned u =
                [CTMP.MaxRateExceeded maxrate (last (CTMP.ts u) tmin)]).
  apply (CTMP_while_ind fun_ maxrate tmax I R) in Hw.
  - exact (proj2 Hw).
  - intros u u' (Hwn & Hlt & Hls) _ Hb.
    apply CTMP_body_Continue in Hb. destruct Hb as [x [_ Hu']].
    rewrite Hu'. unfold I, CTMP.moved; cbn.
    rewrite !last_last. repeat split. exact Hwn.
  - intros u u' (Hwn & Hlt & Hls) _ Hb.
    rewrite CTMP_body_unfold in Hb.
    destruct (positive_rates (fun_ (CTMP.t u) (CTMP.state u)))
      as [|p ps] eqn:Ep.
    + inversion Hb; subst u'. right. left. rewrite Hlt, Hls.
      intros k r Hin.
      destruct (Qlt_le_dec 0 r) as [Hpos|Hle]; [|exact Hle].
      exfalso.
      assert (Hc : In (k, r) (positive_rates (fun_ (CTMP.t u) (CTMP.state u))))
        by (apply positive_rates_In; split; assumption).
      rewrite Ep in Hc. exact Hc.
    + destruct (CTMP.candidates fun_ maxrate u) as [|c rest] eqn:E.
      * inversion Hb; subst u'. right. right. cbn.
        rewrite Hwn, Hlt. reflexivity.
      * destruct (CTMP_move_nonempty (c :: rest) u) as [v1 H1];
          [discriminate|].
        rewrite H1 in Hb. discriminate Hb.
  - intros u (_ & Hlt & _) Ht. left. rewrite Hlt.
    apply Qltb_false. exact Ht.
  - repeat split.
Qed.

Lemma CTMP_stop_reason_witness :
  10 <= last [0; 24 # 20; 700 # 200] 0 \/
  (forall k r,
      In (k, r) (decay (last [0; 24 # 20; 700 # 200] 0)
                       (last [2%Z; 1%Z; 0%Z] 2%Z)) -> r <= 0) \/
  [] = [CTMP.MaxRateExceeded 1000000 (last [0; 24 # 20; 700 # 200] 0)].
Proof.
  apply (CTMP_stop_reason decay 1000000 3 0 10 2%Z (draws [2.4; 2.3])
           [0; 24 # 20; 700 # 200] [2%Z; 1%Z; 0%Z] []).
  vm_compute. reflexivity.
Defined.

(** ** The lattice oscillator *)

Lemma sho_items (t : Q) (x y : Z) :
  sho_transition_fun t (x, y) =
  [((x + 1, y)%Z, inject_Z y); ((x - 1, y)%Z, inject_Z (- y));
   ((x, y + 1)%Z, inject_Z (- x)); ((x, y - 1)%Z, inject_Z x)].
Proof.
  unfold sho_transition_fun, dict_of, point_eqb.
  cbn [fold_left dict_set fst snd].
  repeat (match goal with
          | |- context [(?a =? ?b)%Z] => destruct (Z.eqb_spec a b); try lia
          end;
          cbn [andb dict_set fst snd]).
  reflexivity.
Qed.

(** The origin is the only state of the lattice oscillator where the run
    comes to rest: everywhere else some transition has a positive rate. *)
Theorem sho_rest_only_at_origin (t : Q) (x y : Z) :
  (forall k r, In (k, r) (sho_transition_fun t (x, y)) -> r <= 0) <->
  (x = 0 /\ y = 0)%Z.
Proof.
  rewrite sho_items. split.
  - intro H.
    pose proof (H _ _ (or_introl eq_refl)) as H1.
    pose proof (H _ _ (or_intror (or_introl eq_refl))) as H2.
    pose proof (H _ _ (or_intror (or_intror (or_introl eq_refl)))) as H3.
    pose proof (H _ _ (or_intror (or_intror (or_intror (or_introl eq_refl)))))
      as H4.
    unfold Qle in H1, H2, H3, H4. cbn in H1, H2, H3, H4. lia.
  - intros [-> ->] k r [H|[H|[H|[H|[]]]]]; inversion H; subst;
      unfold Qle; cbn; lia.
Qed.

Lemma sho_rest_only_at_origin_witness :
  (forall k r, In (k, r) (sho_transition_fun 0 (3, 0)%Z) -> r <= 0) <->
  (3 = 0 /\ 0 = 0)%Z.
Proof.
  apply (sho_rest_only_at_origin 0 3 0).
Defined.

(** ** Padding a matrix *)

Lemma nth_np_zeros (c r i : nat) :
  (i < r)%nat -> nth i (np_zeros r c) [] = repeat 0 c.
Proof.
  unfold np_zeros. revert i. induction r as [|r IH]; intros i Hi; [lia|].
  destruct i as [|i]; [reflexivity|]. cbn. apply IH. lia.
Qed.

Lemma length_np_zeros (r c : nat) : length (np_zeros r c) = r.
Proof. apply repeat_length. Qed.

Lemma length_hstack3 (a b c : matrix) (n : nat) :
  length a = n -> length b = n -> length c = n ->
  length (hstack3 a b c) = n.
Proof.
  intros Ha Hb Hc. unfold hstack3.
  rewrite !length_map2; rewrite ?length_map2; lia.
Qed.

Lemma nth_hstack3 (a b c : matrix) (n i : nat) :
  length a = n -> length b = n -> length c = n -> (i < n)%nat ->
  nth i (hstack3 a b c) [] = nth i a [] ++ nth i b [] ++ nth i c [].
Proof.
  intros Ha Hb Hc Hi. unfold hstack3.
  rewrite (nth_map2 (@app Q) (map2 (@app Q) a b) c i [] [] [])
    by (rewrite length_map2; lia).
  rewrite (nth_map2 (@app Q) a b i [] [] []) by lia.
  rewrite <- app_assoc. reflexivity.
Qed.

Lemma forallb_square (n : nat) (m : matrix) :
  square n m -> forallb (fun row => (length row =? length m)%nat) m = true.
Proof.
  intros [Hlen Hrows]. apply forallb_forall. intros row Hin.
  apply Nat.eqb_eq. rewrite Hlen.
  rewrite Forall_forall in Hrows. apply Hrows. exact Hin.
Qed.

(** The rows of the padded matrix. *)
Lemma augment_rows (n p : nat) (mat : matrix) (i : nat) :
  square n mat -> (i < p + n + p)%nat ->
  nth i (hstack3 (np_zeros p p) (np_zeros p n) (np_zeros p p)
         ++ hstack3 (np_zeros n p) mat (np_zeros n p)
         ++ hstack3 (np_zeros p p) (np_zeros p n) (np_zeros p p)) [] =
  if (p <=? i)%nat && (i <? p + n)%nat
  then repeat 0 p ++ nth (i - p) mat [] ++ repeat 0 p
  else repeat 0 p ++ repeat 0 n ++ repeat 0 p.
Proof.
  intros Hsq Hi. pose proof Hsq as [Hlen _].
  assert (Ltop : length (hstack3 (np_zeros p p) (np_zeros p n) (np_zeros p p))
                 = p)
    by (apply length_hstack3; apply length_np_zeros).
  assert (Lmid : length (hstack3 (np_zeros n p) mat (np_zeros n p)) = n)
    by (apply length_hstack3; [apply length_np_zeros|exact Hlen
                               |apply length_np_zeros]).
  destruct (Nat.leb_spec p i) as [Hp|Hp]; cbn [andb].
  - rewrite app_nth2 by lia. rewrite Ltop.
    destruct (Nat.ltb_spec i (p + n)) as [Hn|Hn].
    + rewrite app_nth1 by lia.
      rewrite (nth_hstack3 _ _ _ n) by
        (try apply length_np_zeros; try exact Hlen; lia).
      rewrite !nth_np_zeros by lia. reflexivity.
    + rewrite app_nth2 by lia. rewrite Lmid.
      rewrite (nth_hstack3 _ _ _ p) by (try apply length_np_zeros; lia).
      rewrite !nth_np_zeros by lia. reflexivity.
  - rewrite app_nth1 by lia.
    rewrite (nth_hstack3 _ _ _ p) by (try apply length_np_zeros; lia).
    rewrite !nth_np_zeros by lia. reflexivity.
Qed.

(** [augment] puts a square matrix in the middle of a frame of zeros:
    for an [n] by [n] matrix and a width [pad] that is not negative, the
    result is [n + 2 pad] by [n + 2 pad], its entry [(i, j)] is entry
    [(i - pad, j - pad)] of the matrix where that exists, and 0 on the
    [pad] outer rows and columns of each side. *)
Theorem augment_frame (n : nat) (mat : matrix) (pad : Z) :
  square n mat ->
  (0 <= pad)%Z ->
  exists m,
    augment mat pad = Ok m /\
    square (Z.to_nat pad + n + Z.to_nat pad) m /\
    forall i j,
      (i < Z.to_nat pad + n + Z.to_nat pad)%nat ->
      (j < Z.to_nat pad + n + Z.to_nat pad)%nat ->
      nth j (nth i m []) 0 =
      if (Z.to_nat pad <=? i)%nat && (i <? Z.to_nat pad + n)%nat &&
         ((Z.to_nat pad <=? j)%nat && (j <? Z.to_nat pad + n)%nat)
      then nth (j - Z.to_nat pad) (nth (i - Z.to_nat pad) mat []) 0
      else 0.
Proof.
  intros Hsq Hpad. pose proof Hsq as [Hlen Hrows].
  unfold augment.
  replace (pad <? 0)%Z with false by (symmetry; apply Z.ltb_ge; lia).
  rewrite (forallb_square n mat Hsq). rewrite Hlen.
  set (p := Z.to_nat pad).
  eexists. split; [reflexivity|].
  assert (Hzero : forall j, nth j (repeat 0 p ++ repeat 0 n ++ repeat 0 p) 0 = 0).
  { intro j. rewrite <- !repeat_app. apply nth_repeat. }
  split.
  - split.
    + rewrite !length_app.
      rewrite !(length_hstack3 _ _ _ p) by apply length_np_zeros.
      rewrite (length_hstack3 _ _ _ n)
        by (try apply length_np_zeros; exact Hlen).
      lia.
    + apply Forall_nth. intros i d Hi.
      rewrite !length_app in Hi.
      rewrite !(length_hstack3 _ _ _ p) in Hi by apply length_np_zeros.
      rewrite (length_hstack3 _ _ _ n) in Hi
        by (try apply length_np_zeros; exact Hlen).
      rewrite (nth_indep _ d [])
        by (rewrite !length_app;
            rewrite !(length_hstack3 _ _ _ p) by apply length_np_zeros;
            rewrite (length_hstack3 _ _ _ n)
              by (try apply length_np_zeros; exact Hlen);
            lia).
      rewrite (augment_rows n p mat i Hsq) by lia.
      destruct ((p <=? i)%nat && (i <? p + n)%nat) eqn:E.
      * apply andb_true_iff in E. destruct E as [E1 E2].
        apply Nat.leb_le in E1. apply Nat.ltb_lt in E2.
        rewrite !length_app, !repeat_length.
        rewrite (square_row n mat (i - p) Hsq) by lia. lia.
      * rewrite !length_app, !repeat_length. lia.
  - intros i j Hi Hj.
    rewrite (augment_rows n p mat i Hsq Hi).
    destruct ((p <=? i)%nat && (i <? p + n)%nat) eqn:E; cbn [andb];
      [|apply Hzero].
    apply andb_true_iff in E. destruct E as [E1 E2].
    apply Nat.leb_le in E1. apply Nat.ltb_lt in E2.
    assert (Hrow : length (nth (i - p) mat []) = n)
      by (apply (square_row n mat (i - p) Hsq); lia).
    destruct (Nat.leb_spec p j) as [Hp|Hp]; cbn [andb].
    + rewrite app_nth2 by (rewrite repeat_length; lia).
      rewrite repeat_length.
      destruct (Nat.ltb_spec j (p + n)) as [Hn|Hn].
      * rewrite app_nth1 by lia. reflexivity.
      * rewrite app_nth2 by lia. apply nth_repeat.
    + rewrite app_nth1 by (rewrite repeat_length; lia). apply nth_repeat.
Qed.

Lemma augment_frame_witness :
  exists m,
    augment [[1; 2]; [3; 4]] 2 = Ok m /\
    square (Z.to_nat 2 + 2 + Z.to_nat 2) m /\
    forall i j,
      (i < Z.to_nat 2 + 2 + Z.to_nat 2)%nat ->
      (j < Z.to_nat 2 + 2 + Z.to_nat 2)%nat ->
      nth j (nth i m []) 0 =
      if (Z.to_nat 2 <=? i)%nat && (i <? Z.to_nat 2 + 2)%nat &&
         ((Z.to_nat 2 <=? j)%nat && (j <? Z.to_nat 2 + 2)%nat)
      then nth (j - Z.to_nat 2) (nth (i - Z.to_nat 2) [[1; 2]; [3; 4]] []) 0
      else 0.
Proof.
  apply (augment_frame 2 [[1; 2]; [3; 4]] 2).
  - split; [reflexivity|]. repeat constructor.
  - lia.
Defined.

(** [augment] refuses a negative width, and a matrix that is not square,
    with [ValueError]. *)
Theorem augment_rejects (mat : matrix) (pad : Z) :
  (pad < 0)%Z \/ (exists row, In row mat /\ length row <> length mat) ->
  augment mat pad = Raise ValueError.
Proof.
  intro H. unfold augment.
  destruct (Z.ltb_spec pad 0) as [Hneg|Hpos]; [reflexivity|].
  destruct H as [H|[row [Hin Hlen]]]; [lia|].
  destruct (forallb (fun row => (length row =? length mat)%nat) mat) eqn:E;
    [|reflexivity].
  exfalso. rewrite forallb_forall in E. specialize (E row Hin).
  apply Nat.eqb_eq in E. exact (Hlen E).
Qed.

Lemma augment_rejects_witness :
  augment [[1; 2; 3]; [4; 5; 6]] 2 = Raise ValueError.
Proof.
  apply (augment_rejects [[1; 2; 3]; [4; 5; 6]] 2).
  right. exists [1; 2; 3]. split; [left; reflexivity|discriminate].
Defined.

(** ** Folding a harmonic into one octave *)

Lemma pow2_positive (k : nat) : 0 < inject_Z (2 ^ Z.of_nat k).
Proof.
  change 0 with (inject_Z 0). rewrite <- Zlt_Qlt.
  apply Z.pow_pos_nonneg; lia.
Qed.

Lemma pow2_succ (k : nat) :
  inject_Z (2 ^ Z.of_nat (S k)) == 2 * inject_Z (2 ^ Z.of_nat k).
Proof.
  rewrite Nat2Z.inj_succ, Z.pow_succ_r by lia.
  rewrite inject_Z_mult. reflexivity.
Qed.

(** The loop of [jifreq] ends, after [k] halvings, in the band from 2
    (excluded, once a halving took place) to 4. *)
Lemma halve_above_4_returns (n : nat) :
  forall mode,
    mode <= inject_Z (Z.of_nat n) + 4 ->
    exists m k,
      halve_above_4 (S n) mode = Some m /\
      m == mode / inject_Z (2 ^ Z.of_nat k) /\
      m <= 4 /\
      (4 < mode -> 2 < m) /\
      (mode <= 4 -> m = mode).
Proof.
  induction n as [|n IH]; intros mode Hmode.
  - cbn [halve_above_4].
    assert (H4 : mode <= 4)
      by (change (inject_Z (Z.of_nat 0)) with 0 in Hmode; lra).
    replace (Qltb 4 mode) with false by (symmetry; apply Qltb_false; exact H4).
    exists mode, 0%nat. repeat split; try assumption.
    + cbn. field.
    + intro H. lra.
  - cbn [halve_above_4]. fold (halve_above_4 (S n)).
    destruct (Qltb 4 mode) eqn:E.
    + apply Qltb_true in E.
      assert (Hhalf : mode / 2 <= inject_Z (Z.of_nat n) + 4).
      { rewrite Nat2Z.inj_succ in Hmode. unfold Z.succ in Hmode.
        rewrite inject_Z_plus in Hmode.
        assert (H0 : 0 <= inject_Z (Z.of_nat n))
          by (change 0 with (inject_Z 0); rewrite <- Zle_Qle; lia).
        assert (Hm : mode / 2 == mode * (1 # 2)) by field.
        rewrite Hm. change (inject_Z 1) with 1 in Hmode. lra. }
      destruct (IH (mode / 2) Hhalf) as (m & k & Hrun & Hm & Hle & Hgt & Hsame).
      exists m, (S k). repeat split.
      * exact Hrun.
      * rewrite Hm, pow2_succ. pose proof (pow2_positive k) as Hp.
        field. intro Hz. rewrite Hz in Hp. exact (Qlt_irrefl 0 Hp).
      * exact Hle.
      * intros _.
        destruct (Qlt_le_dec 4 (mode / 2)) as [Hbig|Hsmall].
        -- exact (Hgt Hbig).
        -- rewrite (Hsame Hsmall).
           assert (Hm' : mode / 2 == mode * (1 # 2)) by field.
           rewrite Hm'. lra.
      * intro H. lra.
    + apply Qltb_false in E.
      exists mode, 0%nat. repeat split; try assumption.
      * cbn. field.
      * intro H. lra.
Qed.

(** [jifreq] returns for every harmonic number: the harmonic is halved
    [k] times, a harmonic of 4 or less is left as it is, and a harmonic
    above 4 is brought into the octave from [2 * base] (excluded) to
    [4 * base]. *)
Theorem jifreq_octave (mode : Q) :
  exists fuel f k,
    jifreq fuel mode = Some f /\
    f == base * mode / inject_Z (2 ^ Z.of_nat k) /\
    (mode <= 4 -> f = base * mode) /\
    (4 < mode -> 2 * base < f /\ f <= 4 * base).
Proof.
  set (n := Z.to_nat (Qceiling mode)).
  assert (Hn : mode <= inject_Z (Z.of_nat n) + 4).
  { pose proof (Qle_ceiling mode) as Hc.
    assert (Hz : inject_Z (Qceiling mode) <= inject_Z (Z.of_nat n))
      by (rewrite <- Zle_Qle; unfold n; lia).
    lra. }
  destruct (halve_above_4_returns n mode Hn)
    as (m & k & Hrun & Hm & Hle & Hgt & Hsame).
  exists (S n), (base * m), k. unfold jifreq. rewrite Hrun.
  pose proof (pow2_positive k) as Hp.
  repeat split.
  - rewrite Hm. field. intro Hz. rewrite Hz in Hp. exact (Qlt_irrefl 0 Hp).
  - intro H. rewrite (Hsame H). reflexivity.
  - specialize (Hgt H). unfold base. lra.
  - unfold base. lra.
Qed.

Lemma jifreq_octave_witness :
  exists fuel f k,
    jifreq fuel 10 = Some f /\
    f == base * 10 / inject_Z (2 ^ Z.of_nat k) /\
    (10 <= 4 -> f = base * 10) /\
    (4 < 10 -> 2 * base < f /\ f <= 4 * base).
Proof.
  apply (jifreq_octave 10).
Defined.

(** ** The rows that [discretise] writes *)

(** The [discretise] of the Orr-Sommerfeld notebook is the Dirichlet
    branch of the [discretise] with boundary conditions. *)
Theorem discretise_versions_agree (xa xb : Q) (nx : Z) :
  OrrSommerfeld.discretise xa xb nx = discretise xa xb nx "dirichlet".
Proof. reflexivity. Qed.

Lemma set_nth_twice {A : Type} (l : list A) :
  forall j x y, set_nth j y (set_nth j x l) = set_nth j y l.
Proof.
  induction l as [|z l IH]; intros [|j] x y; cbn; try reflexivity.
  rewrite IH. reflexivity.
Qed.

Lemma assign_zero_from (n : nat) (m : matrix) :
  square n m -> (4 <= n)%nat ->
  assign_row m 0 (zero_from 4) =
  Ok (set_nth 0 (firstn 4 (nth 0 m []) ++ repeat 0 (n - 4)) m).
Proof.
  intros Hsq Hn. apply assign_row_eq.
  - destruct Hsq as [-> _]. apply index_nonneg. lia.
  - unfold zero_from. rewrite (square_row n m 0 Hsq) by lia. reflexivity.
Qed.

Lemma assign_first_stencil (n : nat) (m : matrix) (v : list Q) :
  square n m -> (4 <= n)%nat -> length v = 4%nat ->
  assign_row (set_nth 0 (firstn 4 (nth 0 m []) ++ repeat 0 (n - 4)) m) 0
             (set_first v) =
  Ok (set_nth 0 (v ++ repeat 0 (n - 4)) m).
Proof.
  intros Hsq Hn Hv.
  pose proof (square_row n m 0 Hsq ltac:(lia)) as Hrow.
  rewrite (assign_row_eq _ 0 (set_first v) 0 (v ++ repeat 0 (n - 4))).
  - rewrite set_nth_twice. reflexivity.
  - rewrite length_set_nth. destruct Hsq as [-> _]. apply index_nonneg. lia.
  - rewrite nth_set_nth_eq by (destruct Hsq as [-> _]; lia).
    unfold set_first.
    rewrite length_app, length_firstn, repeat_length, Hrow, Hv.
    replace (Nat.min 4 n + (n - 4) <? 4)%nat with false
      by (symmetry; apply Nat.ltb_ge; lia).
    rewrite skipn_app, length_firstn, Hrow.
    replace (4 - Nat.min 4 n)%nat with 0%nat by lia.
    rewrite skipn_firstn_comm. replace (4 - 4)%nat with 0%nat by lia.
    reflexivity.
Qed.

Lemma assign_zero_upto_last (n : nat) (m : matrix) :
  square n m -> (4 <= n)%nat ->
  assign_row m (-1) (zero_upto_last 4) =
  Ok (set_nth (n - 1)
              (repeat 0 (n - 4) ++ skipn (n - 4) (nth (n - 1) m [])) m).
Proof.
  intros Hsq Hn. apply assign_row_eq.
  - destruct Hsq as [-> _]. apply (index_last n 1). lia.
  - unfold zero_upto_last. rewrite (square_row n m (n - 1) Hsq) by lia.
    reflexivity.
Qed.

Lemma assign_last_stencil (n : nat) (m : matrix) (v : list Q) :
  square n m -> (4 <= n)%nat -> length v = 4%nat ->
  assign_row (set_nth (n - 1)
                      (repeat 0 (n - 4) ++ skipn (n - 4) (nth (n - 1) m [])) m)
             (-1) (set_last v) =
  Ok (set_nth (n - 1) (repeat 0 (n - 4) ++ v) m).
Proof.
  intros Hsq Hn Hv.
  pose proof (square_row n m (n - 1) Hsq ltac:(lia)) as Hrow.
  rewrite (assign_row_eq _ (-1) (set_last v) (n - 1)
             (repeat 0 (n - 4) ++ v)).
  - rewrite set_nth_twice. reflexivity.
  - rewrite length_set_nth. destruct Hsq as [-> _].
    apply (index_last n 1). lia.
  - rewrite nth_set_nth_eq by (destruct Hsq as [-> _]; lia).
    unfold set_last.
    rewrite length_app, length_skipn, repeat_length, Hrow, Hv.
    replace (n - 4 + (n - (n - 4)) <? 4)%nat with false
      by (symmetry; apply Nat.ltb_ge; lia).
    replace (n - 4 + (n - (n - 4)) - 4)%nat with (n - 4)%nat by lia.
    rewrite firstn_app, repeat_length.
    replace (n - 4 - (n - 4))%nat with 0%nat by lia.
    rewrite firstn_all2 by (rewrite repeat_length; lia).
    cbn [firstn]. rewrite app_nil_r. reflexivity.
Qed.

(** What the eight assignments of the one-sided rows leave behind: row 0
    and the last row of each matrix hold the stencil and zeros, the other
    rows are untouched. *)
Lemma one_sided_rows (n : nat) (h : Q) (a b : matrix) :
  (4 <= n)%nat -> square n a -> square n b ->
  one_sided h a b =
  Ok (set_nth (n - 1)
              (repeat 0 (n - 4) ++ tuple_over [-1 # 3; 3 # 2; -3; 11 # 6] h)
              (set_nth 0
                       (tuple_over [-11 # 6; 3; -3 # 2; 1 # 3] h
                          ++ repeat 0 (n - 4)) a),
      set_nth (n - 1)
              (repeat 0 (n - 4) ++ tuple_over [-1; 4; -5; 2] (h * h))
              (set_nth 0
                       (tuple_over [2; -5; 4; -1] (h * h) ++ repeat 0 (n - 4))
                       b)).
Proof.
  intros Hn Ha Hb. unfold one_sided.
  rewrite (assign_zero_from n a Ha Hn). cbn [bind].
  rewrite (assign_first_stencil n a (tuple_over [-11 # 6; 3; -3 # 2; 1 # 3] h)
             Ha Hn eq_refl). cbn [bind].
  assert (Ha' : square n (set_nth 0
                            (tuple_over [-11 # 6; 3; -3 # 2; 1 # 3] h
                               ++ repeat 0 (n - 4)) a)).
  { apply square_set_nth; [exact Ha|].
    rewrite length_app, repeat_length. cbn [tuple_over map length]. lia. }
  rewrite (assign_zero_upto_last n _ Ha' Hn). cbn [bind].
  rewrite (assign_last_stencil n _ (tuple_over [-1 # 3; 3 # 2; -3; 11 # 6] h)
             Ha' Hn eq_refl). cbn [bind].
  rewrite (assign_zero_from n b Hb Hn). cbn [bind].
  rewrite (assign_first_stencil n b (tuple_over [2; -5; 4; -1] (h * h))
             Hb Hn eq_refl). cbn [bind].
  assert (Hb' : square n (set_nth 0
                            (tuple_over [2; -5; 4; -1] (h * h)
                               ++ repeat 0 (n - 4)) b)).
  { apply square_set_nth; [exact Hb|].
    rewrite length_app, repeat_length. cbn [tuple_over map length]. lia. }
  rewrite (assign_zero_upto_last n _ Hb' Hn). cbn [bind].
  rewrite (assign_last_stencil n _ (tuple_over [-1; 4; -5; 2] (h * h))
             Hb' Hn eq_refl). cbn [bind].
  reflexivity.
Qed.

Lemma central_square (n : nat) (h : Q) :
  square n (mdiv (msub (np_roll (np_eye n) 1) (np_roll (np_eye n) (-1)))
                 (2 * h)) /\
  square n (mdiv (madd (msub (np_roll (np_eye n) 1) (mscale 2 (np_eye n)))
                       (np_roll (np_eye n) (-1)))
                 (h * h)).
Proof.
  pose proof (np_eye_square n) as HE. split.
  - apply mdiv_square, msub_square; apply np_roll_square; exact HE.
  - apply mdiv_square, madd_square; [apply msub_square|];
      try apply mscale_square; try apply np_roll_square; exact HE.
Qed.

(** The boundary rows of the Dirichlet branch. *)
Lemma dirichlet_rows (xa xb : Q) (nx : Z) :
  (4 <= nx)%Z ->
  exists g,
    discretise xa xb nx "dirichlet" = Ok g /\
    eye g = np_eye (Z.to_nat nx) /\
    nth 0 (ddx g) [] =
      tuple_over [-11 # 6; 3; -3 # 2; 1 # 3] (dx g)
        ++ repeat 0 (Z.to_nat nx - 4) /\
    nth (Z.to_nat nx - 1) (ddx g) [] =
      repeat 0 (Z.to_nat nx - 4)
        ++ tuple_over [-1 # 3; 3 # 2; -3; 11 # 6] (dx g) /\
    nth 0 (d2dx2 g) [] =
      tuple_over [2; -5; 4; -1] (dx g * dx g)
        ++ repeat 0 (Z.to_nat nx - 4) /\
    nth (Z.to_nat nx - 1) (d2dx2 g) [] =
      repeat 0 (Z.to_nat nx - 4)
        ++ tuple_over [-1; 4; -5; 2] (dx g * dx g).
Proof.
  intro Hnx. unfold discretise.
  destruct (linspace_ends xa xb nx) as [a (Hlin & Hlen & H0 & [x1 H1] & _)];
    [lia|].
  rewrite Hlin. cbn [bind]. rewrite H1. cbn [bind]. rewrite H0. cbn [bind].
  change (String.eqb "dirichlet" "periodic") with false.
  change (String.eqb "dirichlet" "dirichlet") with true. cbv iota.
  set (n := Z.to_nat nx).
  assert (Hn : (4 <= n)%nat) by lia.
  set (x0 := inject_Z 0 * ((xb - xa) / inject_Z (nx - 1)) + xa).
  set (h := x1 - x0).
  destruct (central_square n h) as [Hsq1 Hsq2].
  rewrite (one_sided_rows n h _ _ Hn Hsq1 Hsq2). cbn [bind fst snd].
  eexists. split; [reflexivity|]. cbn [eye ddx d2dx2 dx].
  split; [reflexivity|].
  repeat split.
  - rewrite nth_set_nth_neq by lia.
    apply nth_set_nth_eq. destruct Hsq1 as [-> _]. lia.
  - apply nth_set_nth_eq. rewrite length_set_nth.
    destruct Hsq1 as [-> _]. lia.
  - rewrite nth_set_nth_neq by lia.
    apply nth_set_nth_eq. destruct Hsq2 as [-> _]. lia.
  - apply nth_set_nth_eq. rewrite length_set_nth.
    destruct Hsq2 as [-> _]. lia.
Qed.

(** With four points or more the Dirichlet [discretise] returns the plain
    identity matrix, and row 0 and the last row of [ddx] and [d2dx2] hold
    the one-sided stencils, divided by [dx] and by [dx*dx], and zeros
    elsewhere. *)
Theorem discretise_dirichlet_rows (xa xb : Q) (nx : Z) :
  (4 <= nx)%Z ->
  exists g,
    discretise xa xb nx "dirichlet" = Ok g /\
    eye g = np_eye (Z.to_nat nx) /\
    nth 0 (ddx g) [] =
      tuple_over [-11 # 6; 3; -3 # 2; 1 # 3] (dx g)
        ++ repeat 0 (Z.to_nat nx - 4) /\
    nth (Z.to_nat nx - 1) (ddx g) [] =
      repeat 0 (Z.to_nat nx - 4)
        ++ tuple_over [-1 # 3; 3 # 2; -3; 11 # 6] (dx g) /\
    nth 0 (d2dx2 g) [] =
      tuple_over [2; -5; 4; -1] (dx g * dx g)
        ++ repeat 0 (Z.to_nat nx - 4) /\
    nth (Z.to_nat nx - 1) (d2dx2 g) [] =
      repeat 0 (Z.to_nat nx - 4)
        ++ tuple_over [-1; 4; -5; 2] (dx g * dx g).
Proof. apply dirichlet_rows. Qed.

Lemma discretise_dirichlet_rows_witness :
  exists g,
    discretise 0 8 5 "dirichlet" = Ok g /\
    eye g = np_eye (Z.to_nat 5) /\
    nth 0 (ddx g) [] =
      tuple_over [-11 # 6; 3; -3 # 2; 1 # 3] (dx g)
        ++ repeat 0 (Z.to_nat 5 - 4) /\
    nth (Z.to_nat 5 - 1) (ddx g) [] =
      repeat 0 (Z.to_nat 5 - 4)
        ++ tuple_over [-1 # 3; 3 # 2; -3; 11 # 6] (dx g) /\
    nth 0 (d2dx2 g) [] =
      tuple_over [2; -5; 4; -1] (dx g * dx g)
        ++ repeat 0 (Z.to_nat 5 - 4) /\
    nth (Z.to_nat 5 - 1) (d2dx2 g) [] =
      repeat 0 (Z.to_nat 5 - 4)
        ++ tuple_over [-1; 4; -5; 2] (dx g * dx g).
Proof.
  apply (discretise_dirichlet_rows 0 8 5). lia.
Defined.

Lemma discretise_Ok_nx (xa xb : Q) (nx : Z) (bcs : string) (g : grid) :
  discretise xa xb nx bcs = Ok g -> (2 <= nx)%Z.
Proof.
  intro H. apply discretise_Ok_grid in H.
  destruct H as [a (Hlin & Hlen & _)].
  unfold linspace in Hlin.
  destruct (nx <? 0)%Z eqn:E; [discriminate|]. apply Z.ltb_ge in E.
  inversion Hlin as [Ha]. clear Hlin.
  destruct (1 <? nx)%Z eqn:E1; [apply Z.ltb_lt in E1; lia|].
  apply Z.ltb_ge in E1. rewrite <- Ha, length_map, length_seq in Hlen. lia.
Qed.

(** Away from the periodic branch a grid needs four points. *)
Lemma discretise_Ok_four (xa xb : Q) (nx : Z) (bcs : string) (g : grid) :
  discretise xa xb nx bcs = Ok g ->
  String.eqb bcs "periodic" = false -> (4 <= nx)%Z.
Proof.
  intros H Ep. pose proof (discretise_Ok_nx _ _ _ _ _ H) as Hnx.
  destruct (Z.lt_ge_cases nx 4) as [Hlt|Hge]; [exfalso|exact Hge].
  assert (Hcases : nx = 2%Z \/ nx = 3%Z) by lia.
  unfold discretise in H. rewrite Ep in H.
  destruct (String.eqb bcs "dirichlet"), (String.eqb bcs "neumann");
    destruct Hcases as [-> | ->]; discriminate H.
Qed.

(** On the rows that are not at the boundary a rolled identity has its
    one where the neighbour is. *)
Lemma roll_interior (n i j : nat) :
  (0 < i < n - 1)%nat -> (j < n)%nat ->
  Nat.eqb i (Z.to_nat ((Z.of_nat j - 1) mod Z.of_nat n)) = Nat.eqb j (i + 1) /\
  Nat.eqb i (Z.to_nat ((Z.of_nat j - -1) mod Z.of_nat n)) = Nat.eqb j (i - 1).
Proof.
  intros Hi Hj. split.
  - destruct (Nat.eq_dec j 0) as [->|Hj0].
    + replace ((Z.of_nat 0 - 1) mod Z.of_nat n)%Z with (Z.of_nat n - 1)%Z
        by (apply (Z.mod_unique_pos _ _ (-1)); lia).
      destruct (Nat.eqb_spec i (Z.to_nat (Z.of_nat n - 1)));
        destruct (Nat.eqb_spec 0 (i + 1)); try reflexivity; lia.
    + rewrite Z.mod_small by lia.
      destruct (Nat.eqb_spec i (Z.to_nat (Z.of_nat j - 1)));
        destruct (Nat.eqb_spec j (i + 1)); try reflexivity; lia.
  - destruct (Nat.eq_dec j (n - 1)) as [->|Hjn].
    + replace ((Z.of_nat (n - 1) - -1) mod Z.of_nat n)%Z with 0%Z
        by (apply (Z.mod_unique_pos _ _ 1); lia).
      destruct (Nat.eqb_spec i (Z.to_nat 0));
        destruct (Nat.eqb_spec (n - 1) (i - 1)); try reflexivity; lia.
    + rewrite Z.mod_small by lia.
      destruct (Nat.eqb_spec i (Z.to_nat (Z.of_nat j - -1)));
        destruct (Nat.eqb_spec j (i - 1)); try reflexivity; lia.
Qed.

Lemma central_entries (n : nat) (h : Q) (i j : nat) :
  (0 < i < n - 1)%nat -> (j < n)%nat ->
  nth j (nth i (mdiv (msub (np_roll (np_eye n) 1) (np_roll (np_eye n) (-1)))
                     (2 * h)) []) 0 =
    ((if Nat.eqb j (i + 1) then 1 else 0)
       - (if Nat.eqb j (i - 1) then 1 else 0)) / (2 * h) /\
  nth j (nth i (mdiv (madd (msub (np_roll (np_eye n) 1)
                                 (mscale 2 (np_eye n)))
                           (np_roll (np_eye n) (-1)))
                     (h * h)) []) 0 =
    ((if Nat.eqb j (i + 1) then 1 else 0)
       - 2 * (if Nat.eqb i j then 1 else 0)
       + (if Nat.eqb j (i - 1) then 1 else 0)) / (h * h).
Proof.
  intros Hi Hj.
  assert (Hi' : (i < n)%nat) by lia.
  pose proof (np_eye_square n) as HE.
  assert (HR : forall k, square n (np_roll (np_eye n) k))
    by (intro k; apply np_roll_square; exact HE).
  destruct (roll_interior n i j Hi Hj) as [E1 E2].
  unfold mdiv, madd, msub, mscale. split.
  - rewrite (entry_map _ n) by (try apply map2_square; auto).
    rewrite (entry_map2 _ n) by auto.
    rewrite !roll_eye_entry by assumption.
    rewrite E1, E2. reflexivity.
  - rewrite (entry_map _ n)
      by (repeat apply map2_square; try apply map_map_square; auto).
    rewrite (entry_map2 _ n)
      by (repeat apply map2_square; try apply map_map_square; auto).
    rewrite (entry_map2 _ n) by (try apply map_map_square; auto).
    rewrite (entry_map _ n) by auto.
    rewrite !roll_eye_entry by assumption.
    rewrite np_eye_entry by assumption.
    rewrite E1, E2. reflexivity.
Qed.

Lemma Ok_inj {A : Type} (x y : A) : Ok x = Ok y -> x = y.
Proof. intro H. injection H as H. exact H. Qed.

(** Whatever the boundary conditions, the rows of [ddx] and [d2dx2] that
    are not at the boundary are the central differences:
    [(y[i+1] - y[i-1]) / (2*dx)] and
    [(y[i+1] - 2*y[i] + y[i-1]) / (dx*dx)]. *)
Theorem discretise_interior_rows (xa xb : Q) (nx : Z) (bcs : string)
        (g : grid) :
  discretise xa xb nx bcs = Ok g ->
  forall i j,
    (0 < i < Z.to_nat nx - 1)%nat -> (j < Z.to_nat nx)%nat ->
    nth j (nth i (ddx g) []) 0 =
      ((if Nat.eqb j (i + 1) then 1 else 0)
         - (if Nat.eqb j (i - 1) then 1 else 0)) / (2 * dx g) /\
    nth j (nth i (d2dx2 g) []) 0 =
      ((if Nat.eqb j (i + 1) then 1 else 0)
         - 2 * (if Nat.eqb i j then 1 else 0)
         + (if Nat.eqb j (i - 1) then 1 else 0)) / (dx g * dx g).
Proof.
  intros H i j Hi Hj.
  set (n := Z.to_nat nx) in *.
  destruct (String.eqb bcs "periodic") eqn:Ep.
  - unfold discretise in H. rewrite Ep in H.
    destruct (linspace xa xb nx) as [a|e]; cbn [bind] in H; [|discriminate].
    destruct (getitem a 1) as [x1|e]; cbn [bind] in H; [|discriminate].
    destruct (getitem a 0) as [x0|e]; cbn [bind] in H; [|discriminate].
    apply Ok_inj in H. subst g. cbv beta iota delta [ddx d2dx2 dx].
    apply central_entries; assumption.
  - pose proof (discretise_Ok_four _ _ _ _ _ H Ep) as Hnx.
    assert (Hn : (4 <= n)%nat) by (unfold n; lia).
    unfold discretise in H. rewrite Ep in H.
    destruct (linspace xa xb nx) as [a|e]; cbn [bind] in H; [|discriminate].
    destruct (getitem a 1) as [x1|e]; cbn [bind] in H; [|discriminate].
    destruct (getitem a 0) as [x0|e]; cbn [bind] in H; [|discriminate].
    fold n in H.
    destruct (central_square n (x1 - x0)) as [Hsq1 Hsq2].
    rewrite (one_sided_rows n (x1 - x0) _ _ Hn Hsq1 Hsq2) in H.
    cbv beta iota delta [bind fst snd] in H.
    destruct (String.eqb bcs "dirichlet").
    + apply Ok_inj in H. subst g. cbv beta iota delta [ddx d2dx2 dx].
      rewrite !(nth_set_nth_neq _ i) by lia.
      apply central_entries; assumption.
    + destruct (String.eqb bcs "neumann"); [|discriminate].
      destruct (assign_row (np_eye n) 0 _) as [e1|e]; cbn [bind] in H;
        [|discriminate].
      destruct (assign_row e1 (-1) _) as [e2|e]; cbn [bind] in H;
        [|discriminate].
      apply Ok_inj in H. subst g. cbv beta iota delta [ddx d2dx2 dx].
      rewrite !(nth_set_nth_neq _ i) by lia.
      apply central_entries; assumption.
Qed.

Lemma discretise_interior_rows_witness :
  exists g,
    discretise 0 8 5 "neumann" = Ok g /\
    forall i j,
      (0 < i < Z.to_nat 5 - 1)%nat -> (j < Z.to_nat 5)%nat ->
      nth j (nth i (ddx g) []) 0 =
        ((if Nat.eqb j (i + 1) then 1 else 0)
           - (if Nat.eqb j (i - 1) then 1 else 0)) / (2 * dx g) /\
      nth j (nth i (d2dx2 g) []) 0 =
        ((if Nat.eqb j (i + 1) then 1 else 0)
           - 2 * (if Nat.eqb i j then 1 else 0)
           + (if Nat.eqb j (i - 1) then 1 else 0)) / (dx g * dx g).
Proof.
  eexists. split; [vm_compute; reflexivity|].
  apply (discretise_interior_rows 0 8 5 "neumann").
  vm_compute. reflexivity.
Defined.

(** ** Gradient descent *)

(** With [min_steps] 1 or less the first test of the loop already asks
    for [fs[-2]] while [fs] holds one value: [gradient_descent] raises
    [IndexError], whatever the other arguments. *)
Theorem gradient_descent_one_value (f : list Q -> Q)
        (gradf : list Q -> list Q) (fuel : nat) (x0 : list Q)
        (rate abstol : Q) (min_steps max_steps : Z) :
  (min_steps <= 1)%Z ->
  gradient_descent f gradf (S fuel) x0 rate abstol min_steps max_steps =
  Some (Raise IndexError).
Proof.
  intro H. unfold gradient_descent. cbn [descent_loop].
  unfold keep_going. cbn [length].
  replace (Z.of_nat 1 <? min_steps)%Z with false
    by (symmetry; apply Z.ltb_ge; lia).
  reflexivity.
Qed.

Lemma gradient_descent_one_value_witness :
  gradient_descent (fun x => dot x x) (map (Qmult 2)) 1 [1; 2] 0.1 0.001 1 200 =
  Some (Raise IndexError).
Proof.
  apply (gradient_descent_one_value (fun x => dot x x) (map (Qmult 2)) 0
           [1; 2] 0.1 0.001 1 200).
  lia.
Defined.






(** ** Differentiating an array *)

(** With an [order] of 0 or less the recursion of [ddx] never reaches
    [order == 1]: whatever the depth allowed, no array comes back. *)
Theorem ddx_order_below_one (ys : list Q) (dx : Q) (order : Z) (fuel : nat) :
  (order <= 0)%Z ->
  Variations.ddx fuel ys dx order = None.
Proof.
  revert order. induction fuel as [|fuel IH]; intros order H; [reflexivity|].
  cbn [Variations.ddx].
  replace (order =? 1)%Z with false by (symmetry; apply Z.eqb_neq; lia).
  rewrite IH by lia. reflexivity.
Qed.

Lemma ddx_order_below_one_witness :
  Variations.ddx 1000 [1; 4; 9] 1 0 = None.
Proof.
  apply (ddx_order_below_one [1; 4; 9] 1 0 1000). lia.
Defined.

Lemma ddx_order_1 (fuel : nat) (ys : list Q) (dx : Q) :
  Variations.ddx (S fuel) ys dx 1 = Some (Variations.first_order ys dx).
Proof. reflexivity. Qed.

Lemma ddx_order_succ (k : nat) (ys : list Q) (dx : Q) :
  (1 <= k)%nat ->
  Variations.ddx (S k) ys dx (Z.of_nat (S k)) =
  match Variations.ddx k ys dx (Z.of_nat k) with
  | None => None
  | Some (Raise e) => Some (Raise e)
  | Some (Ok inner) => Variations.ddx k inner dx 1
  end.
Proof.
  intro Hk. cbn [Variations.ddx].
  replace (Z.of_nat (S k) =? 1)%Z with false
    by (symmetry; apply Z.eqb_neq; lia).
  replace (Z.of_nat (S k) - 1)%Z with (Z.of_nat k) by lia.
  reflexivity.
Qed.

(** An array of fewer than three values cannot be differentiated:
    [ddx] raises [IndexError], for every order from 1 on. *)
Theorem ddx_needs_three_values (ys : list Q) (dx : Q) (order : Z) :
  (length ys < 3)%nat ->
  (1 <= order)%Z ->
  Variations.ddx (Z.to_nat order) ys dx order = Some (Raise IndexError).
Proof.
  intros Hlen Horder.
  assert (H1 : Variations.first_order ys dx = Raise IndexError).
  { destruct ys as [|a [|b [|c ys]]]; cbn in Hlen; try lia; reflexivity. }
  assert (Hk : forall k, Variations.ddx (S k) ys dx (Z.of_nat (S k)) =
                         Some (Raise IndexError)).
  { induction k as [|k IH].
    - change (Z.of_nat 1) with 1%Z. rewrite ddx_order_1, H1. reflexivity.
    - rewrite ddx_order_succ by lia. rewrite IH. reflexivity. }
  pose proof (Hk (Z.to_nat order - 1)%nat) as H.
  replace (S (Z.to_nat order - 1)) with (Z.to_nat order) in H by lia.
  rewrite Z2Nat.id in H by lia. exact H.
Qed.

Lemma ddx_needs_three_values_witness :
  Variations.ddx (Z.to_nat 2) [1; 4] 1 2 = Some (Raise IndexError).
Proof.
  apply (ddx_needs_three_values [1; 4] 1 2); [cbn; lia|lia].
Defined.

Lemma nth_samples (f : Q -> Q) (l : list Q) (i : nat) :
  (i < length l)%nat -> nth i (map f l) 0 = f (nth i l 0).
Proof.
  intro H. rewrite (nth_indep _ 0 (f 0)) by (rewrite length_map; exact H).
  apply map_nth.
Qed.

(** One pass of [ddx] over three values or more, entry by entry. *)
Lemma first_order_entries (ys : list Q) (dx : Q) :
  (3 <= length ys)%nat ->
  exists r,
    Variations.first_order ys dx = Ok r /\
    length r = length ys /\
    nth 0 r 0 = (-0.5 * nth 2 ys 0 + 2 * nth 1 ys 0 - 1.5 * nth 0 ys 0) / dx /\
    nth (length ys - 1) r 0 =
      (0.5 * nth (length ys - 3) ys 0 - 2 * nth (length ys - 2) ys 0
       + 1.5 * nth (length ys - 1) ys 0) / dx /\
    forall i, (0 < i < length ys - 1)%nat ->
              nth i r 0 = (nth (i + 1) ys 0 - nth (i - 1) ys 0) / 2 / dx.
Proof.
  intros Hlen.
  set (n := length ys) in *.
  assert (G2 : getitem ys 2 = Ok (nth 2 ys 0))
    by (apply getitem_index; apply (index_nonneg (length ys) 2); fold n; lia).
  assert (G1 : getitem ys 1 = Ok (nth 1 ys 0))
    by (apply getitem_index; apply (index_nonneg (length ys) 1); fold n; lia).
  assert (G0 : getitem ys 0 = Ok (nth 0 ys 0))
    by (apply getitem_index; apply (index_nonneg (length ys) 0); fold n; lia).
  assert (L3 : getitem ys (-3) = Ok (nth (n - 3) ys 0))
    by (apply getitem_index; apply (index_last (length ys) 3); fold n; lia).
  assert (L2 : getitem ys (-2) = Ok (nth (n - 2) ys 0))
    by (apply getitem_index; apply (index_last (length ys) 2); fold n; lia).
  assert (L1 : getitem ys (-1) = Ok (nth (n - 1) ys 0))
    by (apply getitem_index; apply (index_last (length ys) 1); fold n; lia).
  unfold Variations.first_order.
  rewrite G2. cbn [bind]. rewrite G1. cbn [bind]. rewrite G0. cbn [bind].
  cbv zeta.
  rewrite L3. cbn [bind]. rewrite L2. cbn [bind]. rewrite L1. cbn [bind].
  fold n.
  set (central := map (fun d => d / 2)
                      (map2 Qminus (skipn 2 ys) (firstn (n - 2) ys))).
  assert (Hpair : length (skipn 2 ys) = length (firstn (n - 2) ys))
    by (rewrite length_skipn, length_firstn; fold n; lia).
  assert (Hc : length central = (n - 2)%nat).
  { unfold central. rewrite length_map, length_map2 by exact Hpair.
    rewrite length_skipn. reflexivity. }
  set (first := -0.5 * nth 2 ys 0 + 2 * nth 1 ys 0 - 1.5 * nth 0 ys 0).
  set (final := 0.5 * nth (n - 3) ys 0 - 2 * nth (n - 2) ys 0
                + 1.5 * nth (n - 1) ys 0).
  eexists. split; [reflexivity|].
  assert (Hlenr : length ([first] ++ central ++ [final]) = n).
  { rewrite !length_app, Hc. cbn [length]. lia. }
  split; [rewrite length_map; exact Hlenr|].
  split; [|split].
  - rewrite nth_samples by (rewrite Hlenr; lia). reflexivity.
  - rewrite nth_samples by (rewrite Hlenr; lia).
    replace (n - 1)%nat with (S (length central)) by (rewrite Hc; lia).
    cbn [app nth]. rewrite nth_middle. reflexivity.
  - intros i Hi.
    rewrite nth_samples by (rewrite Hlenr; lia).
    destruct i as [|i]; [lia|].
    cbn [app nth].
    rewrite app_nth1 by (rewrite Hc; lia).
    unfold central.
    rewrite nth_samples by (rewrite length_map2 by exact Hpair;
                            rewrite length_skipn; fold n; lia).
    rewrite (nth_map2 Qminus _ _ i 0 0 0)
      by (try exact Hpair; rewrite length_skipn; fold n; lia).
    rewrite nth_skipn, nth_firstn.
    replace (i <? n - 2)%nat with true by (symmetry; apply Nat.ltb_lt; lia).
    replace (S i + 1)%nat with (2 + i)%nat by lia.
    replace (S i - 1)%nat with i by lia.
    reflexivity.
Qed.

(** For every order from 1 on, [ddx] returns as many values as it is
    given, three or more. *)
Lemma ddx_returns (dx : Q) (k : nat) :
  forall ys,
    (3 <= length ys)%nat ->
    exists r,
      Variations.ddx (S k) ys dx (Z.of_nat (S k)) = Some (Ok r) /\
      length r = length ys.
Proof.
  induction k as [|k IH]; intros ys Hlen.
  - change (Z.of_nat 1) with 1%Z. rewrite ddx_order_1.
    destruct (first_order_entries ys dx Hlen) as [r (Hr & Hl & _)].
    exists r. rewrite Hr. split; [reflexivity|exact Hl].
  - rewrite ddx_order_succ by lia.
    destruct (IH ys Hlen) as [r (Hr & Hl)].
    rewrite Hr, ddx_order_1.
    destruct (first_order_entries r dx) as [r' (Hr' & Hl' & _)]; [lia|].
    exists r'. rewrite Hr'. split; [reflexivity|congruence].
Qed.

(** [ddx] keeps the length of the array, for every order from 1 on, and
    for order 1 its values are, entry by entry: the forward difference
    [(-0.5*ys[2] + 2*ys[1] - 1.5*ys[0]) / dx] at the start, the backward
    difference [(0.5*ys[-3] - 2*ys[-2] + 1.5*ys[-1]) / dx] at the end,
    and the central difference [(ys[i+1] - ys[i-1]) / 2 / dx] at every
    position [i] between them. *)
Theorem ddx_entries (ys : list Q) (dx : Q) (order : Z) :
  (3 <= length ys)%nat ->
  (1 <= order)%Z ->
  exists r,
    Variations.ddx (Z.to_nat order) ys dx order = Some (Ok r) /\
    length r = length ys /\
    (order = 1%Z ->
     nth 0 r 0 =
       (-0.5 * nth 2 ys 0 + 2 * nth 1 ys 0 - 1.5 * nth 0 ys 0) / dx /\
     nth (length ys - 1) r 0 =
       (0.5 * nth (length ys - 3) ys 0 - 2 * nth (length ys - 2) ys 0
        + 1.5 * nth (length ys - 1) ys 0) / dx /\
     forall i, (0 < i < length ys - 1)%nat ->
               nth i r 0 = (nth (i + 1) ys 0 - nth (i - 1) ys 0) / 2 / dx).
Proof.
  intros Hlen Horder.
  set (k := (Z.to_nat order - 1)%nat).
  assert (Hk : Z.to_nat order = S k) by (unfold k; lia).
  assert (Hk' : order = Z.of_nat (S k)) by lia.
  destruct (ddx_returns dx k ys Hlen) as [r (Hr & Hl)].
  exists r. rewrite Hk. rewrite Hk' at 1.
  split; [exact Hr|]. split; [exact Hl|].
  intro H1.
  assert (Hfirst : Variations.ddx (S k) ys dx (Z.of_nat (S k)) =
                   Some (Variations.first_order ys dx)).
  { rewrite <- Hk', H1. apply ddx_order_1. }
  rewrite Hfirst in Hr.
  destruct (first_order_entries ys dx Hlen) as [r' (Hr' & _ & Hentries)].
  rewrite Hr' in Hr. inversion Hr; subst r'. exact Hentries.
Qed.

Lemma ddx_entries_witness :
  exists r,
    Variations.ddx (Z.to_nat 1) [1; 2; 5; 10; 17] (1 # 2) 1 = Some (Ok r) /\
    length r = length [1; 2; 5; 10; 17] /\
    (1%Z = 1%Z ->
     nth 0 r 0 =
       (-0.5 * nth 2 [1; 2; 5; 10; 17] 0 + 2 * nth 1 [1; 2; 5; 10; 17] 0
        - 1.5 * nth 0 [1; 2; 5; 10; 17] 0) / (1 # 2) /\
     nth (length [1; 2; 5; 10; 17] - 1) r 0 =
       (0.5 * nth (length [1; 2; 5; 10; 17] - 3) [1; 2; 5; 10; 17] 0
        - 2 * nth (length [1; 2; 5; 10; 17] - 2) [1; 2; 5; 10; 17] 0
        + 1.5 * nth (length [1; 2; 5; 10; 17] - 1) [1; 2; 5; 10; 17] 0)
       / (1 # 2) /\
     forall i, (0 < i < length [1; 2; 5; 10; 17] - 1)%nat ->
               nth i r 0 =
               (nth (i + 1) [1; 2; 5; 10; 17] 0
                - nth (i - 1) [1; 2; 5; 10; 17] 0) / 2 / (1 # 2)).
Proof.
  apply (ddx_entries [1; 2; 5; 10; 17] (1 # 2) 1); [cbn; lia|lia].
Defined.
